(** * word-list/api-sources: the Sources CRUD handler

    A shallow embedding of the two deployment variants of the handler
    ([main.go], the payload-v1 proxy event, and the v2 HTTP event with a
    JWT authorizer) together with the library behaviour they rely on
    (encoding/json on the [Source] struct, google/uuid, and the DynamoDB
    table seen as a keyed store), followed by the properties of the
    specification checked against it. *)

From Stdlib Require Import ZArith NArith Ascii String List Lia Bool.
From stdpp Require Import gmap strings list fin_maps.

Local Open Scope string_scope.
Local Open Scope list_scope.
Set Warnings "-register-all".

(** ** Go strings

    A Go string is a sequence of bytes; so is a Rocq [string].  The library
    models below work on the list of byte values. *)

Definition bytes (s : string) : list N :=
  map N_of_ascii (list_ascii_of_string s).

Definition str (b : list N) : string :=
  string_of_list_ascii (map ascii_of_N b).

(** ** unicode/utf8 and unicode/utf16 *)

Module utf8.

Definition RuneError : N := 0xFFFD.
Definition RuneSelf : N := 0x80.
Definition MaxRune : N := 0x10FFFF.

Definition within (lo hi b : N) : bool := (lo <=? b)%N && (b <=? hi)%N.

(** The size and the accepted range of the second byte, from the first
    byte ([first] and [acceptRanges] of the Go package). *)
Definition lead (p0 : N) : option (N * N * N) :=
  if within 0xC2 0xDF p0 then Some (2, 0x80, 0xBF)%N
  else if (p0 =? 0xE0)%N then Some (3, 0xA0, 0xBF)%N
  else if within 0xE1 0xEC p0 then Some (3, 0x80, 0xBF)%N
  else if (p0 =? 0xED)%N then Some (3, 0x80, 0x9F)%N
  else if within 0xEE 0xEF p0 then Some (3, 0x80, 0xBF)%N
  else if (p0 =? 0xF0)%N then Some (4, 0x90, 0xBF)%N
  else if within 0xF1 0xF3 p0 then Some (4, 0x80, 0xBF)%N
  else if (p0 =? 0xF4)%N then Some (4, 0x80, 0x8F)%N
  else None.

Definition cont (b : N) : bool := within 0x80 0xBF b.
Definition low6 (b : N) : N := N.land b 0x3F.

(** [DecodeRune p] is the first rune of [p] and its width in bytes;
    an invalid or truncated encoding is [(RuneError, 1)], the empty
    input [(RuneError, 0)]. *)
Definition DecodeRune (p : list N) : N * nat :=
  match p with
  | [] => (RuneError, 0)
  | p0 :: t =>
    if (p0 <? RuneSelf)%N then (p0, 1)
    else match lead p0 with
    | None => (RuneError, 1)
    | Some (sz, lo, hi) =>
      match t with
      | [] => (RuneError, 1)
      | b1 :: t1 =>
        if negb (within lo hi b1) then (RuneError, 1)
        else if (sz <=? 2)%N
        then (N.lor (N.shiftl (N.land p0 0x1F) 6) (low6 b1), 2)
        else match t1 with
        | [] => (RuneError, 1)
        | b2 :: t2 =>
          if negb (cont b2) then (RuneError, 1)
          else if (sz <=? 3)%N
          then (N.lor (N.shiftl (N.land p0 0x0F) 12)
                  (N.lor (N.shiftl (low6 b1) 6) (low6 b2)), 3)
          else match t2 with
          | [] => (RuneError, 1)
          | b3 :: _ =>
            if negb (cont b3) then (RuneError, 1)
            else (N.lor (N.shiftl (N.land p0 0x07) 18)
                    (N.lor (N.shiftl (low6 b1) 12)
                       (N.lor (N.shiftl (low6 b2) 6) (low6 b3))), 4)
          end
        end
      end
    end
  end.

Definition surrogate (r : N) : bool := within 0xD800 0xDFFF r.

Definition enc3 (r : N) : list N :=
  [N.lor 0xE0 (N.shiftr r 12);
   N.lor 0x80 (low6 (N.shiftr r 6));
   N.lor 0x80 (low6 r)].

(** [EncodeRune r]: the UTF-8 encoding of [r]; a surrogate or a value
    above [MaxRune] is encoded as [RuneError]. *)
Definition EncodeRune (r : N) : list N :=
  if (r <=? 0x7F)%N then [r]
  else if (r <=? 0x7FF)%N
  then [N.lor 0xC0 (N.shiftr r 6); N.lor 0x80 (low6 r)]
  else if (MaxRune <? r)%N || surrogate r then enc3 RuneError
  else if (r <=? 0xFFFF)%N then enc3 r
  else [N.lor 0xF0 (N.shiftr r 18);
        N.lor 0x80 (low6 (N.shiftr r 12));
        N.lor 0x80 (low6 (N.shiftr r 6));
        N.lor 0x80 (low6 r)].

End utf8.

Module utf16.

Definition IsSurrogate (r : N) : bool := utf8.within 0xD800 0xDFFF r.

(** The rune of a surrogate pair, [RuneError] when the pair is not one. *)
Definition DecodeRune (r1 r2 : N) : N :=
  if utf8.within 0xD800 0xDBFF r1 && utf8.within 0xDC00 0xDFFF r2
  then (N.lor (N.shiftl (r1 - 0xD800) 10) (r2 - 0xDC00) + 0x10000)%N
  else utf8.RuneError.

End utf16.

(** ** encoding/json

    The part of the package the handlers use: [Unmarshal] into a [Source],
    [Marshal] of a [Source] and of a slice of them.  [Unmarshal] first
    checks that the whole input is one JSON value (the scanner), then
    fills the struct from it. *)

(** The entity, with its JSON keys [id], [name], [url]. *)
Record Source := { ID : string; Name : string; Url : string }.

Definition zeroSource : Source := {| ID := ""; Name := ""; Url := "" |}.

(** A Go slice is either nil or a sequence of elements. *)
Inductive slice (A : Type) :=
| nilSlice
| Slice (elems : list A).
Arguments nilSlice {A}.
Arguments Slice {A} elems.

Module json.

Inductive Value :=
| Null
| Bool (b : bool)
| Number (lit : list N)
| Str (s : list N)
| Array (vs : list Value)
| Object (ms : list (list N * Value)).

Definition isSpace (c : N) : bool :=
  (c =? 32)%N || (c =? 9)%N || (c =? 13)%N || (c =? 10)%N.

Fixpoint skipSpace (s : list N) : list N :=
  match s with
  | c :: r => if isSpace c then skipSpace r else s
  | [] => []
  end.

Definition isDigit (c : N) : bool := utf8.within 48 57 c.

Definition hexVal (c : N) : option N :=
  if utf8.within 48 57 c then Some (c - 48)%N
  else if utf8.within 97 102 c then Some (c - 87)%N
  else if utf8.within 65 70 c then Some (c - 55)%N
  else None.

(** The value of four hexadecimal digits ([getu4] after the [\u]). *)
Definition hex4 (a b c d : N) : option N :=
  match hexVal a, hexVal b, hexVal c, hexVal d with
  | Some x, Some y, Some z, Some w =>
    Some (N.lor (N.shiftl x 12) (N.lor (N.shiftl y 8) (N.lor (N.shiftl z 4) w)))
  | _, _, _, _ => None
  end.

(** The single-character escapes the scanner accepts after a backslash,
    with the byte each stands for. *)
Definition escape (e : N) : option N :=
  if (e =? 34)%N then Some 34%N            (* quote *)
  else if (e =? 92)%N then Some 92%N       (* backslash *)
  else if (e =? 47)%N then Some 47%N       (* slash *)
  else if (e =? 98)%N then Some 8%N        (* backspace *)
  else if (e =? 102)%N then Some 12%N      (* form feed *)
  else if (e =? 110)%N then Some 10%N      (* line feed *)
  else if (e =? 114)%N then Some 13%N      (* carriage return *)
  else if (e =? 116)%N then Some 9%N       (* tab *)
  else None.

(** [scanString s]: [s] starts after an opening quote; the result is the
    literal's content, still escaped, and what follows the closing quote.
    A control character, an unknown escape or a missing closing quote is
    a syntax error. *)
Fixpoint scanString (s : list N) : option (list N * list N) :=
  match s with
  | [] => None
  | c :: r =>
    if (c =? 34)%N then Some ([], r)
    else if (c <? 32)%N then None
    else if (c =? 92)%N then
      match r with
      | [] => None
      | e :: r1 =>
        if (e =? 117)%N then
          match r1 with
          | h1 :: h2 :: h3 :: h4 :: r2 =>
            match hex4 h1 h2 h3 h4 with
            | Some _ =>
              match scanString r2 with
              | Some (lit, rest) => Some (c :: e :: h1 :: h2 :: h3 :: h4 :: lit, rest)
              | None => None
              end
            | None => None
            end
          | _ => None
          end
        else
          match escape e with
          | Some _ =>
            match scanString r1 with
            | Some (lit, rest) => Some (c :: e :: lit, rest)
            | None => None
            end
          | None => None
          end
      end
    else
      match scanString r with
      | Some (lit, rest) => Some (c :: lit, rest)
      | None => None
      end
  end.

(** [getu4 s]: the code unit of a [\uXXXX] escape at the head of [s]. *)
Definition getu4 (s : list N) : option N :=
  match s with
  | 92%N :: 117%N :: h1 :: h2 :: h3 :: h4 :: _ => hex4 h1 h2 h3 h4
  | _ => None
  end.

(** [unquote fuel s]: the bytes a scanned literal denotes.  Escapes are
    replaced, a surrogate pair becomes one rune, a lone surrogate and
    every byte that is not part of a valid UTF-8 encoding become
    U+FFFD. *)
Fixpoint unquote (fuel : nat) (s : list N) : list N :=
  match fuel with
  | O => []
  | S fuel' =>
    match s with
    | [] => []
    | c :: r =>
      if (c =? 92)%N then
        match r with
        | [] => []
        | e :: r1 =>
          if (e =? 117)%N then
            match getu4 s with
            | None => []
            | Some rr =>
              let r2 := drop 4 r1 in
              if utf16.IsSurrogate rr then
                match getu4 r2 with
                | Some rr1 =>
                  let dec := utf16.DecodeRune rr rr1 in
                  if (dec =? utf8.RuneError)%N
                  then utf8.EncodeRune utf8.RuneError ++ unquote fuel' r2
                  else utf8.EncodeRune dec ++ unquote fuel' (drop 6 r2)
                | None => utf8.EncodeRune utf8.RuneError ++ unquote fuel' r2
                end
              else utf8.EncodeRune rr ++ unquote fuel' r2
            end
          else
            match escape e with
            | Some b => b :: unquote fuel' r1
            | None => []
            end
        end
      else if (c <? utf8.RuneSelf)%N then c :: unquote fuel' r
      else
        let '(rr, size) := utf8.DecodeRune s in
        utf8.EncodeRune rr ++ unquote fuel' (drop size s)
    end
  end.

Fixpoint scanDigits (s : list N) : list N * list N :=
  match s with
  | c :: r =>
    if isDigit c then let '(d, rest) := scanDigits r in (c :: d, rest)
    else ([], s)
  | [] => ([], [])
  end.

(** Digits, at least one. *)
Definition scanDigits1 (s : list N) : option (list N * list N) :=
  match scanDigits s with
  | ([], _) => None
  | (d, rest) => Some (d, rest)
  end.

(** [scanNumber s]: the longest number literal at the head of [s]:
    an optional minus, [0] or a digit string without leading zero, an
    optional fraction, an optional exponent. *)
Definition scanNumber (s : list N) : option (list N * list N) :=
  let '(sign, s1) :=
    match s with
    | c :: r => if (c =? 45)%N then ([c], r) else ([], s)
    | [] => ([], s)
    end in
  match s1 with
  | [] => None
  | c :: r =>
    let int :=
      if (c =? 48)%N then Some ([c], r)
      else if utf8.within 49 57 c then scanDigits1 s1
      else None in
    match int with
    | None => None
    | Some (i, s2) =>
      let frac :=
        match s2 with
        | d :: r2 =>
          if (d =? 46)%N then
            match scanDigits1 r2 with
            | Some (f, s3) => Some (d :: f, s3)
            | None => None
            end
          else Some ([], s2)
        | [] => Some ([], s2)
        end in
      match frac with
      | None => None
      | Some (f, s3) =>
        let exp :=
          match s3 with
          | e :: r3 =>
            if (e =? 101)%N || (e =? 69)%N then
              let '(sg, r4) :=
                match r3 with
                | g :: r4 =>
                  if (g =? 43)%N || (g =? 45)%N then ([g], r4) else ([], r3)
                | [] => ([], r3)
                end in
              match scanDigits1 r4 with
              | Some (x, s4) => Some (e :: sg ++ x, s4)
              | None => None
              end
            else Some ([], s3)
          | [] => Some ([], s3)
          end in
        match exp with
        | None => None
        | Some (x, s4) => Some (sign ++ i ++ f ++ x, s4)
        end
      end
    end
  end.

(** [s] with the prefix [p] removed, when it starts with it. *)
Fixpoint stripPrefix (p s : list N) : option (list N) :=
  match p, s with
  | [], _ => Some s
  | a :: p', b :: s' => if (a =? b)%N then stripPrefix p' s' else None
  | _ :: _, [] => None
  end.

Definition maxNestingDepth : N := 10000.

(** The recursive descent over one value.  [depth] counts the arrays and
    objects already open: the scanner refuses to open more than
    [maxNestingDepth].  [parseElems] and [parseMembers] start after the
    first element or key is known to be there and stop after the closing
    bracket.  The fuel bounds the number of calls; [parse] gives twice the
    length of the input and two more, which is enough for any input
    ([parse_complete] below). *)
Fixpoint parseValue (fuel : nat) (depth : N) (s : list N)
  : option (Value * list N) :=
  match fuel with
  | O => None
  | S fuel' =>
    match skipSpace s with
    | [] => None
    | c :: r =>
      if (c =? 123)%N then
        if (maxNestingDepth <? depth + 1)%N then None
        else match skipSpace r with
        | [] => None
        | c2 :: r2 =>
          if (c2 =? 125)%N then Some (Object [], r2)
          else match parseMembers fuel' (depth + 1)%N r with
          | Some (ms, rest) => Some (Object ms, rest)
          | None => None
          end
        end
      else if (c =? 91)%N then
        if (maxNestingDepth <? depth + 1)%N then None
        else match skipSpace r with
        | [] => None
        | c2 :: r2 =>
          if (c2 =? 93)%N then Some (Array [], r2)
          else match parseElems fuel' (depth + 1)%N r with
          | Some (vs, rest) => Some (Array vs, rest)
          | None => None
          end
        end
      else if (c =? 34)%N then
        match scanString r with
        | Some (lit, rest) => Some (Str (unquote (S (length lit)) lit), rest)
        | None => None
        end
      else if (c =? 45)%N || isDigit c then
        match scanNumber (c :: r) with
        | Some (lit, rest) => Some (Number lit, rest)
        | None => None
        end
      else if (c =? 116)%N then
        match stripPrefix (bytes "rue") r with
        | Some rest => Some (Bool true, rest)
        | None => None
        end
      else if (c =? 102)%N then
        match stripPrefix (bytes "alse") r with
        | Some rest => Some (Bool false, rest)
        | None => None
        end
      else if (c =? 110)%N then
        match stripPrefix (bytes "ull") r with
        | Some rest => Some (Null, rest)
        | None => None
        end
      else None
    end
  end
with parseElems (fuel : nat) (depth : N) (s : list N)
  : option (list Value * list N) :=
  match fuel with
  | O => None
  | S fuel' =>
    match parseValue fuel' depth s with
    | None => None
    | Some (v, r) =>
      match skipSpace r with
      | [] => None
      | c :: r' =>
        if (c =? 44)%N then
          match parseElems fuel' depth r' with
          | Some (vs, rest) => Some (v :: vs, rest)
          | None => None
          end
        else if (c =? 93)%N then Some ([v], r')
        else None
      end
    end
  end
with parseMembers (fuel : nat) (depth : N) (s : list N)
  : option (list (list N * Value) * list N) :=
  match fuel with
  | O => None
  | S fuel' =>
    match skipSpace s with
    | [] => None
    | q :: r =>
      if negb (q =? 34)%N then None
      else match scanString r with
      | None => None
      | Some (lit, r1) =>
        let key := unquote (S (length lit)) lit in
        match skipSpace r1 with
        | [] => None
        | c1 :: r2 =>
          if negb (c1 =? 58)%N then None
          else match parseValue fuel' depth r2 with
          | None => None
          | Some (v, r3) =>
            match skipSpace r3 with
            | [] => None
            | c3 :: r4 =>
              if (c3 =? 44)%N then
                match parseMembers fuel' depth r4 with
                | Some (ms, rest) => Some ((key, v) :: ms, rest)
                | None => None
                end
              else if (c3 =? 125)%N then Some ([(key, v)], r4)
              else None
            end
          end
        end
      end
    end
  end.

(** The whole input as one value, white space allowed around it. *)
Definition parse (data : list N) : option Value :=
  match parseValue (2 * length data + 2) 0 data with
  | Some (v, rest) =>
    match skipSpace rest with
    | [] => Some v
    | _ :: _ => None
    end
  | None => None
  end.

(** [Valid data]: [data] is a valid JSON encoding. *)
Definition Valid (data : string) : bool :=
  match parse (bytes data) with
  | Some _ => true
  | None => false
  end.

Inductive Error := SyntaxError | UnmarshalTypeError.

(** Keys are matched to fields case-insensitively.  Every letter of the
    three field names is an ASCII letter other than k and s, so no
    non-ASCII rune folds onto one of them and folding byte by byte
    decides the same matches as the package's [foldName]. *)
Definition foldName (key : list N) : list N :=
  map (fun c => if utf8.within 97 122 c then (c - 32)%N else c) key.

Definition nameIs (key : list N) (field : string) : bool :=
  bool_decide (foldName key = foldName (bytes field)).

(** One member of the object: a string sets the field its key names,
    [null] and an unknown key change nothing, a value of another type
    is a type error that leaves the field as it is. *)
Definition setField (acc : Source * option Error) (m : list N * Value)
  : Source * option Error :=
  let '(v, err) := acc in
  let '(key, val) := m in
  let known := nameIs key "id" || nameIs key "name" || nameIs key "url" in
  match val with
  | Str s =>
    if nameIs key "id" then ({| ID := str s; Name := Name v; Url := Url v |}, err)
    else if nameIs key "name" then ({| ID := ID v; Name := str s; Url := Url v |}, err)
    else if nameIs key "url" then ({| ID := ID v; Name := Name v; Url := str s |}, err)
    else (v, err)
  | Null => (v, err)
  | _ =>
    (v, if known then match err with
                      | Some e => Some e
                      | None => Some UnmarshalTypeError
                      end
        else err)
  end.

(** [Unmarshal data v]: the struct [v] after [json.Unmarshal(data, &v)]
    and the error returned.  Invalid input leaves [v] untouched; so does
    a value that is not an object. *)
Definition Unmarshal (data : string) (v : Source) : Source * option Error :=
  match parse (bytes data) with
  | None => (v, Some SyntaxError)
  | Some (Object ms) => fold_left setField ms (v, None)
  | Some Null => (v, None)
  | Some _ => (v, Some UnmarshalTypeError)
  end.

Definition hexDigit (n : N) : N :=
  if (n <? 10)%N then (48 + n)%N else (87 + n)%N.

(** Bytes the encoder copies unchanged with HTML escaping on. *)
Definition htmlSafe (b : N) : bool :=
  utf8.within 0x20 0x7F b
  && negb ((b =? 34)%N || (b =? 92)%N || (b =? 60)%N || (b =? 62)%N || (b =? 38)%N).

Definition escapeByte (b : N) : list N :=
  if (b =? 92)%N || (b =? 34)%N then [92; b]%N
  else if (b =? 8)%N then [92; 98]%N
  else if (b =? 12)%N then [92; 102]%N
  else if (b =? 10)%N then [92; 110]%N
  else if (b =? 13)%N then [92; 114]%N
  else if (b =? 9)%N then [92; 116]%N
  else [92; 117; 48; 48; hexDigit (N.shiftr b 4); hexDigit (N.land b 0xF)]%N.

(** The body of a string literal ([appendString] without the quotes). *)
Fixpoint appendString (fuel : nat) (src : list N) : list N :=
  match fuel with
  | O => []
  | S fuel' =>
    match src with
    | [] => []
    | b :: r =>
      if (b <? utf8.RuneSelf)%N then
        (if htmlSafe b then [b] else escapeByte b) ++ appendString fuel' r
      else
        let '(c, size) := utf8.DecodeRune (take 4 src) in
        if (c =? utf8.RuneError)%N && (size =? 1)%nat then
          bytes "\ufffd" ++ appendString fuel' r
        else if (c =? 0x2028)%N || (c =? 0x2029)%N then
          bytes "\u202" ++ [hexDigit (N.land c 0xF)] ++ appendString fuel' (drop size src)
        else take size src ++ appendString fuel' (drop size src)
    end
  end.

Definition encodeString (s : string) : list N :=
  [34%N] ++ appendString (length (bytes s)) (bytes s) ++ [34%N].

Definition encodeSource (v : Source) : list N :=
  [123; 34]%N ++ bytes "id" ++ [34; 58]%N ++ encodeString (ID v)
  ++ [44; 34]%N ++ bytes "name" ++ [34; 58]%N ++ encodeString (Name v)
  ++ [44; 34]%N ++ bytes "url" ++ [34; 58]%N ++ encodeString (Url v)
  ++ [125%N].

Fixpoint joinComma (l : list (list N)) : list N :=
  match l with
  | [] => []
  | [x] => x
  | x :: rest => x ++ [44%N] ++ joinComma rest
  end.

(** [json.Marshal] of a [Source]. *)
Definition MarshalSource (v : Source) : string := str (encodeSource v).

(** [json.Marshal] of a [[]Source]: [null] for the nil slice, an array
    otherwise. *)
Definition MarshalSources (s : slice Source) : string :=
  match s with
  | nilSlice => "null"
  | Slice l => str ([91%N] ++ joinComma (map encodeSource l) ++ [93%N])
  end.

End json.

(** ** Outcomes of a Go call

    A call returns, panics (an unrecovered run-time panic) or ends the
    process ([log.Fatalf]). *)

Inductive outcome (A : Type) :=
| Returned (a : A)
| Panicked
| Exited.
Arguments Returned {A} a.
Arguments Panicked {A}.
Arguments Exited {A}.

(** Go's [error]: nil or an error with a message. *)
Definition error := option string.

(** ** github.com/google/uuid *)

Module uuid.

(** A UUID is an array of 16 bytes; entry [i] of the list is byte [i]. *)
Definition UUID := list N.

Definition byteAt (u : UUID) (i : nat) : N := (nth i u 0 mod 256)%N.

Definition hexByte (b : N) : list N :=
  [json.hexDigit (N.shiftr b 4); json.hexDigit (N.land b 0xF)].

Definition hexBytes (u : UUID) (from count : nat) : list N :=
  flat_map (fun i => hexByte (byteAt u i)) (seq from count).

(** The form xxxxxxxx-xxxx-xxxx-xxxx-xxxxxxxxxxxx. *)
Definition encodeHex (u : UUID) : list N :=
  hexByte (byteAt u 0) ++ hexBytes u 1 3 ++ [45%N]
  ++ hexBytes u 4 2 ++ [45%N]
  ++ hexBytes u 6 2 ++ [45%N]
  ++ hexBytes u 8 2 ++ [45%N]
  ++ hexBytes u 10 6.

Definition String (u : UUID) : string := str (encodeHex u).

(** [NewRandom]: 16 bytes from the random source, with the version (4)
    and variant (10) bits set; an error when the source fails. *)
Definition NewRandom (entropy : option (list N)) : option UUID :=
  match entropy with
  | None => None
  | Some b =>
    let u := map (fun i => byteAt b i) (seq 0 16) in
    Some (<[8 := N.lor (N.land (byteAt u 8) 0x3F) 0x80]>
            (<[6 := N.lor (N.land (byteAt u 6) 0x0F) 0x40]> u))
  end.

(** [New] is [Must(NewRandom())]: it panics on the error. *)
Definition New (entropy : option (list N)) : outcome UUID :=
  match NewRandom entropy with
  | Some u => Returned u
  | None => Panicked
  end.

End uuid.

(** ** The DynamoDB table

    The attribute values of an item ([types.AttributeValue] and its member
    types), and the table seen as a store keyed by the string attribute
    [id], its primary key. *)

Module types.

Inductive AttributeValue :=
| AttributeValueMemberS (Value : string)
| AttributeValueMemberN (Value : string)
| AttributeValueMemberB (Value : list N)
| AttributeValueMemberBOOL (Value : bool)
| AttributeValueMemberNULL (Value : bool)
| AttributeValueMemberSS (Value : list string)
| AttributeValueMemberNS (Value : list string)
| AttributeValueMemberBS (Value : list (list N))
| AttributeValueMemberL (Value : list AttributeValue)
| AttributeValueMemberM (Value : gmap string AttributeValue).

End types.
Export types.

Abbreviation Item := (gmap string AttributeValue) (only parsing).

(** One request to the service. *)
Inductive Call :=
| ScanCall
| GetItemCall (key : Item)
| PutItemCall (item : Item)
| DeleteItemCall (key : Item).

(** The world a handler runs in: the table and the requests sent to the
    service so far, the latest last. *)
Record World := { table : gmap string Item; calls : list Call }.

(** What one invocation meets: whether loading the AWS configuration
    fails, whether the service call fails, and what the random source
    yields. *)
Record Env := {
  configFails : bool;
  serviceFails : bool;
  entropy : option (list N)
}.

(** A Go function that may touch the table. *)
Definition Go (A : Type) : Type := World -> outcome A * World.

#[global] Instance Go_ret : MRet Go := fun A a w => (Returned a, w).

#[global] Instance Go_bind : MBind Go := fun A B f m w =>
  match m w with
  | (Returned a, w') => f a w'
  | (Panicked, w') => (Panicked, w')
  | (Exited, w') => (Exited, w')
  end.

(** A call that does not touch the table. *)
Definition pure {A} (o : outcome A) : Go A := fun w => (o, w).

Definition send (c : Call) (w : World) : World :=
  {| table := table w; calls := calls w ++ [c] |}.

Module dynamodb.

Definition serviceError : string := "dynamodb: operation error".
Definition validationError : string := "dynamodb: ValidationException".


(** The primary key of an item or of a key map. *)
Definition keyOf (m : Item) : option string :=
  match m !! "id" with
  | Some (AttributeValueMemberS k) => Some k
  | _ => None
  end.

(** The service refuses a key attribute that is absent, is not a string,
    or is the empty string: the call fails with a ValidationException and
    the table is left as it is. *)
Definition validKey (m : Item) : option string :=
  match keyOf m with
  | Some k => if (k =? "")%string then None else Some k
  | None => None
  end.

(** [Scan]: all the items of the table, in one page. *)
Definition Scan (e : Env) : Go (list Item + string) := fun w =>
  let w' := send ScanCall w in
  if serviceFails e then (Returned (inr serviceError), w')
  else (Returned (inl (map snd (map_to_list (table w)))), w').

(** [GetItem]: the item under the key, nil when there is none. *)
Definition GetItem (e : Env) (key : Item) : Go (option Item + string) := fun w =>
  let w' := send (GetItemCall key) w in
  if serviceFails e then (Returned (inr serviceError), w')
  else match validKey key with
  | None => (Returned (inr validationError), w')
  | Some k => (Returned (inl (table w !! k)), w')
  end.

(** [PutItem]: unconditional upsert under the item's key; no existence
    check. *)
Definition PutItem (e : Env) (item : Item) : Go (unit + string) := fun w =>
  let w' := send (PutItemCall item) w in
  if serviceFails e then (Returned (inr serviceError), w')
  else match validKey item with
  | None => (Returned (inr validationError), w')
  | Some k =>
    (Returned (inl tt), {| table := <[k := item]> (table w); calls := calls w' |})
  end.

(** [DeleteItem]: unconditional removal; an absent key is no error. *)
Definition DeleteItem (e : Env) (key : Item) : Go (unit + string) := fun w =>
  let w' := send (DeleteItemCall key) w in
  if serviceFails e then (Returned (inr serviceError), w')
  else match validKey key with
  | None => (Returned (inr validationError), w')
  | Some k =>
    (Returned (inl tt), {| table := delete k (table w); calls := calls w' |})
  end.

End dynamodb.

(** ** The handlers

    [main.go] and the v2 variant share every function but [handler]
    word for word, up to the type of the event.  The shared functions are
    embedded once, over what they read from the event: the path
    parameters and the body. *)

Class Event (R : Type) := {
  pathParameters : R -> gmap string string;
  body : R -> string
}.

(** [m[k]] on a Go map of strings: the zero value when [k] is absent. *)
Definition index (m : gmap string string) (k : string) : string :=
  default "" (m !! k).

(** The response of both event shapes: the fields the handlers set
    ([ResponseBody] is its [Body]). *)
Record Response := { StatusCode : Z; ResponseBody : string }.

Module http.
Definition MethodGet : string := "GET".
Definition MethodPost : string := "POST".
Definition MethodPut : string := "PUT".
Definition MethodDelete : string := "DELETE".
Definition StatusOK : Z := 200.
Definition StatusCreated : Z := 201.
Definition StatusUnauthorized : Z := 401.
Definition StatusMethodNotAllowed : Z := 405.
Definition StatusInternalServerError : Z := 500.
End http.

Definition dq : string := String "034"%char EmptyString.

(** [s] between double quotes. *)
Definition quoted (s : string) : string := dq +:+ s +:+ dq.

(** The body of an error response, as [fmt.Sprintf] builds it: an object
    with the one key error and the message as its value. *)
Definition errorBody (message : string) : string :=
  "{" +:+ quoted "error" +:+ ": " +:+ quoted message +:+ "}".

(** [log.Fatalf] when the configuration cannot be loaded: the [return]
    after it is never reached, so a caller never sees an error. *)
Definition getDynamoDbService (e : Env) : Go (unit * error) :=
  if configFails e then pure Exited
  else mret (tt, None).

(** The type assertion of [rec[k]] to the string member type, followed by
    [.Value]: it panics when the attribute is absent (a nil interface) or
    of another member type.  (A nil pointer of the string member type
    would pass the assertion and panic on [.Value]; attribute values are
    modelled as non-nil.) *)
Definition stringAttr (rec : Item) (k : string) : outcome string :=
  match rec !! k with
  | Some (AttributeValueMemberS v) => Returned v
  | _ => Panicked
  end.

Definition getSourceFromRecord (rec : Item) : outcome Source :=
  match stringAttr rec "id" with
  | Returned i =>
    match stringAttr rec "name" with
    | Returned n =>
      match stringAttr rec "url" with
      | Returned u => Returned {| ID := i; Name := n; Url := u |}
      | Panicked => Panicked
      | Exited => Exited
      end
    | Panicked => Panicked
    | Exited => Exited
    end
  | Panicked => Panicked
  | Exited => Exited
  end.

Definition serverError (message : string) : Response * error :=
  ({| StatusCode := http.StatusInternalServerError;
      ResponseBody := errorBody message |}, None).

Definition ok (content : string) : Response * error :=
  ({| StatusCode := http.StatusOK; ResponseBody := content |}, None).

Definition created (content : string) : Response * error :=
  ({| StatusCode := http.StatusCreated; ResponseBody := content |}, None).

(** [make([]Source, n)]. *)
Definition make (n : nat) : slice Source := Slice (replicate n zeroSource).

(** [sources[i] = v]. *)
Definition store (sources : slice Source) (i : nat) (v : Source)
  : outcome (slice Source) :=
  match sources with
  | nilSlice => Panicked
  | Slice l => if (i <? length l)%nat then Returned (Slice (<[i := v]> l)) else Panicked
  end.

(** The loop [for i := range items { sources[i] = getSourceFromRecord(items[i]) }],
    from index [i] on. *)
Fixpoint convert (items : list Item) (i : nat) (sources : slice Source)
  : outcome (slice Source) :=
  match items with
  | [] => Returned sources
  | rec :: rest =>
    match getSourceFromRecord rec with
    | Returned v =>
      match store sources i v with
      | Returned sources' => convert rest (S i) sources'
      | Panicked => Panicked
      | Exited => Exited
      end
    | Panicked => Panicked
    | Exited => Exited
    end
  end.

Definition getAllHandler (e : Env) : Go (Response * error) :=
  '(svc, err) ← getDynamoDbService e;
  match err with
  | Some _ => mret (serverError "Failed to retrieve sources")
  | None =>
    result ← dynamodb.Scan e;
    match result with
    | inr _ => mret (serverError "Failed to retrieve sources")
    | inl items =>
      sources ← pure (convert items 0 (make (length items)));
      mret (ok (json.MarshalSources sources))
    end
  end.

Definition notFound : Response * error :=
  ({| StatusCode := 404; ResponseBody := errorBody "not found" |}, None).

Section Handlers.

Context {R : Type} `{Event R}.

Definition getHandler (e : Env) (req : R) : Go (Response * error) :=
  let id := index (pathParameters req) "id" in
  if (id =? "")%string then getAllHandler e
  else
    '(svc, err) ← getDynamoDbService e;
    match err with
    | Some _ => mret (serverError "Failed to retrieve source")
    | None =>
      result ← dynamodb.GetItem e {[ "id" := AttributeValueMemberS id ]};
      match result with
      | inr _ => mret (serverError "Failed to retrieve source")
      | inl None => mret notFound
      | inl (Some item) =>
        source ← pure (getSourceFromRecord item);
        mret (ok (json.MarshalSource source))
      end
    end.

Definition postHandler (e : Env) (req : R) : Go (Response * error) :=
  let source := fst (json.Unmarshal (body req) zeroSource) in
  '(svc, err) ← getDynamoDbService e;
  match err with
  | Some _ => mret (serverError "Failed to create source")
  | None =>
    u ← pure (uuid.New (entropy e));
    result ← dynamodb.PutItem e
      {[ "id" := AttributeValueMemberS (uuid.String u);
         "name" := AttributeValueMemberS (Name source);
         "url" := AttributeValueMemberS (Url source) ]};
    match result with
    | inr _ => mret (serverError "Failed to store source")
    | inl _ => mret (created (ID source))
    end
  end.

Definition putHandler (e : Env) (req : R) : Go (Response * error) :=
  let source := fst (json.Unmarshal (body req) zeroSource) in
  '(svc, err) ← getDynamoDbService e;
  match err with
  | Some _ => mret (serverError "Failed to update source")
  | None =>
    result ← dynamodb.PutItem e
      {[ "id" := AttributeValueMemberS (ID source);
         "name" := AttributeValueMemberS (Name source);
         "url" := AttributeValueMemberS (Url source) ]};
    match result with
    | inr _ => mret (serverError "Failed to store source")
    | inl _ => mret (ok (ID source))
    end
  end.

Definition deleteHandler (e : Env) (req : R) : Go (Response * error) :=
  let id := index (pathParameters req) "id" in
  if (id =? "")%string then getAllHandler e
  else
    '(svc, err) ← getDynamoDbService e;
    match err with
    | Some _ => mret (serverError "Failed to retrieve source")
    | None =>
      result ← dynamodb.DeleteItem e {[ "id" := AttributeValueMemberS id ]};
      match result with
      | inr _ => mret (serverError "Failed to delete source")
      | inl _ => mret (ok id)
      end
    end.

End Handlers.

(** *** The payload-v1 variant ([main.go]) *)

Module Legacy.

(** Modelled from the spec: the event type is declared in aws-lambda-go,
    outside the repository; these are the fields the handlers read:
    the method, the path parameters and the body. *)
Record APIGatewayProxyRequest := {
  HTTPMethod : string;
  PathParameters : gmap string string;
  Body : string
}.

#[global] Instance event : Event APIGatewayProxyRequest :=
  {| pathParameters := PathParameters; body := Body |}.

Definition handler (e : Env) (request : APIGatewayProxyRequest)
  : Go (Response * error) :=
  if (HTTPMethod request =? http.MethodGet)%string then getHandler e request
  else if (HTTPMethod request =? http.MethodPost)%string then postHandler e request
  else if (HTTPMethod request =? http.MethodPut)%string then putHandler e request
  else if (HTTPMethod request =? http.MethodDelete)%string then deleteHandler e request
  else mret ({| StatusCode := http.StatusMethodNotAllowed;
                ResponseBody := "unsupported http method" |}, None).

End Legacy.

(** *** The v2 variant, with the JWT authorizer *)

Module V2.

(** Modelled from the spec: the event types are declared in
    aws-lambda-go, outside the repository.  [Method] stands for
    [RequestContext.HTTP.Method] and [Authorizer] for
    [RequestContext.Authorizer].  The authorizer context and its [JWT]
    field are pointers: they are nil when the event carries none, and
    reading a field through a nil pointer panics.  [Claims] is a map; a
    nil map reads as the empty one. *)
Record APIGatewayV2HTTPRequestContextAuthorizerJWTDescription := {
  Claims : gmap string string
}.

Record APIGatewayV2HTTPRequestContextAuthorizerDescription := {
  JWT : option APIGatewayV2HTTPRequestContextAuthorizerJWTDescription
}.

Record APIGatewayV2HTTPRequest := {
  Method : string;
  Authorizer : option APIGatewayV2HTTPRequestContextAuthorizerDescription;
  PathParameters : gmap string string;
  Body : string
}.

#[global] Instance event : Event APIGatewayV2HTTPRequest :=
  {| pathParameters := PathParameters; body := Body |}.

Definition writeScope : string := "https://wordlist.gaul.tech/write".

Definition unauthorized : Response * error :=
  ({| StatusCode := http.StatusUnauthorized;
      ResponseBody := errorBody "Unauthorised" |}, None).

Definition notAllowed : Response * error :=
  ({| StatusCode := http.StatusMethodNotAllowed;
      ResponseBody := errorBody "Unsupported HTTP method" |}, None).

Definition handler (e : Env) (req : APIGatewayV2HTTPRequest)
  : Go (Response * error) :=
  if (Method req =? http.MethodGet)%string then getHandler e req
  else
    match Authorizer req with
    | None => pure Panicked
    | Some authorizer =>
      match JWT authorizer with
      | None => pure Panicked
      | Some jwt =>
        let scope := index (Claims jwt) "scope" in
        if negb (scope =? writeScope)%string then mret unauthorized
        else if (Method req =? http.MethodPost)%string then postHandler e req
        else if (Method req =? http.MethodPut)%string then putHandler e req
        else if (Method req =? http.MethodDelete)%string then deleteHandler e req
        else mret notAllowed
      end
    end.

End V2.

(** ** Vocabulary of the properties *)

(** The source a write handler decodes from the body. *)
Definition decoded {R : Type} `{Event R} (req : R) : Source :=
  fst (json.Unmarshal (body req) zeroSource).

(** The attribute [k] of [rec] is absent or is not a string attribute. *)
Definition notString (rec : Item) (k : string) : Prop :=
  forall v, rec !! k <> Some (AttributeValueMemberS v).

(** The requests a call sends that only read the table. *)
Definition isRead (c : Call) : bool :=
  match c with
  | ScanCall | GetItemCall _ => true
  | PutItemCall _ | DeleteItemCall _ => false
  end.

(** The key map and the item the handlers build. *)
Definition keyItem (id : string) : Item := {[ "id" := AttributeValueMemberS id ]}.

Definition sourceItem (id name url : string) : Item :=
  {[ "id" := AttributeValueMemberS id;
     "name" := AttributeValueMemberS name;
     "url" := AttributeValueMemberS url ]}.

(** The methods the routers know. *)
Definition supported (m : string) : bool :=
  (m =? http.MethodGet)%string || (m =? http.MethodPost)%string
  || (m =? http.MethodPut)%string || (m =? http.MethodDelete)%string.

(** The claim holds the write scope. *)
Definition mayWrite (claims : gmap string string) : bool :=
  (index claims "scope" =? V2.writeScope)%string.

(** The claims of the event, when it carries an authorizer context with a
    JWT. *)
Definition claimsOf (req : V2.APIGatewayV2HTTPRequest)
  : option (gmap string string) :=
  match V2.Authorizer req with
  | Some authorizer =>
    match V2.JWT authorizer with
    | Some jwt => Some (V2.Claims jwt)
    | None => None
    end
  | None => None
  end.

(** The event carries claims that hold the write scope. *)
Definition hasWriteScope (req : V2.APIGatewayV2HTTPRequest) : bool :=
  match claimsOf req with
  | Some claims => mayWrite claims
  | None => false
  end.

(** The authorizer context of an event whose JWT carries [claims]. *)
Definition jwtContext (claims : gmap string string)
  : option V2.APIGatewayV2HTTPRequestContextAuthorizerDescription :=
  Some {| V2.JWT := Some {| V2.Claims := claims |} |}.

(** The response of a run, when it returned one. *)
Definition response (r : outcome (Response * error) * World) : option Response :=
  match fst r with
  | Returned (resp, _) => Some resp
  | Panicked | Exited => None
  end.


(** [b] is a JSON object with the single key error and a string value. *)
Definition errorShaped (b : string) : bool :=
  match json.parse (bytes b) with
  | Some (json.Object [(k, json.Str _)]) => bool_decide (k = bytes "error")
  | _ => false
  end.



(** One invocation of the handler, and a sequence of them. *)
Definition invoke (w : World) (s : Env * V2.APIGatewayV2HTTPRequest) : World :=
  snd (V2.handler (fst s) (snd s) w).

Definition run (steps : list (Env * V2.APIGatewayV2HTTPRequest)) (w : World)
  : World :=
  fold_left invoke steps w.

(** The same for the payload-v1 handler. *)
Definition invokeLegacy (w : World) (s : Env * Legacy.APIGatewayProxyRequest)
  : World :=
  snd (Legacy.handler (fst s) (snd s) w).

Definition runLegacy (steps : list (Env * Legacy.APIGatewayProxyRequest))
  (w : World) : World :=
  fold_left invokeLegacy steps w.

(** Every record is stored under its id, and that id is not empty. *)
Definition nonEmptyIds (t : gmap string Item) : Prop :=
  forall k item, t !! k = Some item -> dynamodb.keyOf item = Some k /\ k <> "".

(** Bytes a string literal may hold unescaped. *)
Definition plain (b : N) : bool :=
  (32 <=? b)%N && negb (b =? 34)%N && negb (b =? 92)%N.

(** [lit] is the content of a well-formed literal: the scanner reads it up
    to the closing quote. *)
Definition closes (lit : list N) : Prop :=
  forall rest, json.scanString (lit ++ 34%N :: rest) = Some (lit, rest).

(** What the encoder writes for a string, and the value it parses to. *)
Definition literal (s : string) : list N :=
  json.appendString (length (bytes s)) (bytes s).

Definition stringValue (s : string) : json.Value :=
  json.Str (json.unquote (S (length (literal s))) (literal s)).

Definition sourceValue (v : Source) : json.Value :=
  json.Object [ (bytes "id", stringValue (ID v));
                (bytes "name", stringValue (Name v));
                (bytes "url", stringValue (Url v)) ].

Definition isByte (n : N) : Prop := (n < 256)%N.

(** What a successful call has read bounds the fuel it needs: two units
    per byte are enough. *)
Definition enough {A : Type}
  (p : nat -> N -> list N -> option (A * list N)) (f : nat) : Prop :=
  forall d s a rest,
    p f d s = Some (a, rest) ->
    (length rest < length s)%nat
    /\ forall f', (2 * (length s - length rest) <= f')%nat ->
                  p f' d s = Some (a, rest).

(** ** Sample inputs *)

Definition emptyWorld : World := {| table := ∅; calls := [] |}.

(** Nothing fails; the random source yields the bytes 1 to 16. *)
Definition calm : Env :=
  {| configFails := false; serviceFails := false;
     entropy := Some (map N.of_nat (seq 1 16)) |}.

(** The JSON object with the given string members. *)
Fixpoint members (l : list (string * string)) : string :=
  match l with
  | [] => ""
  | [(k, v)] => quoted k +:+ ":" +:+ quoted v
  | (k, v) :: rest => quoted k +:+ ":" +:+ quoted v +:+ "," +:+ members rest
  end.

Definition object (l : list (string * string)) : string :=
  "{" +:+ members l +:+ "}".

Definition rockyou : string :=
  object [("name", "rockyou"); ("url", "https://example.com/rockyou.txt")].

Definition rockyouWithId : string :=
  object [("id", "abc"); ("name", "rockyou");
          ("url", "https://example.com/rockyou.txt")].

Definition withScope : gmap string string := {[ "scope" := V2.writeScope ]}.

Definition pathId (id : string) : gmap string string := {[ "id" := id ]}.

(** An item whose name is a number attribute and whose url is absent. *)
Definition corruptItem : Item :=
  {[ "id" := AttributeValueMemberS "1"; "name" := AttributeValueMemberN "5" ]}.


(** A table with one record, and GET requests for it. *)
Definition oneRecord : World :=
  {| table := {[ "abc" := sourceItem "abc" "rockyou" "https://example.com/rockyou.txt" ]};
     calls := [] |}.

Definition getAbcLegacy : Legacy.APIGatewayProxyRequest :=
  {| Legacy.HTTPMethod := "GET"; Legacy.PathParameters := pathId "abc";
     Legacy.Body := "" |}.

Definition getAbc : V2.APIGatewayV2HTTPRequest :=
  {| V2.Method := "GET"; V2.Authorizer := None; V2.PathParameters := pathId "abc";
     V2.Body := "" |}.

(** A create request whose claims hold no scope, and one whose event has
    no authorizer context. *)
Definition postNoScope : V2.APIGatewayV2HTTPRequest :=
  {| V2.Method := "POST"; V2.Authorizer := jwtContext ∅; V2.PathParameters := ∅;
     V2.Body := rockyou |}.

Definition postNoAuthorizer : V2.APIGatewayV2HTTPRequest :=
  {| V2.Method := "POST"; V2.Authorizer := None; V2.PathParameters := ∅;
     V2.Body := rockyou |}.

Definition postLegacy : Legacy.APIGatewayProxyRequest :=
  {| Legacy.HTTPMethod := "POST"; Legacy.PathParameters := ∅;
     Legacy.Body := rockyou |}.

Definition patchLegacy : Legacy.APIGatewayProxyRequest :=
  {| Legacy.HTTPMethod := "PATCH"; Legacy.PathParameters := ∅;
     Legacy.Body := "" |}.

Definition patchNoScope : V2.APIGatewayV2HTTPRequest :=
  {| V2.Method := "PATCH"; V2.Authorizer := jwtContext ∅; V2.PathParameters := ∅;
     V2.Body := "" |}.

Definition patchNoAuthorizer : V2.APIGatewayV2HTTPRequest :=
  {| V2.Method := "PATCH"; V2.Authorizer := None; V2.PathParameters := ∅;
     V2.Body := "" |}.

Definition patchWithScope : V2.APIGatewayV2HTTPRequest :=
  {| V2.Method := "PATCH"; V2.Authorizer := jwtContext withScope; V2.PathParameters := ∅;
     V2.Body := "" |}.

Definition postWithScope : V2.APIGatewayV2HTTPRequest :=
  {| V2.Method := "POST"; V2.Authorizer := jwtContext withScope; V2.PathParameters := ∅;
     V2.Body := rockyou |}.


Definition deleteAbc : V2.APIGatewayV2HTTPRequest :=
  {| V2.Method := "DELETE"; V2.Authorizer := jwtContext withScope;
     V2.PathParameters := pathId "abc"; V2.Body := "" |}.

Definition putAbc : V2.APIGatewayV2HTTPRequest :=
  {| V2.Method := "PUT"; V2.Authorizer := jwtContext withScope; V2.PathParameters := ∅;
     V2.Body := rockyouWithId |}.

(** An update whose body has no id. *)
Definition putNoId : V2.APIGatewayV2HTTPRequest :=
  {| V2.Method := "PUT"; V2.Authorizer := jwtContext withScope; V2.PathParameters := ∅;
     V2.Body := rockyou |}.

(** A create, an update, a delete of the updated record, the update again. *)
Definition session : list (Env * V2.APIGatewayV2HTTPRequest) :=
  [ (calm, postWithScope); (calm, putAbc); (calm, deleteAbc); (calm, putAbc) ].

Definition postWithId : V2.APIGatewayV2HTTPRequest :=
  {| V2.Method := "POST"; V2.Authorizer := jwtContext withScope; V2.PathParameters := ∅;
     V2.Body := rockyouWithId |}.

Definition postWithIdLegacy : Legacy.APIGatewayProxyRequest :=
  {| Legacy.HTTPMethod := "POST"; Legacy.PathParameters := ∅;
     Legacy.Body := rockyouWithId |}.

(** ** Vocabulary of the codec properties *)

(** What the encoder writes for one byte below 0x80. *)
Definition asciiPiece (b : N) : list N :=
  if json.htmlSafe b then [b] else json.escapeByte b.

(** [f] holds of the [count] numbers from [start] on. *)
Fixpoint allFrom (f : N -> bool) (start : N) (count : nat) : bool :=
  match count with
  | O => true
  | S k => f start && allFrom f (N.succ start) k
  end.

(** Encoding the rune of a multi-byte sequence gives the sequence back. *)
Definition roundTrips (p : list N) : bool :=
  let '(c, size) := utf8.DecodeRune p in
  (size <? 2)%nat || bool_decide (utf8.EncodeRune c = take size p).

(** The encoding of the rune decodes as one rune of two bytes or more. *)
Definition decodable (x : N) : bool :=
  let p := utf8.EncodeRune x in
  let '(_, size) := utf8.DecodeRune p in
  (size =? length p)%nat && (2 <=? size)%nat.

(** The bits of a four-byte rune above its low twelve, from the first two
    bytes of its encoding. *)
Definition leadBits (p0 b1 : N) : N :=
  N.lor (N.shiftl (N.land p0 0x07) 6) (utf8.low6 b1).

(** The first two bytes of a four-byte encoding are those the encoder
    writes for their bits, which lie between 0x10 and 0x10F. *)
Definition fourByteLead (p0 b1 : N) : bool :=
  match utf8.lead p0 with
  | Some (sz, lo, hi) =>
    implb ((3 <? sz)%N && utf8.within lo hi b1)
      (let h := leadBits p0 b1 in
       (16 <=? h)%N && (h <=? 271)%N
       && (N.lor 0xF0 (N.shiftr h 6) =? p0)%N
       && (N.lor 0x80 (utf8.low6 h) =? b1)%N)
  | None => true
  end.

(** The first two bytes the encoder writes for the bits [k] above the low
    twelve start a four-byte encoding. *)
Definition fourByteHead (k : N) : bool :=
  let p0 := N.lor 0xF0 (N.shiftr k 6) in
  negb (p0 <? utf8.RuneSelf)%N
  && match utf8.lead p0 with
     | Some (sz, lo, hi) =>
       negb (sz <=? 3)%N && utf8.within lo hi (N.lor 0x80 (utf8.low6 k))
     | None => false
     end.

(** [utf8.Valid]: the bytes are a sequence of well-formed UTF-8 encodings. *)
Fixpoint validRunes (fuel : nat) (s : list N) : bool :=
  match fuel, s with
  | _, [] => true
  | O, _ :: _ => false
  | S fuel', b :: r =>
    if (b <? utf8.RuneSelf)%N then validRunes fuel' r
    else
      let '(_, size) := utf8.DecodeRune s in
      if (size <? 2)%nat then false else validRunes fuel' (drop size s)
  end.

Definition utf8Valid (s : string) : bool :=
  validRunes (length (bytes s)) (bytes s).

(** The three fields of the source are valid UTF-8. *)
Definition validSource (v : Source) : bool :=
  utf8Valid (ID v) && utf8Valid (Name v) && utf8Valid (Url v).

(** The bytes are a sequence of bytes below 0x80 and of well-formed
    encodings of two bytes or more. *)
Inductive wellEncoded : list N -> Prop :=
| wellEncoded_nil : wellEncoded []
| wellEncoded_ascii b r :
    (b < 128)%N -> wellEncoded r -> wellEncoded (b :: r)
| wellEncoded_rune b r c size :
    (128 <= b)%N -> utf8.DecodeRune (b :: r) = (c, size) -> (2 <= size)%nat ->
    wellEncoded (drop size (b :: r)) -> wellEncoded (b :: r).

(** The strings of a decoded value are well encoded: the value itself when
    it is a string, the values of its members when it is an object. *)
Definition strOk (v : json.Value) : Prop :=
  match v with
  | json.Str s => wellEncoded s
  | _ => True
  end.

Definition stringsOk (v : json.Value) : Prop :=
  match v with
  | json.Str s => wellEncoded s
  | json.Object ms => Forall (fun m => strOk m.2) ms
  | _ => True
  end.

Definition fieldsOk (v : Source) : Prop :=
  wellEncoded (bytes (ID v)) /\ wellEncoded (bytes (Name v))
  /\ wellEncoded (bytes (Url v)).

(** ** Vocabulary of the further properties *)

(** The configuration loads and the service answers. *)
Definition healthy (e : Env) : bool :=
  negb (configFails e) && negb (serviceFails e).

(** The source of a stored item; the zero source when the item has none. *)
Definition recordSource (rec : Item) : Source :=
  match getSourceFromRecord rec with
  | Returned v => v
  | Panicked | Exited => zeroSource
  end.

(** The item a write handler builds for a source. *)
Definition itemOf (v : Source) : Item := sourceItem (ID v) (Name v) (Url v).

(** The characters of the string form of a version-4 UUID: a lower-case
    hexadecimal digit, a dash, the version digit 4, and the variant digit,
    one of 8, 9, a and b. *)
Inductive class := Hex | Dash | Version | Variant.

Definition inClass (k : class) (c : N) : bool :=
  match k with
  | Hex => utf8.within 48 57 c || utf8.within 97 102 c
  | Dash => (c =? 45)%N
  | Version => (c =? 52)%N
  | Variant => (c =? 56)%N || (c =? 57)%N || (c =? 97)%N || (c =? 98)%N
  end.

(** xxxxxxxx-xxxx-4xxx-yxxx-xxxxxxxxxxxx *)
Definition uuidPattern : list class :=
  replicate 8 Hex ++ [Dash] ++ replicate 4 Hex ++ [Dash]
  ++ [Version] ++ replicate 3 Hex ++ [Dash]
  ++ [Variant] ++ replicate 3 Hex ++ [Dash] ++ replicate 12 Hex.

Fixpoint matches (p : list class) (s : list N) : bool :=
  match p, s with
  | [], [] => true
  | k :: p', c :: s' => inClass k c && matches p' s'
  | _, _ => false
  end.

Definition uuidShaped (s : string) : bool := matches uuidPattern (bytes s).

(** ** Further sample inputs *)

(** A GET for the record a create stores when the random bytes are 1 to 16. *)
Definition getCreated : V2.APIGatewayV2HTTPRequest :=
  {| V2.Method := "GET"; V2.Authorizer := None;
     V2.PathParameters := pathId "01020304-0506-4708-890a-0b0c0d0e0f10";
     V2.Body := "" |}.

(** A DELETE for the same record. *)
Definition deleteCreated : V2.APIGatewayV2HTTPRequest :=
  {| V2.Method := "DELETE"; V2.Authorizer := jwtContext withScope;
     V2.PathParameters := pathId "01020304-0506-4708-890a-0b0c0d0e0f10";
     V2.Body := "" |}.

(** The request [c] is one the method [m] may send: a GET reads, a POST
    or a PUT puts, a DELETE deletes or, without an id, scans. *)
Definition callFits (m : string) (c : Call) : bool :=
  match c with
  | ScanCall => (m =? http.MethodGet)%string || (m =? http.MethodDelete)%string
  | GetItemCall _ => (m =? http.MethodGet)%string
  | PutItemCall _ => (m =? http.MethodPost)%string || (m =? http.MethodPut)%string
  | DeleteItemCall _ => (m =? http.MethodDelete)%string
  end.

(** From [w] to [w'] at most one request was sent, one that fits [m]. *)
Definition sendsAtMostOne (m : string) (w w' : World) : Prop :=
  exists sent, calls w' = calls w ++ sent
               /\ (length sent <= 1)%nat
               /\ forallb (callFits m) sent = true.

(** From [w] to [w'] at most one key of the table changed. *)
Definition touchesAtMostOne (w w' : World) : Prop :=
  exists k, forall k', k' <> k -> table w' !! k' = table w !! k'.

(** The transport-level error of a run that returned. *)
Definition transportError (r : outcome (Response * error) * World) : option error :=
  match fst r with
  | Returned (_, err) => Some err
  | Panicked | Exited => None
  end.

(** The service is down. *)
Definition outage : Env :=
  {| configFails := false; serviceFails := true;
     entropy := Some (map N.of_nat (seq 1 16)) |}.

(** The configuration cannot be loaded. *)
Definition unconfigured : Env :=
  {| configFails := true; serviceFails := false;
     entropy := Some (map N.of_nat (seq 1 16)) |}.

(** A create request whose body is not JSON. *)
Definition notJson : V2.APIGatewayV2HTTPRequest :=
  {| V2.Method := "POST"; V2.Authorizer := jwtContext withScope; V2.PathParameters := ∅;
     V2.Body := "name=rockyou" |}.

(** Every record of the table is an item of the shape the write handlers
    build, stored under its own id. *)
Definition wellFormed (t : gmap string Item) : Prop :=
  forall k item, t !! k = Some item ->
                 exists name url, item = sourceItem k name url.

(** The sources of the stored records, in the order the scan yields them. *)
Definition storedSources (t : gmap string Item) : list Source :=
  map recordSource (map snd (map_to_list t)).

(** A table with a sound record and a corrupt one, and a GET for the
    corrupt one. *)
Definition corrupted : World :=
  {| table := <["1" := corruptItem]> (table oneRecord); calls := [] |}.

Definition getCorrupt : V2.APIGatewayV2HTTPRequest :=
  {| V2.Method := "GET"; V2.Authorizer := None; V2.PathParameters := pathId "1";
     V2.Body := "" |}.

(** A source whose name ends in a rune of two bytes (U+00E9), an update
    whose body is its encoding, and a GET for it. *)
Definition cafe : Source :=
  {| ID := "c1";
     Name := "caf" +:+ String "195"%char (String "169"%char EmptyString);
     Url := "https://example.com/cafe.txt" |}.

Definition putCafe : V2.APIGatewayV2HTTPRequest :=
  {| V2.Method := "PUT"; V2.Authorizer := jwtContext withScope; V2.PathParameters := ∅;
     V2.Body := json.MarshalSource cafe |}.

Definition getCafe : V2.APIGatewayV2HTTPRequest :=
  {| V2.Method := "GET"; V2.Authorizer := None; V2.PathParameters := pathId "c1";
     V2.Body := "" |}.

(** ** Reasoning about the handlers *)

Ltac unfold_go :=
  unfold getDynamoDbService in *;
  unfold mbind, Go_bind, mret, Go_ret, pure in *.

Lemma stringAttr_notString rec k : notString rec k -> stringAttr rec k = Panicked.
Proof.
  unfold notString, stringAttr. intros Hk.
  destruct (rec !! k) as [[]|] eqn:E; try reflexivity.
  exfalso. eapply Hk. reflexivity.
Qed.

Lemma stringAttr_cases rec k :
  stringAttr rec k = Panicked \/ exists v, stringAttr rec k = Returned v.
Proof.
  unfold stringAttr. destruct (rec !! k) as [[]|]; eauto.
Qed.

(** C9: an item in which one of id, name, url is absent or is not a string
    attribute makes the conversion panic: no [Source] is returned, with or
    without a default in the place of the field. *)
Theorem getSourceFromRecord_panics (rec : Item) :
  notString rec "id" \/ notString rec "name" \/ notString rec "url" ->
  getSourceFromRecord rec = Panicked
  /\ forall v, getSourceFromRecord rec <> Returned v.
Proof.
  intros Hmiss.
  assert (Hp : getSourceFromRecord rec = Panicked).
  { unfold getSourceFromRecord.
    destruct Hmiss as [Hm | [Hm | Hm]]; apply stringAttr_notString in Hm.
    - rewrite Hm. reflexivity.
    - rewrite Hm. destruct (stringAttr_cases rec "id") as [-> | [i ->]]; reflexivity.
    - rewrite Hm.
      destruct (stringAttr_cases rec "id") as [-> | [i ->]]; try reflexivity.
      destruct (stringAttr_cases rec "name") as [-> | [n ->]]; reflexivity. }
  split; [exact Hp | intros v; rewrite Hp; discriminate].
Qed.

Lemma getSourceFromRecord_panics_witness :
  notString corruptItem "name"
  /\ getSourceFromRecord corruptItem = Panicked.
Proof.
  assert (Hn : notString corruptItem "name").
  { intros v. vm_compute. discriminate. }
  split; [exact Hn |].
  apply (getSourceFromRecord_panics corruptItem). right. left. exact Hn.
Defined.

(** *** Listing *)

Lemma getAllHandler_world e w :
  snd (getAllHandler e w)
  = {| table := table w;
       calls := calls w ++ (if configFails e then [] else [ScanCall]) |}.
Proof.
  unfold getAllHandler, dynamodb.Scan, send. unfold_go.
  destruct w as [t cs].
  destruct (configFails e); simpl; [by rewrite app_nil_r |].
  destruct (serviceFails e); simpl; [reflexivity |].
  destruct (convert _ _ _); reflexivity.
Qed.

Lemma getAllHandler_empty e w :
  configFails e = false -> serviceFails e = false -> table w = ∅ ->
  getAllHandler e w = (Returned (ok "[]"), send ScanCall w).
Proof.
  intros Hc Hs Ht.
  unfold getAllHandler, dynamodb.Scan. unfold_go.
  rewrite Hc, Hs, Ht. simpl. rewrite map_to_list_empty. reflexivity.
Qed.


(** Where the routers send such a request: the payload-v1 handler always
    lists, the v2 handler lists when the scope allows the write. *)
Lemma delete_without_id_routed e w path claims data :
  index path "id" = "" ->
  Legacy.handler e {| Legacy.HTTPMethod := http.MethodDelete;
                      Legacy.PathParameters := path; Legacy.Body := data |} w
  = getAllHandler e w
  /\ (mayWrite claims = true ->
      V2.handler e {| V2.Method := http.MethodDelete;
                      V2.Authorizer := jwtContext claims;
                      V2.PathParameters := path; V2.Body := data |} w
      = getAllHandler e w).
Proof.
  intros Hid. unfold Legacy.handler, V2.handler, deleteHandler, mayWrite. simpl.
  rewrite Hid. split; [reflexivity |]. by intros ->.
Qed.


(** C7: a list request (GET without a path id) on a table without records,
    when the configuration loads and the scan succeeds, is answered with
    status 200 and the body [[]], in both variants; the body is not
    [null], which is what the nil slice would have encoded to. *)
Theorem list_of_empty_table_is_empty_array
  (e : Env) (w : World) (path : gmap string string)
  (authorizer : option V2.APIGatewayV2HTTPRequestContextAuthorizerDescription)
  (data : string) :
  configFails e = false -> serviceFails e = false -> table w = ∅ ->
  index path "id" = "" ->
  let legacy := {| Legacy.HTTPMethod := http.MethodGet;
                   Legacy.PathParameters := path; Legacy.Body := data |} in
  let v2 := {| V2.Method := http.MethodGet; V2.Authorizer := authorizer;
               V2.PathParameters := path; V2.Body := data |} in
  fst (Legacy.handler e legacy w)
    = Returned ({| StatusCode := 200; ResponseBody := "[]" |}, None)
  /\ fst (V2.handler e v2 w)
    = Returned ({| StatusCode := 200; ResponseBody := "[]" |}, None)
  /\ json.MarshalSources (make 0) = "[]"
  /\ json.MarshalSources nilSlice = "null".
Proof.
  intros Hc Hs Ht Hid legacy v2.
  unfold Legacy.handler, V2.handler, getHandler. simpl.
  rewrite Hid. simpl.
  rewrite (getAllHandler_empty e w Hc Hs Ht). auto.
Qed.

Lemma list_of_empty_table_is_empty_array_witness :
  fst (V2.handler calm
         {| V2.Method := "GET"; V2.Authorizer := None;
            V2.PathParameters := ∅; V2.Body := "" |} emptyWorld)
  = Returned ({| StatusCode := 200; ResponseBody := "[]" |}, None).
Proof.
  apply (list_of_empty_table_is_empty_array calm emptyWorld ∅ None "");
    reflexivity.
Defined.

(** *** The service calls of the handlers *)

Lemma keyOf_keyItem id : dynamodb.keyOf (keyItem id) = Some id.
Proof. unfold dynamodb.keyOf, keyItem. by rewrite lookup_singleton_eq. Qed.

Lemma keyOf_sourceItem id name url :
  dynamodb.keyOf (sourceItem id name url) = Some id.
Proof. unfold dynamodb.keyOf, sourceItem. by rewrite lookup_insert_eq. Qed.

Lemma validKey_keyItem id :
  dynamodb.validKey (keyItem id) = if (id =? "")%string then None else Some id.
Proof. unfold dynamodb.validKey. by rewrite keyOf_keyItem. Qed.

Lemma validKey_sourceItem id name url :
  dynamodb.validKey (sourceItem id name url)
  = if (id =? "")%string then None else Some id.
Proof. unfold dynamodb.validKey. by rewrite keyOf_sourceItem. Qed.

Lemma uuid_String_nonempty u : uuid.String u <> "".
Proof. unfold uuid.String, uuid.encodeHex, uuid.hexByte. simpl. discriminate. Qed.

Lemma GetItem_run e id w :
  (id =? "")%string = false ->
  dynamodb.GetItem e (keyItem id) w
  = (Returned (if serviceFails e then inr dynamodb.serviceError
               else inl (table w !! id)),
     send (GetItemCall (keyItem id)) w).
Proof.
  intros Hid. unfold dynamodb.GetItem. rewrite validKey_keyItem, Hid.
  by destruct (serviceFails e).
Qed.

(** A put is refused when the service fails or the key is empty. *)
Lemma PutItem_run e id name url w :
  dynamodb.PutItem e (sourceItem id name url) w
  = if serviceFails e || (id =? "")%string
    then (Returned (inr (if serviceFails e then dynamodb.serviceError
                         else dynamodb.validationError)),
          send (PutItemCall (sourceItem id name url)) w)
    else (Returned (inl tt),
          {| table := <[id := sourceItem id name url]> (table w);
             calls := calls w ++ [PutItemCall (sourceItem id name url)] |}).
Proof.
  unfold dynamodb.PutItem. rewrite validKey_sourceItem.
  destruct (serviceFails e); [reflexivity |].
  by destruct (id =? "")%string.
Qed.

Lemma DeleteItem_run e id w :
  (id =? "")%string = false ->
  dynamodb.DeleteItem e (keyItem id) w
  = if serviceFails e
    then (Returned (inr dynamodb.serviceError), send (DeleteItemCall (keyItem id)) w)
    else (Returned (inl tt),
          {| table := delete id (table w);
             calls := calls w ++ [DeleteItemCall (keyItem id)] |}).
Proof.
  intros Hid. unfold dynamodb.DeleteItem. rewrite validKey_keyItem, Hid.
  by destruct (serviceFails e).
Qed.

Section HandlerFacts.

Context {R : Type} `{Event R}.

Lemma getHandler_unfold e (req : R) w :
  getHandler e req w
  = let id := index (pathParameters req) "id" in
    if (id =? "")%string then getAllHandler e w
    else if configFails e then (Exited, w)
    else
      let w' := send (GetItemCall (keyItem id)) w in
      if serviceFails e
      then (Returned (serverError "Failed to retrieve source"), w')
      else match table w !! id with
      | None => (Returned notFound, w')
      | Some item =>
        match getSourceFromRecord item with
        | Returned source => (Returned (ok (json.MarshalSource source)), w')
        | Panicked => (Panicked, w')
        | Exited => (Exited, w')
        end
      end.
Proof.
  unfold getHandler. cbv zeta.
  destruct (index (pathParameters req) "id" =? "")%string eqn:Hid; [reflexivity |].
  unfold_go. destruct (configFails e); [reflexivity |].
  fold (keyItem (index (pathParameters req) "id")).
  rewrite GetItem_run by exact Hid.
  destruct (serviceFails e); [reflexivity |].
  destruct (table w !! _); [| reflexivity].
  destruct (getSourceFromRecord _); reflexivity.
Qed.

Lemma postHandler_unfold e (req : R) w :
  postHandler e req w
  = if configFails e then (Exited, w)
    else match uuid.New (entropy e) with
    | Panicked => (Panicked, w)
    | Exited => (Exited, w)
    | Returned u =>
      let item := sourceItem (uuid.String u) (Name (decoded req)) (Url (decoded req)) in
      if serviceFails e
      then (Returned (serverError "Failed to store source"), send (PutItemCall item) w)
      else (Returned (created (ID (decoded req))),
            {| table := <[uuid.String u := item]> (table w);
               calls := calls w ++ [PutItemCall item] |})
    end.
Proof.
  unfold postHandler, decoded. unfold_go.
  destruct (configFails e); [reflexivity |].
  destruct (uuid.New (entropy e)); try reflexivity.
  cbv zeta.
  match goal with
  | |- context [dynamodb.PutItem e ?i w] =>
    change i with (sourceItem (uuid.String a)
                     (Name (json.Unmarshal (body req) zeroSource).1)
                     (Url (json.Unmarshal (body req) zeroSource).1))
  end.
  rewrite PutItem_run.
  rewrite (proj2 (String.eqb_neq _ _) (uuid_String_nonempty a)), orb_false_r.
  destruct (serviceFails e); reflexivity.
Qed.

Lemma putHandler_unfold e (req : R) w :
  putHandler e req w
  = if configFails e then (Exited, w)
    else
      let src := decoded req in
      let item := sourceItem (ID src) (Name src) (Url src) in
      if serviceFails e || (ID src =? "")%string
      then (Returned (serverError "Failed to store source"), send (PutItemCall item) w)
      else (Returned (ok (ID src)),
            {| table := <[ID src := item]> (table w);
               calls := calls w ++ [PutItemCall item] |}).
Proof.
  unfold putHandler, decoded. unfold_go.
  destruct (configFails e); [reflexivity |].
  cbv zeta.
  match goal with
  | |- context [dynamodb.PutItem e ?i w] =>
    change i with (sourceItem (ID (json.Unmarshal (body req) zeroSource).1)
                     (Name (json.Unmarshal (body req) zeroSource).1)
                     (Url (json.Unmarshal (body req) zeroSource).1))
  end.
  rewrite PutItem_run.
  destruct (serviceFails e || (ID _ =? "")%string); reflexivity.
Qed.

Lemma deleteHandler_unfold e (req : R) w :
  deleteHandler e req w
  = let id := index (pathParameters req) "id" in
    if (id =? "")%string then getAllHandler e w
    else if configFails e then (Exited, w)
    else if serviceFails e
    then (Returned (serverError "Failed to delete source"),
          send (DeleteItemCall (keyItem id)) w)
    else (Returned (ok id),
          {| table := delete id (table w);
             calls := calls w ++ [DeleteItemCall (keyItem id)] |}).
Proof.
  unfold deleteHandler. cbv zeta.
  destruct (index (pathParameters req) "id" =? "")%string eqn:Hid; [reflexivity |].
  unfold_go. destruct (configFails e); [reflexivity |].
  fold (keyItem (index (pathParameters req) "id")).
  rewrite DeleteItem_run by exact Hid. destruct (serviceFails e); reflexivity.
Qed.

End HandlerFacts.

(** *** Reads *)

Lemma getHandler_reads {R : Type} `{Event R} e (req : R) w :
  table (snd (getHandler e req w)) = table w
  /\ exists sent, calls (snd (getHandler e req w)) = calls w ++ sent
                  /\ forallb isRead sent = true.
Proof.
  rewrite getHandler_unfold. cbv zeta.
  destruct (index (pathParameters req) "id" =? "")%string.
  { rewrite getAllHandler_world. split; [reflexivity |].
    eexists. split; [reflexivity |]. by destruct (configFails e). }
  destruct (configFails e).
  { split; [reflexivity |]. exists []. by rewrite app_nil_r. }
  assert (Hsent : forall o : outcome (Response * error),
    table (snd (o, send (GetItemCall (keyItem (index (pathParameters req) "id"))) w))
      = table w
    /\ exists sent,
        calls (snd (o, send (GetItemCall (keyItem (index (pathParameters req) "id"))) w))
          = calls w ++ sent
        /\ forallb isRead sent = true).
  { intros o. split; [reflexivity |]. eexists. split; reflexivity. }
  destruct (serviceFails e); [apply Hsent |].
  destruct (table w !! _); [| apply Hsent].
  destruct (getSourceFromRecord _); apply Hsent.
Qed.

(** C10: a GET request, with or without a path id, leaves the table as it
    was in both variants, and every request it sends to the service is a
    read (a get or a scan). *)
Theorem get_leaves_table_unchanged
  (e : Env) (w : World) (legacy : Legacy.APIGatewayProxyRequest)
  (v2 : V2.APIGatewayV2HTTPRequest) :
  Legacy.HTTPMethod legacy = http.MethodGet ->
  V2.Method v2 = http.MethodGet ->
  (table (snd (Legacy.handler e legacy w)) = table w
   /\ exists sent, calls (snd (Legacy.handler e legacy w)) = calls w ++ sent
                   /\ forallb isRead sent = true)
  /\ (table (snd (V2.handler e v2 w)) = table w
      /\ exists sent, calls (snd (V2.handler e v2 w)) = calls w ++ sent
                      /\ forallb isRead sent = true).
Proof.
  intros Hl Hv. unfold Legacy.handler, V2.handler. rewrite Hl, Hv.
  simpl. split; apply getHandler_reads.
Qed.

Lemma get_leaves_table_unchanged_witness :
  table (snd (Legacy.handler calm getAbcLegacy oneRecord)) = table oneRecord
  /\ table (snd (V2.handler calm getAbc oneRecord)) = table oneRecord.
Proof.
  destruct (get_leaves_table_unchanged calm oneRecord getAbcLegacy getAbc
              eq_refl eq_refl) as [[Hl _] [Hv _]].
  split; [exact Hl | exact Hv].
Defined.

(** *** The write gate *)

(** What the v2 router does with a request that is not a GET: it panics
    on an event without claims, and reads the scope otherwise. *)
Lemma V2_handler_no_claims e (req : V2.APIGatewayV2HTTPRequest) w :
  (V2.Method req =? http.MethodGet)%string = false ->
  claimsOf req = None ->
  V2.handler e req w = (Panicked, w).
Proof.
  unfold V2.handler, claimsOf. intros -> Hc.
  destruct (V2.Authorizer req) as [authorizer |]; [| reflexivity].
  destruct (V2.JWT authorizer); [discriminate | reflexivity].
Qed.

Lemma V2_handler_claims e (req : V2.APIGatewayV2HTTPRequest) w claims :
  (V2.Method req =? http.MethodGet)%string = false ->
  claimsOf req = Some claims ->
  V2.handler e req w
  = if negb (mayWrite claims) then (Returned V2.unauthorized, w)
    else if (V2.Method req =? http.MethodPost)%string then postHandler e req w
    else if (V2.Method req =? http.MethodPut)%string then putHandler e req w
    else if (V2.Method req =? http.MethodDelete)%string then deleteHandler e req w
    else (Returned V2.notAllowed, w).
Proof.
  unfold V2.handler, claimsOf, mayWrite. intros -> Hc.
  destruct (V2.Authorizer req) as [authorizer |]; [| discriminate].
  destruct (V2.JWT authorizer) as [j |]; [| discriminate].
  injection Hc as <-. cbv zeta.
  destruct (negb _); [reflexivity |].
  repeat (destruct (V2.Method req =? _)%string; [reflexivity |]).
  reflexivity.
Qed.

Lemma hasWriteScope_claims req :
  hasWriteScope req = true ->
  exists claims, claimsOf req = Some claims /\ mayWrite claims = true.
Proof.
  unfold hasWriteScope. destruct (claimsOf req) as [claims |]; [| discriminate].
  eauto.
Qed.

(** C2, as the code has it: in the v2 variant a request that is not
    a GET and whose claims lack a scope equal to the write scope is
    answered 401 with the error body (the object with the single key
    error), the world untouched: the table is the same and no request is
    sent to the service.  When the event of such a request carries no
    authorizer context, or one without a JWT, there are no claims to
    read: the handler panics on the nil pointer, with no response and the
    world untouched.  A GET goes to [getHandler] whatever the authorizer
    context is.  (The payload-v1 variant has no such check.) *)
Theorem write_gate_v2
  (e : Env) (req : V2.APIGatewayV2HTTPRequest) (w : World) :
  if (V2.Method req =? http.MethodGet)%string
  then V2.handler e req w = getHandler e req w
  else match claimsOf req with
       | None => V2.handler e req w = (Panicked, w)
       | Some claims =>
         mayWrite claims = false ->
         V2.handler e req w
         = (Returned ({| StatusCode := 401;
                         ResponseBody := errorBody "Unauthorised" |}, None), w)
         /\ errorShaped (errorBody "Unauthorised") = true
         /\ calls (snd (V2.handler e req w)) = calls w
         /\ table (snd (V2.handler e req w)) = table w
       end.
Proof.
  destruct (V2.Method req =? http.MethodGet)%string eqn:Hm.
  - unfold V2.handler. by rewrite Hm.
  - destruct (claimsOf req) as [claims |] eqn:Hc.
    + intros Hs. rewrite (V2_handler_claims e req w claims Hm Hc), Hs. auto.
    + by apply V2_handler_no_claims.
Qed.

Lemma write_gate_v2_witness :
  claimsOf postNoScope = Some ∅
  /\ mayWrite ∅ = false
  /\ V2.handler calm postNoScope emptyWorld
     = (Returned ({| StatusCode := 401;
                     ResponseBody := errorBody "Unauthorised" |}, None),
        emptyWorld)
  /\ claimsOf postNoAuthorizer = None
  /\ V2.handler calm postNoAuthorizer emptyWorld = (Panicked, emptyWorld).
Proof.
  assert (Hs : mayWrite ∅ = false) by reflexivity.
  split; [reflexivity |]. split; [exact Hs |]. split.
  - exact (proj1 (write_gate_v2 calm postNoScope emptyWorld Hs)).
  - split; [reflexivity |]. exact (write_gate_v2 calm postNoAuthorizer emptyWorld).
Defined.

(** C2 fails on the payload-v1 variant: the same create request, which
    carries no scope claim at all, is answered 201 and a put is sent to
    the service. *)
Lemma legacy_writes_without_scope :
  Legacy.HTTPMethod postLegacy <> http.MethodGet
  /\ response (Legacy.handler calm postLegacy emptyWorld)
     = Some {| StatusCode := 201; ResponseBody := "" |}
  /\ calls (snd (Legacy.handler calm postLegacy emptyWorld))
     = [ PutItemCall (sourceItem "01020304-0506-4708-890a-0b0c0d0e0f10"
                        "rockyou" "https://example.com/rockyou.txt") ]
  /\ dom (table (snd (Legacy.handler calm postLegacy emptyWorld)))
     = {[ "01020304-0506-4708-890a-0b0c0d0e0f10" ]}.
Proof. split; [discriminate |]. repeat apply conj; reflexivity. Qed.

(** *** Unsupported methods *)

Lemma supported_false m :
  supported m = false ->
  (m =? http.MethodGet)%string = false /\ (m =? http.MethodPost)%string = false
  /\ (m =? http.MethodPut)%string = false /\ (m =? http.MethodDelete)%string = false.
Proof.
  unfold supported. intros Hm.
  repeat (apply orb_false_iff in Hm; destruct Hm as [Hm ?]). auto.
Qed.

(** C4, as the code has it: a request whose method is none of GET, POST,
    PUT, DELETE is answered 405 by the payload-v1 variant whatever it
    carries; the v2 variant reads the scope first: it panics when the
    event carries no claims, answers 401 when the claims lack the write
    scope, and 405 only when they hold it.  Neither touches the table. *)
Theorem unsupported_method_response
  (e : Env) (w : World) (legacy : Legacy.APIGatewayProxyRequest)
  (v2 : V2.APIGatewayV2HTTPRequest) :
  supported (Legacy.HTTPMethod legacy) = false ->
  supported (V2.Method v2) = false ->
  Legacy.handler e legacy w
  = (Returned ({| StatusCode := 405;
                  ResponseBody := "unsupported http method" |}, None), w)
  /\ V2.handler e v2 w
     = match claimsOf v2 with
       | None => (Panicked, w)
       | Some claims =>
         (Returned ({| StatusCode := if mayWrite claims then 405 else 401;
                       ResponseBody :=
                         errorBody (if mayWrite claims
                                    then "Unsupported HTTP method"
                                    else "Unauthorised") |}, None), w)
       end.
Proof.
  intros Hl Hv.
  apply supported_false in Hl as (Hl1 & Hl2 & Hl3 & Hl4).
  apply supported_false in Hv as (Hv1 & Hv2 & Hv3 & Hv4).
  split.
  - unfold Legacy.handler. by rewrite Hl1, Hl2, Hl3, Hl4.
  - destruct (claimsOf v2) as [claims |] eqn:Hc.
    + rewrite (V2_handler_claims e v2 w claims Hv1 Hc), Hv2, Hv3, Hv4.
      by destruct (mayWrite claims).
    + by apply V2_handler_no_claims.
Qed.

Lemma unsupported_method_response_witness :
  supported "PATCH" = false
  /\ fst (Legacy.handler calm patchLegacy emptyWorld)
     = Returned ({| StatusCode := 405;
                    ResponseBody := "unsupported http method" |}, None)
  /\ fst (V2.handler calm patchWithScope emptyWorld)
     = Returned ({| StatusCode := 405;
                    ResponseBody := errorBody "Unsupported HTTP method" |}, None)
  /\ fst (V2.handler calm patchNoAuthorizer emptyWorld) = Panicked.
Proof.
  destruct (unsupported_method_response calm emptyWorld patchLegacy patchWithScope
              eq_refl eq_refl) as [Hl Hv].
  destruct (unsupported_method_response calm emptyWorld patchLegacy
              patchNoAuthorizer eq_refl eq_refl) as [_ Hp].
  split; [reflexivity |].
  split; [by rewrite Hl |]. split; [by rewrite Hv | by rewrite Hp].
Defined.

(** C4 fails on the v2 variant: a PATCH whose claims hold no scope is
    answered 401, not 405, and a PATCH whose event has no authorizer
    context gets no response at all. *)
Lemma patch_without_scope_is_401 :
  supported (V2.Method patchNoScope) = false
  /\ fst (V2.handler calm patchNoScope emptyWorld)
     = Returned ({| StatusCode := 401;
                    ResponseBody := errorBody "Unauthorised" |}, None)
  /\ supported (V2.Method patchNoAuthorizer) = false
  /\ fst (V2.handler calm patchNoAuthorizer emptyWorld) = Panicked.
Proof. repeat apply conj; reflexivity. Qed.

(** *** The two variants side by side *)

Section SameInputs.

Context {R1 R2 : Type} `{Event R1} `{Event R2}.
Variables (r1 : R1) (r2 : R2).
Hypothesis same_id :
  index (pathParameters r1) "id" = index (pathParameters r2) "id".
Hypothesis same_body : body r1 = body r2.





End SameInputs.




(** *** The fuel of the parser *)

Lemma skipSpace_length s : (length (json.skipSpace s) <= length s)%nat.
Proof.
  induction s as [| c s IH]; [reflexivity |].
  simpl. destruct (json.isSpace c); simpl; lia.
Qed.

Lemma skipSpace_cons s c r :
  json.skipSpace s = c :: r -> (length r < length s)%nat.
Proof.
  intros Hs. pose proof (skipSpace_length s) as Hlen.
  rewrite Hs in Hlen. simpl in Hlen. lia.
Qed.

Lemma scanString_length s lit rest :
  json.scanString s = Some (lit, rest) -> (length rest < length s)%nat.
Proof.
  remember (length s) as n eqn:Hn.
  assert (Hle : (length s <= n)%nat) by lia. clear Hn.
  revert s lit rest Hle.
  induction n as [| n IH]; intros s lit rest Hle Hs.
  { destruct s; [discriminate | simpl in Hle; lia]. }
  destruct s as [| c r]; [discriminate |].
  simpl in Hle. cbn [json.scanString] in Hs.
  destruct (c =? 34)%N; [simplify_eq; simpl; lia |].
  destruct (c <? 32)%N; [discriminate |].
  destruct (c =? 92)%N.
  - destruct r as [| e r1]; [discriminate |].
    destruct (e =? 117)%N.
    + destruct r1 as [| h1 [| h2 [| h3 [| h4 r2]]]]; try discriminate.
      destruct (json.hex4 h1 h2 h3 h4); [| discriminate].
      destruct (json.scanString r2) as [[l rest'] |] eqn:Hr; [| discriminate].
      simplify_eq. apply IH in Hr; simpl in *; lia.
    + destruct (json.escape e); [| discriminate].
      destruct (json.scanString r1) as [[l rest'] |] eqn:Hr; [| discriminate].
      simplify_eq. apply IH in Hr; simpl in *; lia.
  - destruct (json.scanString r) as [[l rest'] |] eqn:Hr; [| discriminate].
    simplify_eq. apply IH in Hr; simpl in *; lia.
Qed.

Lemma scanDigits_length s d rest :
  json.scanDigits s = (d, rest) ->
  (length rest <= length s)%nat /\ (d <> [] -> (length rest < length s)%nat).
Proof.
  revert d rest. induction s as [| c s IH]; intros d rest Hs.
  - simpl in Hs. simplify_eq. split; [reflexivity | congruence].
  - cbn [json.scanDigits] in Hs. destruct (json.isDigit c).
    + destruct (json.scanDigits s) as [d' rest'] eqn:Hd. simplify_eq.
      destruct (IH _ _ eq_refl) as [Hle _]. simpl. split; intros; lia.
    + simplify_eq. split; [reflexivity | congruence].
Qed.

Lemma scanDigits1_length s d rest :
  json.scanDigits1 s = Some (d, rest) -> (length rest < length s)%nat.
Proof.
  unfold json.scanDigits1.
  destruct (json.scanDigits s) as [d' rest'] eqn:Hd.
  destruct d' as [| x d']; [discriminate |].
  intros Hs. simplify_eq. by apply (scanDigits_length _ _ _ Hd).
Qed.

Lemma scanNumber_length s lit rest :
  json.scanNumber s = Some (lit, rest) -> (length rest < length s)%nat.
Proof.
  unfold json.scanNumber. intros Hs.
  repeat match goal with
  | H : context [match ?x with _ => _ end] |- _ =>
    lazymatch x with
    | context [match _ with _ => _ end] => fail
    | _ => destruct x eqn:?; try discriminate
    end
  | H : (_, _) = (_, _) |- _ => injection H as ? ?; subst
  | H : Some _ = Some _ |- _ => injection H as ?; subst
  | H : json.scanDigits1 _ = Some _ |- _ => apply scanDigits1_length in H
  end; simpl in *; lia.
Qed.

Lemma stripPrefix_length p s rest :
  json.stripPrefix p s = Some rest -> (length rest <= length s)%nat.
Proof.
  revert s. induction p as [| a p IH]; intros s Hs.
  - simpl in Hs. by simplify_eq.
  - destruct s as [| b s]; [discriminate |]. simpl in Hs.
    destruct (a =? b)%N; [| discriminate]. apply IH in Hs. simpl. lia.
Qed.

Ltac len H :=
  first [ pose proof (skipSpace_cons _ _ _ H)
        | pose proof (scanString_length _ _ _ H)
        | pose proof (scanNumber_length _ _ _ H)
        | pose proof (stripPrefix_length _ _ _ H) ].

Ltac length_facts :=
  repeat match goal with
  | H : json.scanString _ = Some _ |- _ => apply scanString_length in H
  | H : json.scanNumber _ = Some _ |- _ => apply scanNumber_length in H
  | H : json.stripPrefix _ _ = Some _ |- _ => apply stripPrefix_length in H
  end.

Lemma parse_fuel f :
  enough json.parseValue f /\ enough json.parseElems f /\ enough json.parseMembers f.
Proof.
  induction f as [| f (IHv & IHe & IHm)].
  { repeat split; intros; discriminate. }
  split; [| split]; intros d s a rest Hp.
  - (* a value *)
    cbn [json.parseValue] in Hp.
    destruct (json.skipSpace s) as [| c r] eqn:Hs; [discriminate |].
    len Hs.
    assert (Hgoal : forall P : Prop,
      ((length rest < length s)%nat ->
       (forall f', (2 * (length s - length rest) <= S f')%nat ->
                   json.parseValue (S f') d s = Some (a, rest)) -> P) -> P).
    2: { apply Hgoal. intros Hlen Hfuel. split; [exact Hlen |].
         intros [| f'] Hf'; [lia | by apply Hfuel]. }
    intros P HP.
    destruct (c =? 123)%N eqn:E1.
    { destruct (json.maxNestingDepth <? d + 1)%N eqn:Ed; [discriminate |].
      destruct (json.skipSpace r) as [| c2 r2] eqn:Hr; [discriminate |].
      len Hr.
      destruct (c2 =? 125)%N eqn:E2.
      - simplify_eq.
        apply HP; [lia |]. intros f' Hf'. cbn [json.parseValue].
        by rewrite Hs, E1, Ed, Hr, E2.
      - destruct (json.parseMembers f (d + 1) r) as [[ms rest'] |] eqn:Hm;
          [| discriminate].
        simplify_eq. apply IHm in Hm as [Hlen Hfuel].
        apply HP; [lia |]. intros f' Hf'. cbn [json.parseValue].
        rewrite Hs, E1, Ed, Hr, E2, Hfuel by lia. reflexivity. }
    destruct (c =? 91)%N eqn:E3.
    { destruct (json.maxNestingDepth <? d + 1)%N eqn:Ed; [discriminate |].
      destruct (json.skipSpace r) as [| c2 r2] eqn:Hr; [discriminate |].
      len Hr.
      destruct (c2 =? 93)%N eqn:E2.
      - simplify_eq.
        apply HP; [lia |]. intros f' Hf'. cbn [json.parseValue].
        by rewrite Hs, E1, E3, Ed, Hr, E2.
      - destruct (json.parseElems f (d + 1) r) as [[vs rest'] |] eqn:Hm;
          [| discriminate].
        simplify_eq. apply IHe in Hm as [Hlen Hfuel].
        apply HP; [lia |]. intros f' Hf'. cbn [json.parseValue].
        rewrite Hs, E1, E3, Ed, Hr, E2, Hfuel by lia. reflexivity. }
    (* the scalars are read by helpers that take no fuel *)
    assert (Hsame : forall f', json.parseValue (S f') d s = Some (a, rest)).
    { intros f'. cbn [json.parseValue]. by rewrite Hs, E1, E3. }
    apply HP; [| by intros f' _].
    clear Hsame.
    repeat match goal with
    | H : context [if ?b then _ else _] |- _ => destruct b eqn:?
    | H : context [match ?x with _ => _ end] |- _ =>
      destruct x as [[]|] eqn:?; try discriminate
    end; simplify_eq; length_facts; simpl in *; lia.
  - (* the elements of an array *)
    cbn [json.parseElems] in Hp.
    destruct (json.parseValue f d s) as [[v r] |] eqn:Hv; [| discriminate].
    destruct (json.skipSpace r) as [| c r'] eqn:Hr; [discriminate |].
    apply IHv in Hv as [Hlen Hfuel]. len Hr.
    destruct (c =? 44)%N eqn:E1.
    + destruct (json.parseElems f d r') as [[vs rest'] |] eqn:He; [| discriminate].
      simplify_eq. apply IHe in He as [Hlen2 Hfuel2].
      split; [lia |]. intros [| f'] Hf'; [lia |]. cbn [json.parseElems].
      rewrite Hfuel, Hr, E1, Hfuel2 by lia. reflexivity.
    + destruct (c =? 93)%N eqn:E2; [| discriminate]. simplify_eq.
      split; [lia |]. intros [| f'] Hf'; [lia |]. cbn [json.parseElems].
      rewrite Hfuel, Hr, E1, E2 by lia. reflexivity.
  - (* the members of an object *)
    cbn [json.parseMembers] in Hp.
    destruct (json.skipSpace s) as [| q r] eqn:Hs; [discriminate |].
    destruct (negb (q =? 34)%N) eqn:Eq; [discriminate |].
    destruct (json.scanString r) as [[lit r1] |] eqn:Hk; [| discriminate].
    cbv zeta in Hp.
    destruct (json.skipSpace r1) as [| c1 r2] eqn:Hr1; [discriminate |].
    destruct (negb (c1 =? 58)%N) eqn:Ec; [discriminate |].
    destruct (json.parseValue f d r2) as [[v r3] |] eqn:Hv; [| discriminate].
    destruct (json.skipSpace r3) as [| c3 r4] eqn:Hr3; [discriminate |].
    apply IHv in Hv as [Hlen Hfuel].
    len Hs. len Hk. len Hr1. len Hr3.
    destruct (c3 =? 44)%N eqn:E1.
    + destruct (json.parseMembers f d r4) as [[ms rest'] |] eqn:Hm; [| discriminate].
      simplify_eq. apply IHm in Hm as [Hlen2 Hfuel2].
      split; [lia |]. intros [| f'] Hf'; [lia |]. cbn [json.parseMembers].
      rewrite Hs, Eq, Hk, Hr1, Ec, Hfuel, Hr3, E1, Hfuel2 by lia. reflexivity.
    + destruct (c3 =? 125)%N eqn:E2; [| discriminate]. simplify_eq.
      split; [lia |]. intros [| f'] Hf'; [lia |]. cbn [json.parseMembers].
      rewrite Hs, Eq, Hk, Hr1, Ec, Hfuel, Hr3, E1, E2 by lia. reflexivity.
Qed.

(** The fuel [parse] starts with is never what makes it fail: a value read
    with any fuel is read by [parse]. *)
Lemma parse_complete f data v rest :
  json.parseValue f 0 data = Some (v, rest) -> json.skipSpace rest = [] ->
  json.parse data = Some v.
Proof.
  intros Hv Hrest. destruct (parse_fuel f) as (Hval & _ & _).
  apply Hval in Hv as [_ Hfuel]. unfold json.parse.
  rewrite Hfuel by lia. by rewrite Hrest.
Qed.

Lemma DecodeRune_size p : (1 <= (utf8.DecodeRune p).2)%nat \/ p = [].
Proof.
  destruct p as [| p0 t]; [by right |]. left.
  unfold utf8.DecodeRune.
  repeat match goal with
  | |- context [if ?c then _ else _] => destruct c
  | |- context [match ?x with _ => _ end] => destruct x
  end; simpl; lia.
Qed.

(** The fuel of [unquote] and of [appendString] is enough: each step reads
    a byte at least. *)
Lemma unquote_fuel f f' s :
  (length s < f)%nat -> (length s < f')%nat -> json.unquote f s = json.unquote f' s.
Proof.
  revert f' s. induction f as [| f IH]; intros f' s Hf Hf'; [lia |].
  destruct f' as [| f']; [lia |].
  destruct s as [| c r]; [reflexivity |].
  cbn [json.unquote]. cbn [length] in Hf, Hf'.
  destruct (c =? 92)%N.
  - destruct r as [| e r1]; [reflexivity |]. cbn [length] in Hf, Hf'.
    destruct (e =? 117)%N.
    + destruct (json.getu4 _); [| reflexivity].
      pose proof (length_drop r1 4). pose proof (length_drop (drop 4 r1) 6).
      repeat match goal with
      | |- context [if ?b then _ else _] => destruct b
      | |- context [match ?x with _ => _ end] => destruct x
      end; f_equal; apply IH; lia.
    + destruct (json.escape e); [| reflexivity]. f_equal. apply IH; lia.
  - destruct (c <? utf8.RuneSelf)%N; [f_equal; apply IH; lia |].
    destruct (utf8.DecodeRune (c :: r)) as [rr size] eqn:Hd.
    destruct (DecodeRune_size (c :: r)) as [Hsize | ?]; [| discriminate].
    rewrite Hd in Hsize. simpl in Hsize.
    pose proof (length_drop (c :: r) size). cbn [length] in *.
    f_equal. apply IH; lia.
Qed.

Lemma appendString_fuel f f' src :
  (length src <= f)%nat -> (length src <= f')%nat ->
  json.appendString f src = json.appendString f' src.
Proof.
  revert f' src. induction f as [| f IH]; intros f' src Hf Hf'.
  { destruct src; [by destruct f' | simpl in Hf; lia]. }
  destruct src as [| b r]; [by destruct f' |].
  destruct f' as [| f']; [simpl in Hf'; lia |].
  cbn [json.appendString]. cbn [length] in Hf, Hf'.
  destruct (b <? utf8.RuneSelf)%N; [f_equal; apply IH; lia |].
  destruct (utf8.DecodeRune (take 4 (b :: r))) as [c size] eqn:Hd.
  destruct (DecodeRune_size (take 4 (b :: r))) as [Hsize | ?]; [| discriminate].
  rewrite Hd in Hsize. simpl in Hsize.
  pose proof (length_drop (b :: r) size). cbn [length] in *.
  repeat match goal with
  | |- context [if ?c then _ else _] => destruct c
  end; first [ f_equal; apply IH; lia | do 2 f_equal; apply IH; lia ].
Qed.

(** *** The encoder writes valid JSON *)

Lemma bytes_lt s : Forall (fun n => (n < 256)%N) (bytes s).
Proof.
  unfold bytes. induction s as [| a s IH]; simpl; constructor; [apply N_ascii_bounded | exact IH].
Qed.

Lemma bytes_str l : Forall (fun n => (n < 256)%N) l -> bytes (str l) = l.
Proof.
  unfold bytes, str. rewrite list_ascii_of_string_of_list_ascii.
  induction 1 as [| n l Hn _ IH]; simpl; [reflexivity |].
  rewrite N_ascii_embedding by exact Hn. by rewrite IH.
Qed.

Lemma closes_nil : closes [].
Proof. intros rest. reflexivity. Qed.

Lemma closes_plain b lit : plain b = true -> closes lit -> closes (b :: lit).
Proof.
  unfold plain. intros Hb Hlit rest.
  apply andb_true_iff in Hb as [Hb H92]. apply andb_true_iff in Hb as [H32 H34].
  apply negb_true_iff in H92, H34. apply N.leb_le in H32.
  simpl. rewrite H34, H92, Hlit.
  destruct (b <? 32)%N eqn:Hlt; [apply N.ltb_lt in Hlt; lia | reflexivity].
Qed.

Lemma closes_plain_app pre lit :
  forallb plain pre = true -> closes lit -> closes (pre ++ lit).
Proof.
  induction pre as [| b pre IH]; intros Hpre Hlit; [exact Hlit |].
  simpl in Hpre. apply andb_true_iff in Hpre as [Hb Hpre].
  simpl. apply closes_plain; [exact Hb | by apply IH].
Qed.

Lemma closes_escape e x lit :
  (e =? 117)%N = false -> json.escape e = Some x -> closes lit ->
  closes (92%N :: e :: lit).
Proof.
  intros He Hx Hlit rest.
  change (json.scanString ((92%N :: e :: lit) ++ 34%N :: rest))
    with (if (e =? 117)%N
          then match lit ++ 34%N :: rest with
               | h1 :: h2 :: h3 :: h4 :: r2 =>
                 match json.hex4 h1 h2 h3 h4 with
                 | Some _ =>
                   match json.scanString r2 with
                   | Some (l, rest) => Some (92%N :: e :: h1 :: h2 :: h3 :: h4 :: l, rest)
                   | None => None
                   end
                 | None => None
                 end
               | _ => None
               end
          else match json.escape e with
               | Some _ =>
                 match json.scanString (lit ++ 34%N :: rest) with
                 | Some (l, rest) => Some (92%N :: e :: l, rest)
                 | None => None
                 end
               | None => None
               end).
  by rewrite He, Hx, Hlit.
Qed.

Lemma closes_unicode h1 h2 h3 h4 x lit :
  json.hex4 h1 h2 h3 h4 = Some x -> closes lit ->
  closes (92%N :: 117%N :: h1 :: h2 :: h3 :: h4 :: lit).
Proof.
  intros Hx Hlit rest.
  change (json.scanString ((92%N :: 117%N :: h1 :: h2 :: h3 :: h4 :: lit) ++ 34%N :: rest))
    with (match json.hex4 h1 h2 h3 h4 with
          | Some _ =>
            match json.scanString (lit ++ 34%N :: rest) with
            | Some (l, rest) => Some (92%N :: 117%N :: h1 :: h2 :: h3 :: h4 :: l, rest)
            | None => None
            end
          | None => None
          end).
  by rewrite Hx, Hlit.
Qed.

Lemma hexVal_hexDigit n : (n < 16)%N -> json.hexVal (json.hexDigit n) = Some n.
Proof.
  intros Hn.
  assert (Hcases : n ∈ map N.of_nat (seq 0 16)).
  { apply list_elem_of_fmap. exists (N.to_nat n). split; [lia |].
    apply elem_of_seq. lia. }
  simpl in Hcases.
  repeat (apply elem_of_cons in Hcases as [-> | Hcases]; [reflexivity |]).
  by apply elem_of_nil in Hcases.
Qed.

Lemma hex4_00 hi lo :
  (hi < 16)%N -> (lo < 16)%N ->
  exists x, json.hex4 48 48 (json.hexDigit hi) (json.hexDigit lo) = Some x.
Proof.
  intros Hhi Hlo. unfold json.hex4.
  rewrite (hexVal_hexDigit hi Hhi), (hexVal_hexDigit lo Hlo). simpl. eauto.
Qed.

Lemma shiftr4_lt b : (b < 128)%N -> (N.shiftr b 4 < 16)%N.
Proof.
  intros Hb. rewrite N.shiftr_div_pow2. change (2 ^ 4)%N with 16%N.
  apply N.Div0.div_lt_upper_bound. lia.
Qed.

Lemma land15_lt b : (N.land b 15 < 16)%N.
Proof.
  change 15%N with (N.ones 4). rewrite N.land_ones. change (2 ^ 4)%N with 16%N.
  apply N.mod_lt. lia.
Qed.

Lemma closes_escapeByte b lit :
  (b < 128)%N -> closes lit -> closes (json.escapeByte b ++ lit).
Proof.
  intros Hb Hlit. unfold json.escapeByte.
  destruct ((b =? 92)%N || (b =? 34)%N) eqn:Hq.
  { apply orb_true_iff in Hq as [Hq | Hq]; apply N.eqb_eq in Hq; subst b;
      by eapply closes_escape. }
  repeat match goal with
  | |- context [if (b =? ?c)%N then _ else _] =>
    destruct (b =? c)%N; [by eapply closes_escape |]
  end.
  destruct (hex4_00 (N.shiftr b 4) (N.land b 15)) as [x Hx];
    [by apply shiftr4_lt | apply land15_lt |].
  by eapply closes_unicode.
Qed.

Lemma lead_lo p0 sz lo hi : utf8.lead p0 = Some (sz, lo, hi) -> (128 <= lo)%N.
Proof.
  unfold utf8.lead.
  repeat match goal with
  | |- context [if ?c then _ else _] => destruct c
  end; intros Hl; simplify_eq; lia.
Qed.

Lemma within_lo lo hi b : utf8.within lo hi b = true -> (lo <= b)%N.
Proof. unfold utf8.within. intros Hw. apply andb_true_iff in Hw as [Hw _]. by apply N.leb_le. Qed.

(** A multi-byte rune is made of bytes from 0x80 up. *)
Lemma DecodeRune_high b t c size :
  (128 <= b)%N ->
  utf8.DecodeRune (take 4 (b :: t)) = (c, size) ->
  (c = utf8.RuneError /\ size = 1%nat)
  \/ ((2 <= size)%nat /\ Forall (fun x => (128 <= x)%N) (take size (b :: t))).
Proof.
  intros Hb. unfold utf8.DecodeRune.
  destruct (b <? utf8.RuneSelf)%N eqn:Hself.
  { apply N.ltb_lt in Hself. unfold utf8.RuneSelf in Hself. lia. }
  cbn [take]. rewrite Hself.
  destruct (utf8.lead b) as [[[sz lo] hi] |] eqn:Hlead; [| intros; simplify_eq; by left].
  apply lead_lo in Hlead.
  destruct t as [| b1 t1]; cbn [take]; [intros; simplify_eq; by left |].
  destruct (utf8.within lo hi b1) eqn:H1; cbn [negb];
    [| intros; simplify_eq; by left].
  apply within_lo in H1.
  destruct (sz <=? 2)%N.
  { intros; simplify_eq. right. split; [lia |]. cbn [take]. repeat constructor; lia. }
  destruct t1 as [| b2 t2]; cbn [take]; [intros; simplify_eq; by left |].
  destruct (utf8.cont b2) eqn:H2; cbn [negb];
    [| intros; simplify_eq; by left].
  apply within_lo in H2.
  destruct (sz <=? 3)%N.
  { intros; simplify_eq. right. split; [lia |]. cbn [take]. repeat constructor; lia. }
  destruct t2 as [| b3 t3]; cbn [take]; [intros; simplify_eq; by left |].
  destruct (utf8.cont b3) eqn:H3; cbn [negb];
    [| intros; simplify_eq; by left].
  apply within_lo in H3.
  intros; simplify_eq. right. split; [lia |]. cbn [take]. repeat constructor; lia.
Qed.

Lemma high_plain l : Forall (fun x => (128 <= x)%N) l -> forallb plain l = true.
Proof.
  induction 1 as [| x l Hx _ IH]; [reflexivity |].
  simpl. rewrite IH, andb_true_r. unfold plain.
  apply andb_true_iff. split; [apply andb_true_iff; split |].
  - apply N.leb_le. lia.
  - apply negb_true_iff, N.eqb_neq. lia.
  - apply negb_true_iff, N.eqb_neq. lia.
Qed.

Lemma htmlSafe_plain b : json.htmlSafe b = true -> plain b = true.
Proof.
  unfold json.htmlSafe, plain, utf8.within. intros Hb.
  apply andb_true_iff in Hb as [Hw Hn]. apply andb_true_iff in Hw as [Hlo _].
  apply negb_true_iff in Hn. repeat (apply orb_false_iff in Hn as [Hn ?]).
  rewrite Hlo. simpl. by rewrite Hn, H2.
Qed.

(** What the encoder writes between the quotes is a well-formed literal. *)
Lemma appendString_closes fuel src : closes (json.appendString fuel src).
Proof.
  revert src. induction fuel as [| fuel IH]; intros src; [apply closes_nil |].
  destruct src as [| b r]; [apply closes_nil |].
  cbn [json.appendString].
  destruct (b <? utf8.RuneSelf)%N eqn:Hself.
  { apply N.ltb_lt in Hself. unfold utf8.RuneSelf in Hself.
    destruct (json.htmlSafe b) eqn:Hsafe.
    - cbn [app]. apply closes_plain; [by apply htmlSafe_plain | apply IH].
    - apply closes_escapeByte; [lia | apply IH]. }
  apply N.ltb_ge in Hself. unfold utf8.RuneSelf in Hself.
  destruct (utf8.DecodeRune (take 4 (b :: r))) as [c size] eqn:Hdec.
  apply DecodeRune_high in Hdec as [[-> ->] | [Hsize Hhigh]]; [ | | exact Hself].
  { change (closes ([92; 117; 102; 102; 102; 100]%N ++ json.appendString fuel r)).
    cbn [app]. by eapply closes_unicode. }
  destruct ((c =? utf8.RuneError)%N && (size =? 1)%nat) eqn:Herr.
  { apply andb_true_iff in Herr as [_ Herr]. apply Nat.eqb_eq in Herr. lia. }
  destruct ((c =? 8232)%N || (c =? 8233)%N) eqn:Hsep.
  { change (bytes "\u202") with [92; 117; 50; 48; 50]%N. cbn [app].
    apply orb_true_iff in Hsep as [Hsep | Hsep]; apply N.eqb_eq in Hsep; subst c;
      by eapply closes_unicode. }
  apply closes_plain_app; [by apply high_plain | apply IH].
Qed.

Lemma parseValue_string f d lit rest :
  closes lit ->
  json.parseValue (S f) d (34%N :: lit ++ 34%N :: rest)
  = Some (json.Str (json.unquote (S (length lit)) lit), rest).
Proof.
  intros Hlit.
  change (json.parseValue (S f) d (34%N :: lit ++ 34%N :: rest))
    with (match json.scanString (lit ++ 34%N :: rest) with
          | Some (l, r) => Some (json.Str (json.unquote (S (length l)) l), r)
          | None => None
          end).
  by rewrite Hlit.
Qed.

Lemma encodeString_shape s rest :
  json.encodeString s ++ rest
  = 34%N :: json.appendString (length (bytes s)) (bytes s) ++ 34%N :: rest.
Proof. unfold json.encodeString. by rewrite <- !app_assoc. Qed.

(** One member whose value is an encoded string, up to what follows it. *)
Lemma parseMembers_step f d key s tail :
  closes key ->
  json.parseMembers (S (S f)) d
    (34%N :: key ++ 34%N :: 58%N :: json.encodeString s ++ tail)
  = match json.skipSpace tail with
    | [] => None
    | c3 :: r4 =>
      if (c3 =? 44)%N then
        match json.parseMembers (S f) d r4 with
        | Some (ms, rest) =>
          Some ((json.unquote (S (length key)) key, stringValue s) :: ms, rest)
        | None => None
        end
      else if (c3 =? 125)%N
      then Some ([(json.unquote (S (length key)) key, stringValue s)], r4)
      else None
    end.
Proof.
  intros Hkey.
  change (json.parseMembers (S (S f)) d
            (34%N :: key ++ 34%N :: 58%N :: json.encodeString s ++ tail))
    with (match json.scanString (key ++ 34%N :: 58%N :: json.encodeString s ++ tail) with
          | None => None
          | Some (lit, r1) =>
            let k := json.unquote (S (length lit)) lit in
            match json.skipSpace r1 with
            | [] => None
            | c1 :: r2 =>
              if negb (c1 =? 58)%N then None
              else match json.parseValue (S f) d r2 with
              | None => None
              | Some (v, r3) =>
                match json.skipSpace r3 with
                | [] => None
                | c3 :: r4 =>
                  if (c3 =? 44)%N then
                    match json.parseMembers (S f) d r4 with
                    | Some (ms, rest) => Some ((k, v) :: ms, rest)
                    | None => None
                    end
                  else if (c3 =? 125)%N then Some ([(k, v)], r4)
                  else None
                end
              end
            end
          end).
  rewrite Hkey. cbv zeta.
  change (json.skipSpace (58%N :: json.encodeString s ++ tail))
    with (58%N :: json.encodeString s ++ tail).
  cbv beta iota. change (negb (58 =? 58)%N) with false. cbv iota.
  rewrite encodeString_shape, parseValue_string by apply appendString_closes.
  reflexivity.
Qed.

Lemma closes_bytes s : forallb plain (bytes s) = true -> closes (bytes s).
Proof.
  intros Hs. rewrite <- (app_nil_r (bytes s)).
  apply closes_plain_app; [exact Hs | apply closes_nil].
Qed.

Lemma encodeSource_shape v rest :
  json.encodeSource v ++ rest
  = 123%N :: 34%N :: bytes "id" ++ 34%N :: 58%N :: json.encodeString (ID v)
    ++ 44%N :: 34%N :: bytes "name" ++ 34%N :: 58%N :: json.encodeString (Name v)
    ++ 44%N :: 34%N :: bytes "url" ++ 34%N :: 58%N :: json.encodeString (Url v)
    ++ 125%N :: rest.
Proof.
  unfold json.encodeSource. rewrite <- !app_assoc. reflexivity.
Qed.

(** The encoding of a [Source] parses, to the object of its three fields. *)
Lemma parseValue_encodeSource f d v rest :
  (d < 10000)%N ->
  json.parseValue (5 + f) d (json.encodeSource v ++ rest)
  = Some (sourceValue v, rest).
Proof.
  intros Hd. rewrite encodeSource_shape.
  set (m1 := 34%N :: bytes "id" ++ _).
  change (json.parseValue (5 + f) d (123%N :: m1))
    with (if (json.maxNestingDepth <? d + 1)%N then None
          else match json.parseMembers (4 + f) (d + 1)%N m1 with
               | Some (ms, r) => Some (json.Object ms, r)
               | None => None
               end).
  destruct (json.maxNestingDepth <? d + 1)%N eqn:Hdepth.
  { apply N.ltb_lt in Hdepth. unfold json.maxNestingDepth in Hdepth. lia. }
  subst m1.
  change (4 + f)%nat with (S (S (2 + f))).
  rewrite parseMembers_step by (by apply closes_bytes).
  cbn [json.skipSpace json.isSpace]. change (json.isSpace 44) with false.
  cbv iota. change (44 =? 44)%N with true. cbv iota.
  change (S (2 + f)) with (S (S (1 + f))).
  rewrite parseMembers_step by (by apply closes_bytes).
  cbn [json.skipSpace]. change (json.isSpace 44) with false.
  cbv iota. change (44 =? 44)%N with true. cbv iota.
  change (S (1 + f)) with (S (S f)).
  rewrite parseMembers_step by (by apply closes_bytes).
  cbn [json.skipSpace]. change (json.isSpace 125) with false.
  cbv iota. change (125 =? 44)%N with false. change (125 =? 125)%N with true.
  cbv iota. reflexivity.
Qed.



Lemma encodeSource_length v : (2 <= length (json.encodeSource v))%nat.
Proof. unfold json.encodeSource. rewrite !length_app. simpl. lia. Qed.


(** The encoding of a [Source] is one JSON value. *)
Lemma parse_encodeSource v : json.parse (json.encodeSource v) = Some (sourceValue v).
Proof.
  unfold json.parse.
  pose proof (encodeSource_length v) as Hlen.
  replace (2 * length (json.encodeSource v) + 2)%nat
    with (5 + (2 * length (json.encodeSource v) - 3))%nat by lia.
  rewrite <- (app_nil_r (json.encodeSource v)) at 2.
  rewrite parseValue_encodeSource by reflexivity. reflexivity.
Qed.


Lemma hexDigit_byte n : (n < 16)%N -> isByte (json.hexDigit n).
Proof. unfold isByte, json.hexDigit. destruct (n <? 10)%N; lia. Qed.

Lemma escapeByte_bytes b : (b < 128)%N -> Forall isByte (json.escapeByte b).
Proof.
  intros Hb. unfold json.escapeByte.
  repeat match goal with
  | |- context [if ?c then _ else _] => destruct c
  end; repeat constructor; unfold isByte; try lia.
  - apply hexDigit_byte. by apply shiftr4_lt.
  - apply hexDigit_byte, land15_lt.
Qed.

Lemma appendString_bytes fuel src :
  Forall isByte src -> Forall isByte (json.appendString fuel src).
Proof.
  revert src. induction fuel as [| fuel IH]; intros src Hsrc; [constructor |].
  destruct src as [| b r]; [constructor |].
  cbn [json.appendString].
  apply Forall_cons in Hsrc as Hbr. destruct Hbr as [Hb Hr].
  destruct (b <? utf8.RuneSelf)%N eqn:Hself.
  { apply N.ltb_lt in Hself. unfold utf8.RuneSelf in Hself.
    apply Forall_app. split; [| by apply IH].
    destruct (json.htmlSafe b); [by repeat constructor | by apply escapeByte_bytes]. }
  destruct (utf8.DecodeRune (take 4 (b :: r))) as [c size].
  destruct ((c =? utf8.RuneError)%N && (size =? 1)%nat).
  { apply Forall_app. split; [| by apply IH].
    repeat constructor; unfold isByte; lia. }
  destruct ((c =? 8232)%N || (c =? 8233)%N).
  { apply Forall_app. split; [repeat constructor; unfold isByte; lia |].
    apply Forall_app. split.
    - repeat constructor. apply hexDigit_byte, land15_lt.
    - apply IH. by apply Forall_drop. }
  apply Forall_app. split; [by apply Forall_take |].
  apply IH. by apply Forall_drop.
Qed.

Lemma bytes_isByte s : Forall isByte (bytes s).
Proof. apply bytes_lt. Qed.

Lemma small_bytes l : forallb (fun n => n <? 256)%N l = true -> Forall isByte l.
Proof.
  intros Hl. apply Forall_forall. intros n Hn.
  apply list_elem_of_In in Hn.
  rewrite forallb_forall in Hl. apply Hl in Hn. by apply N.ltb_lt in Hn.
Qed.

Lemma encodeString_bytes s : Forall isByte (json.encodeString s).
Proof.
  unfold json.encodeString. rewrite !Forall_app.
  split; [by apply small_bytes |].
  split; [apply appendString_bytes, bytes_isByte | by apply small_bytes].
Qed.

Lemma encodeSource_bytes v : Forall isByte (json.encodeSource v).
Proof.
  unfold json.encodeSource. rewrite !Forall_app.
  repeat split;
    first [ apply encodeString_bytes | apply bytes_isByte | by apply small_bytes ].
Qed.


(** [json.Marshal] of a [Source] is valid JSON. *)
Lemma MarshalSource_valid v : json.Valid (json.MarshalSource v) = true.
Proof.
  unfold json.Valid, json.MarshalSource.
  rewrite bytes_str by apply encodeSource_bytes.
  by rewrite parse_encodeSource.
Qed.


(** *** Responses *)

Lemma getAllHandler_unfold e w :
  getAllHandler e w
  = if configFails e then (Exited, w)
    else
      let w' := send ScanCall w in
      if serviceFails e
      then (Returned (serverError "Failed to retrieve sources"), w')
      else
        let items := map snd (map_to_list (table w)) in
        match convert items 0 (make (length items)) with
        | Returned sources => (Returned (ok (json.MarshalSources sources)), w')
        | Panicked => (Panicked, w')
        | Exited => (Exited, w')
        end.
Proof.
  unfold getAllHandler, dynamodb.Scan. unfold_go.
  destruct (configFails e); [reflexivity |].
  destruct (serviceFails e); reflexivity.
Qed.



Section Classification.

Context {R : Type} `{Event R}.
Variables (e : Env) (req : R) (w : World) (r : Response).






End Classification.







(** *** The stored ids *)

Lemma nonEmptyIds_insert t id name url :
  id <> "" -> nonEmptyIds t -> nonEmptyIds (<[id := sourceItem id name url]> t).
Proof.
  intros Hid Ht k item Hk.
  destruct (decide (id = k)) as [<- | Hne].
  - rewrite lookup_insert_eq in Hk. injection Hk as <-.
    split; [apply keyOf_sourceItem | exact Hid].
  - rewrite lookup_insert_ne in Hk by exact Hne. by apply Ht.
Qed.

Lemma nonEmptyIds_delete t id : nonEmptyIds t -> nonEmptyIds (delete id t).
Proof.
  intros Ht k item Hk. apply lookup_delete_Some in Hk as [_ Hk]. by apply Ht.
Qed.

Lemma postHandler_nonEmptyIds {R : Type} `{Event R} e (req : R) w :
  nonEmptyIds (table w) -> nonEmptyIds (table (snd (postHandler e req w))).
Proof.
  intros Hw. rewrite postHandler_unfold.
  destruct (configFails e); [exact Hw |].
  destruct (uuid.New _) as [u | |]; try exact Hw. cbv zeta.
  destruct (serviceFails e); [exact Hw |]. simpl.
  apply nonEmptyIds_insert; [apply uuid_String_nonempty | exact Hw].
Qed.

Lemma putHandler_nonEmptyIds {R : Type} `{Event R} e (req : R) w :
  nonEmptyIds (table w) -> nonEmptyIds (table (snd (putHandler e req w))).
Proof.
  intros Hw. rewrite putHandler_unfold.
  destruct (configFails e); [exact Hw |]. cbv zeta.
  destruct (serviceFails e); [exact Hw |]. cbn [orb].
  destruct (ID (decoded req) =? "")%string eqn:Hid; [exact Hw |].
  apply String.eqb_neq in Hid. simpl.
  by apply nonEmptyIds_insert.
Qed.

Lemma deleteHandler_nonEmptyIds {R : Type} `{Event R} e (req : R) w :
  nonEmptyIds (table w) -> nonEmptyIds (table (snd (deleteHandler e req w))).
Proof.
  intros Hw. rewrite deleteHandler_unfold. cbv zeta.
  destruct (_ =? "")%string.
  { by rewrite getAllHandler_world. }
  destruct (configFails e); [exact Hw |].
  destruct (serviceFails e); [exact Hw |]. simpl.
  by apply nonEmptyIds_delete.
Qed.

Lemma invoke_nonEmptyIds w s :
  nonEmptyIds (table w) -> nonEmptyIds (table (invoke w s)).
Proof.
  destruct s as [e req]. unfold invoke. cbn [fst snd]. intros Hw.
  destruct (V2.Method req =? http.MethodGet)%string eqn:Hm.
  { unfold V2.handler. rewrite Hm.
    by rewrite (proj1 (getHandler_reads e req w)). }
  destruct (claimsOf req) as [claims |] eqn:Hc.
  2: { by rewrite (V2_handler_no_claims e req w Hm Hc). }
  rewrite (V2_handler_claims e req w claims Hm Hc).
  destruct (negb _); [exact Hw |].
  destruct (V2.Method req =? http.MethodPost)%string.
  { by apply postHandler_nonEmptyIds. }
  destruct (V2.Method req =? http.MethodPut)%string.
  { by apply putHandler_nonEmptyIds. }
  destruct (V2.Method req =? http.MethodDelete)%string.
  { by apply deleteHandler_nonEmptyIds. }
  exact Hw.
Qed.

Lemma invokeLegacy_nonEmptyIds w s :
  nonEmptyIds (table w) -> nonEmptyIds (table (invokeLegacy w s)).
Proof.
  destruct s as [e req]. unfold invokeLegacy, Legacy.handler. cbn [fst snd].
  intros Hw.
  destruct (Legacy.HTTPMethod req =? http.MethodGet)%string.
  { by rewrite (proj1 (getHandler_reads e req w)). }
  destruct (Legacy.HTTPMethod req =? http.MethodPost)%string.
  { by apply postHandler_nonEmptyIds. }
  destruct (Legacy.HTTPMethod req =? http.MethodPut)%string.
  { by apply putHandler_nonEmptyIds. }
  destruct (Legacy.HTTPMethod req =? http.MethodDelete)%string.
  { by apply deleteHandler_nonEmptyIds. }
  exact Hw.
Qed.

Lemma run_nonEmptyIds steps : forall w,
  nonEmptyIds (table w) -> nonEmptyIds (table (run steps w)).
Proof.
  induction steps as [| s steps IH]; intros w Hw; [exact Hw |].
  simpl. apply IH. by apply invoke_nonEmptyIds.
Qed.

Lemma runLegacy_nonEmptyIds steps : forall w,
  nonEmptyIds (table w) -> nonEmptyIds (table (runLegacy steps w)).
Proof.
  induction steps as [| s steps IH]; intros w Hw; [exact Hw |].
  simpl. apply IH. by apply invokeLegacy_nonEmptyIds.
Qed.

(** C6: in every state reached from the empty table by a sequence of
    requests, whatever they are and whatever fails, every stored record
    has a non-empty id, the key it is stored under.  This holds for both
    variants.  Create
    stores a generated identifier, which is never empty; update sends
    the id of the request body as it is, and the table refuses the put
    when that id is empty. *)
Theorem stored_ids_nonempty
  (steps : list (Env * V2.APIGatewayV2HTTPRequest))
  (legacy : list (Env * Legacy.APIGatewayProxyRequest)) :
  nonEmptyIds (table (run steps emptyWorld))
  /\ nonEmptyIds (table (runLegacy legacy emptyWorld)).
Proof.
  assert (Hempty : nonEmptyIds (table emptyWorld)).
  { intros k item Hk. simpl in Hk. by rewrite lookup_empty in Hk. }
  split; [by apply run_nonEmptyIds | by apply runLegacy_nonEmptyIds].
Qed.

Lemma stored_ids_nonempty_witness :
  size (table (run session emptyWorld)) = 2%nat
  /\ nonEmptyIds (table (run session emptyWorld))
  /\ table (run [ (calm, putNoId) ] emptyWorld) = ∅.
Proof.
  split; [reflexivity |].
  split; [exact (proj1 (stored_ids_nonempty session [])) |].
  reflexivity.
Defined.

(** *** Create *)

(** C1 on the code: a successful create is answered 201, but the body is
    the id of the request body, not the id of the record: with an id in
    the request the response repeats it, without one the body is empty;
    the record is stored under the generated identifier, in both
    variants. *)
Theorem create_answers_with_request_id :
  response (V2.handler calm postWithId emptyWorld)
  = Some {| StatusCode := 201; ResponseBody := "abc" |}
  /\ response (Legacy.handler calm postWithIdLegacy emptyWorld)
     = Some {| StatusCode := 201; ResponseBody := "abc" |}
  /\ response (V2.handler calm postWithScope emptyWorld)
     = Some {| StatusCode := 201; ResponseBody := "" |}
  /\ dom (table (snd (V2.handler calm postWithId emptyWorld)))
     = {[ "01020304-0506-4708-890a-0b0c0d0e0f10" ]}
  /\ ID (decoded postWithId) = "abc".
Proof. repeat apply conj; reflexivity. Qed.

(** ** The codec: encoding and decoding *)

(** *** UTF-8 *)

Lemma allFrom_spec f count : forall start,
  allFrom f start count = true ->
  forall x, (start <= x)%N -> (x < start + N.of_nat count)%N -> f x = true.
Proof.
  induction count as [| k IH]; intros start Hall x Hlo Hhi; [lia |].
  cbn [allFrom] in Hall. apply andb_true_iff in Hall as [Hs Hrest].
  destruct (N.eq_dec x start) as [-> | Hne]; [exact Hs |].
  apply (IH (N.succ start)); [exact Hrest | lia | lia].
Qed.

Lemma lead_range p0 sz lo hi :
  utf8.lead p0 = Some (sz, lo, hi) ->
  (128 <= lo)%N /\ (hi <= 191)%N
  /\ ((sz = 2%N /\ (194 <= p0 <= 223)%N)
      \/ (sz = 3%N /\ (224 <= p0 <= 239)%N)
      \/ (sz = 4%N /\ (240 <= p0 <= 244)%N)).
Proof.
  unfold utf8.lead, utf8.within.
  repeat match goal with
  | |- context [if ?c then _ else _] => destruct c eqn:?
  end; intros Hl; simplify_eq;
  repeat match goal with
  | H : (_ && _) = true |- _ => apply andb_true_iff in H as [? ?]
  | H : (_ <=? _)%N = true |- _ => apply N.leb_le in H
  | H : (_ =? _)%N = true |- _ => apply N.eqb_eq in H
  end; lia.
Qed.

Lemma within_range lo hi b :
  utf8.within lo hi b = true -> (lo <= b)%N /\ (b <= hi)%N.
Proof.
  unfold utf8.within. intros Hw. apply andb_true_iff in Hw as [Hl Hh].
  by apply N.leb_le in Hl, Hh.
Qed.

Lemma low6_lt b : (utf8.low6 b < 64)%N.
Proof.
  unfold utf8.low6. change 0x3F%N with (N.ones 6). rewrite N.land_ones.
  change (2 ^ 6)%N with 64%N. apply N.mod_lt. lia.
Qed.

(** The low six bits and the bits above them of a rune put together. *)
Lemma low_bits h x : (x < 64)%N -> utf8.low6 (N.lor (N.shiftl h 6) x) = x.
Proof.
  intros Hx. unfold utf8.low6. change 0x3F%N with (N.ones 6).
  rewrite N.land_lor_distr_l, !N.land_ones, N.shiftl_mul_pow2.
  rewrite N.Div0.mod_mul, N.lor_0_l. apply N.mod_small. exact Hx.
Qed.

Lemma high_bits h x : (x < 64)%N -> N.shiftr (N.lor (N.shiftl h 6) x) 6 = h.
Proof.
  intros Hx. rewrite N.shiftr_lor, N.shiftr_shiftl_l by lia.
  change (6 - 6)%N with 0%N. rewrite N.shiftl_0_r.
  rewrite (N.shiftr_div_pow2 x). change (2 ^ 6)%N with 64%N.
  rewrite N.div_small by exact Hx. apply N.lor_0_r.
Qed.

Lemma cont_low6_holds :
  allFrom (fun b => (N.lor 0x80 (utf8.low6 b) =? b)%N) 0x80 64 = true.
Proof. reflexivity. Qed.

(** A continuation byte is the one the encoder writes for its low bits. *)
Lemma cont_low6 b : utf8.cont b = true -> N.lor 0x80 (utf8.low6 b) = b.
Proof.
  intros Hb. apply within_range in Hb as [Hlo Hhi].
  apply N.eqb_eq.
  apply (allFrom_spec _ _ _ cont_low6_holds b); lia.
Qed.

Lemma low6_cont_holds :
  allFrom (fun z => utf8.cont (N.lor 0x80 z)) 0 64 = true.
Proof. reflexivity. Qed.

(** What the encoder writes for six low bits is a continuation byte. *)
Lemma low6_cont y : utf8.cont (N.lor 0x80 (utf8.low6 y)) = true.
Proof.
  pose proof (low6_lt y).
  apply (allFrom_spec _ _ _ low6_cont_holds (utf8.low6 y)); lia.
Qed.

Lemma roundTrips2_holds :
  allFrom (fun p0 => allFrom (fun b1 => roundTrips [p0; b1]) 0x80 64) 0xC2 30
  = true.
Proof. vm_cast_no_check (eq_refl true). Qed.

Lemma roundTrips3_holds :
  allFrom (fun p0 => allFrom (fun b1 => allFrom (fun b2 =>
    roundTrips [p0; b1; b2]) 0x80 64) 0x80 64) 0xE0 16 = true.
Proof. vm_cast_no_check (eq_refl true). Qed.

Lemma fourByteLead_holds :
  allFrom (fun p0 => allFrom (fun b1 => fourByteLead p0 b1) 0x80 64) 0xF0 5
  = true.
Proof. vm_cast_no_check (eq_refl true). Qed.

Lemma fourByteHead_holds : allFrom fourByteHead 16 256 = true.
Proof. vm_cast_no_check (eq_refl true). Qed.

Lemma decodable_holds : allFrom decodable 0x80 (N.to_nat 0xFF80) = true.
Proof. vm_cast_no_check (eq_refl true). Qed.

Lemma roundTrip2 p0 b1 :
  (0xC2 <= p0 <= 0xDF)%N -> (0x80 <= b1 <= 0xBF)%N -> roundTrips [p0; b1] = true.
Proof.
  intros Hp0 Hb1.
  pose proof (allFrom_spec _ _ _ roundTrips2_holds p0) as H1.
  cbv beta in H1.
  apply (allFrom_spec _ _ _ (H1 ltac:(lia) ltac:(lia)) b1); lia.
Qed.

Lemma roundTrip3 p0 b1 b2 :
  (0xE0 <= p0 <= 0xEF)%N -> (0x80 <= b1 <= 0xBF)%N -> (0x80 <= b2 <= 0xBF)%N ->
  roundTrips [p0; b1; b2] = true.
Proof.
  intros Hp0 Hb1 Hb2.
  pose proof (allFrom_spec _ _ _ roundTrips3_holds p0) as H1.
  cbv beta in H1.
  pose proof (allFrom_spec _ _ _ (H1 ltac:(lia) ltac:(lia)) b1) as H2.
  cbv beta in H2.
  apply (allFrom_spec _ _ _ (H2 ltac:(lia) ltac:(lia)) b2); lia.
Qed.

Lemma roundTrips_true p c size :
  roundTrips p = true -> utf8.DecodeRune p = (c, size) -> (2 <= size)%nat ->
  utf8.EncodeRune c = take size p.
Proof.
  unfold roundTrips. intros Hr Hd Hsize. rewrite Hd in Hr.
  apply orb_true_iff in Hr as [Hr | Hr].
  - apply Nat.ltb_lt in Hr. lia.
  - by apply bool_decide_eq_true in Hr.
Qed.

(** A rune between 0x10000 and 0x10FFFF is written on four bytes. *)
Lemma EncodeRune_large c :
  (0x10000 <= c)%N -> (c <= 0x10FFFF)%N ->
  utf8.EncodeRune c
  = [N.lor 0xF0 (N.shiftr c 18);
     N.lor 0x80 (utf8.low6 (N.shiftr c 12));
     N.lor 0x80 (utf8.low6 (N.shiftr c 6));
     N.lor 0x80 (utf8.low6 c)].
Proof.
  intros Hlo Hhi. unfold utf8.EncodeRune, utf8.surrogate, utf8.within, utf8.MaxRune.
  assert (E1 : (c <=? 0x7F)%N = false) by (apply N.leb_gt; lia).
  assert (E2 : (c <=? 0x7FF)%N = false) by (apply N.leb_gt; lia).
  assert (E3 : (0x10FFFF <? c)%N = false) by (apply N.ltb_ge; lia).
  assert (E4 : (c <=? 0xDFFF)%N = false) by (apply N.leb_gt; lia).
  assert (E5 : (c <=? 0xFFFF)%N = false) by (apply N.leb_gt; lia).
  by rewrite E1, E2, E3, E4, E5, andb_false_r.
Qed.

(** The bits of a rune above its low twelve bound it. *)
Lemma shiftr12_bounds c :
  (4096 * N.shiftr c 12 <= c)%N /\ (c < 4096 * (N.shiftr c 12 + 1))%N.
Proof.
  rewrite N.shiftr_div_pow2. change (2 ^ 12)%N with 4096%N.
  pose proof (N.div_mod c 4096 ltac:(lia)) as Hdiv.
  pose proof (N.mod_lt c 4096 ltac:(lia)) as Hmod.
  set (q := (c / 4096)%N) in *. set (r := (c mod 4096)%N) in *.
  clearbody q r. lia.
Qed.

(** Encoding the rune of a four-byte sequence gives the sequence back. *)
Lemma EncodeRune_four p0 b1 b2 b3 sz lo hi :
  utf8.lead p0 = Some (sz, lo, hi) -> (3 < sz)%N ->
  utf8.within lo hi b1 = true -> utf8.cont b2 = true -> utf8.cont b3 = true ->
  utf8.EncodeRune
    (N.lor (N.shiftl (N.land p0 0x07) 18)
       (N.lor (N.shiftl (utf8.low6 b1) 12)
          (N.lor (N.shiftl (utf8.low6 b2) 6) (utf8.low6 b3))))
  = [p0; b1; b2; b3].
Proof.
  intros Hlead Hsz H1 H2 H3.
  assert (Htable : fourByteLead p0 b1 = true).
  { destruct (lead_range _ _ _ _ Hlead) as (Hlo & Hhi & Hp0).
    destruct (within_range _ _ _ H1) as [H1l H1h].
    pose proof (allFrom_spec _ _ _ fourByteLead_holds p0) as Hall.
    cbv beta in Hall.
    apply (allFrom_spec _ _ _ (Hall ltac:(lia) ltac:(lia)) b1); lia. }
  unfold fourByteLead in Htable. rewrite Hlead, H1 in Htable.
  apply N.ltb_lt in Hsz. rewrite Hsz in Htable. cbn [andb implb] in Htable.
  cbv zeta in Htable.
  apply andb_true_iff in Htable as [Htable Hb1].
  apply andb_true_iff in Htable as [Htable Hp0].
  apply andb_true_iff in Htable as [Hh16 Hh271].
  apply N.eqb_eq in Hb1, Hp0. apply N.leb_le in Hh16, Hh271.
  set (h := leadBits p0 b1) in *.
  set (c := N.lor _ _).
  assert (Hc : c = N.lor (N.shiftl (N.lor (N.shiftl h 6) (utf8.low6 b2)) 6)
                     (utf8.low6 b3)).
  { unfold c, h, leadBits. rewrite !N.shiftl_lor, !N.shiftl_shiftl.
    change (6 + 6)%N with 12%N. change (12 + 6)%N with 18%N.
    by rewrite <- !N.lor_assoc. }
  assert (Hs6 : N.shiftr c 6 = N.lor (N.shiftl h 6) (utf8.low6 b2)).
  { rewrite Hc. apply high_bits, low6_lt. }
  assert (Hs12 : N.shiftr c 12 = h).
  { change 12%N with (6 + 6)%N. rewrite <- N.shiftr_shiftr, Hs6.
    apply high_bits, low6_lt. }
  assert (Hs18 : N.shiftr c 18 = N.shiftr h 6).
  { change 18%N with (12 + 6)%N. by rewrite <- N.shiftr_shiftr, Hs12. }
  destruct (shiftr12_bounds c) as [Hcl Hch]. rewrite Hs12 in Hcl, Hch.
  rewrite EncodeRune_large by lia.
  rewrite Hs18, Hs12, Hs6, Hp0, Hb1.
  rewrite (low_bits h) by apply low6_lt.
  rewrite Hc, low_bits by apply low6_lt.
  by rewrite !cont_low6.
Qed.

(** A multi-byte rune is decided by its own bytes, which are there. *)
Lemma DecodeRune_prefix p c size :
  utf8.DecodeRune p = (c, size) -> (2 <= size)%nat ->
  length (take size p) = size
  /\ forall t, utf8.DecodeRune (take size p ++ t) = (c, size).
Proof.
  destruct p as [| p0 t0]; [intros [= <- <-]; lia |].
  unfold utf8.DecodeRune.
  destruct (p0 <? utf8.RuneSelf)%N eqn:Hself; [intros [= <- <-]; lia |].
  destruct (utf8.lead p0) as [[[sz lo] hi] |] eqn:Hlead; [| intros [= <- <-]; lia].
  destruct t0 as [| b1 t1]; [intros [= <- <-]; lia |].
  destruct (utf8.within lo hi b1) eqn:H1; cbn [negb]; [| intros [= <- <-]; lia].
  destruct (sz <=? 2)%N eqn:E2.
  { intros [= <- <-] _. split; [reflexivity |]. intros t. cbn [take app].
    by rewrite Hself, Hlead, H1, E2. }
  destruct t1 as [| b2 t2]; [intros [= <- <-]; lia |].
  destruct (utf8.cont b2) eqn:H2; cbn [negb]; [| intros [= <- <-]; lia].
  destruct (sz <=? 3)%N eqn:E3.
  { intros [= <- <-] _. split; [reflexivity |]. intros t. cbn [take app].
    by rewrite Hself, Hlead, H1, E2, H2, E3. }
  destruct t2 as [| b3 t3]; [intros [= <- <-]; lia |].
  destruct (utf8.cont b3) eqn:H3; cbn [negb]; [| intros [= <- <-]; lia].
  intros [= <- <-] _. split; [reflexivity |]. intros t. cbn [take app].
  by rewrite Hself, Hlead, H1, E2, H2, E3, H3.
Qed.

(** The bytes of a rune of two bytes or more are bytes. *)
Lemma DecodeRune_bytes p c size :
  utf8.DecodeRune p = (c, size) -> (2 <= size)%nat -> Forall isByte (take size p).
Proof.
  destruct p as [| p0 t0]; [intros [= <- <-]; lia |].
  unfold utf8.DecodeRune.
  destruct (p0 <? utf8.RuneSelf)%N eqn:Hself; [intros [= <- <-]; lia |].
  destruct (utf8.lead p0) as [[[sz lo] hi] |] eqn:Hlead; [| intros [= <- <-]; lia].
  apply lead_range in Hlead as (Hlo & Hhi & Hp0).
  assert (Hb0 : isByte p0) by (unfold isByte; lia).
  destruct t0 as [| b1 t1]; [intros [= <- <-]; lia |].
  destruct (utf8.within lo hi b1) eqn:H1; cbn [negb]; [| intros [= <- <-]; lia].
  apply within_range in H1.
  assert (Hb1 : isByte b1) by (unfold isByte; lia).
  destruct (sz <=? 2)%N eqn:E2.
  { intros [= <- <-] _. cbn [take]. by repeat constructor. }
  destruct t1 as [| b2 t2]; [intros [= <- <-]; lia |].
  destruct (utf8.cont b2) eqn:H2; cbn [negb]; [| intros [= <- <-]; lia].
  apply within_range in H2.
  assert (Hb2 : isByte b2) by (unfold isByte; lia).
  destruct (sz <=? 3)%N eqn:E3.
  { intros [= <- <-] _. cbn [take]. by repeat constructor. }
  destruct t2 as [| b3 t3]; [intros [= <- <-]; lia |].
  destruct (utf8.cont b3) eqn:H3; cbn [negb]; [| intros [= <- <-]; lia].
  apply within_range in H3.
  assert (Hb3 : isByte b3) by (unfold isByte; lia).
  intros [= <- <-] _. cbn [take]. by repeat constructor.
Qed.

(** Encoding the rune of a multi-byte sequence gives its bytes back. *)
Lemma EncodeRune_DecodeRune p c size :
  utf8.DecodeRune p = (c, size) -> (2 <= size)%nat ->
  utf8.EncodeRune c = take size p.
Proof.
  intros Hd Hsize.
  destruct p as [| p0 t0]; [cbn in Hd; simplify_eq; lia |].
  revert Hd. unfold utf8.DecodeRune.
  destruct (p0 <? utf8.RuneSelf)%N eqn:Hself; [intros [= <- <-]; lia |].
  destruct (utf8.lead p0) as [[[sz lo] hi] |] eqn:Hlead; [| intros [= <- <-]; lia].
  destruct (lead_range _ _ _ _ Hlead) as (Hlo & Hhi & Hsz).
  destruct t0 as [| b1 t1]; [intros [= <- <-]; lia |].
  destruct (utf8.within lo hi b1) eqn:H1; cbn [negb]; [| intros [= <- <-]; lia].
  destruct (within_range _ _ _ H1) as [H1l H1h].
  destruct (sz <=? 2)%N eqn:E2.
  { intros [= <- <-]. pose proof (proj1 (N.leb_le _ _) E2) as Hle.
    apply (roundTrips_true [p0; b1] _ 2); [apply roundTrip2; lia | | lia].
    unfold utf8.DecodeRune. by rewrite Hself, Hlead, H1, E2. }
  pose proof (proj1 (N.leb_gt _ _) E2) as Hgt2.
  destruct t1 as [| b2 t2]; [intros [= <- <-]; lia |].
  destruct (utf8.cont b2) eqn:H2; cbn [negb]; [| intros [= <- <-]; lia].
  destruct (within_range _ _ _ H2) as [H2l H2h].
  destruct (sz <=? 3)%N eqn:E3.
  { intros [= <- <-]. pose proof (proj1 (N.leb_le _ _) E3) as Hle.
    apply (roundTrips_true [p0; b1; b2] _ 3); [apply roundTrip3; lia | | lia].
    unfold utf8.DecodeRune. by rewrite Hself, Hlead, H1, E2, H2, E3. }
  pose proof (proj1 (N.leb_gt _ _) E3) as Hgt3.
  destruct t2 as [| b3 t3]; [intros [= <- <-]; lia |].
  destruct (utf8.cont b3) eqn:H3; cbn [negb]; [| intros [= <- <-]; lia].
  intros [= <- <-]. change (take 4 (p0 :: b1 :: b2 :: b3 :: t3)) with [p0; b1; b2; b3].
  eapply EncodeRune_four; [exact Hlead | lia | exact H1 | exact H2 | exact H3].
Qed.

(** The encoding of a rune from 0x10000 up decodes as one rune. *)
Lemma decodable_large x :
  (0x10000 <= x)%N -> (x <= 0x10FFFF)%N -> decodable x = true.
Proof.
  intros Hlo Hhi. unfold decodable. rewrite EncodeRune_large by lia.
  destruct (shiftr12_bounds x) as [Hkl Hkh].
  set (k := N.shiftr x 12) in *.
  assert (Hs18 : N.shiftr x 18 = N.shiftr k 6).
  { change 18%N with (12 + 6)%N. by rewrite <- N.shiftr_shiftr. }
  rewrite Hs18.
  pose proof (allFrom_spec _ _ _ fourByteHead_holds k ltac:(lia) ltac:(lia))
    as Hhead.
  unfold fourByteHead in Hhead. cbv zeta in Hhead.
  apply andb_true_iff in Hhead as [Hself Hhead].
  apply negb_true_iff in Hself.
  destruct (utf8.lead (N.lor 0xF0 (N.shiftr k 6))) as [[[sz lo] hi] |] eqn:Hlead;
    [| discriminate].
  apply andb_true_iff in Hhead as [E3 H1]. apply negb_true_iff in E3.
  assert (E2 : (sz <=? 2)%N = false).
  { apply N.leb_gt. apply N.leb_gt in E3. lia. }
  unfold utf8.DecodeRune.
  by rewrite Hself, Hlead, H1, E2, !low6_cont, E3.
Qed.

Lemma decodable_true x : (0x80 <= x)%N -> (x <= 0x10FFFF)%N -> decodable x = true.
Proof.
  intros Hlo Hhi.
  destruct (N.le_gt_cases 0x10000 x) as [Hx | Hx]; [by apply decodable_large |].
  pose proof (allFrom_spec decodable (N.to_nat 0xFF80) 0x80 decodable_holds x Hlo)
    as Hall.
  rewrite N2Nat.id in Hall. apply Hall. lia.
Qed.

Lemma EncodeRune_decodable x t :
  decodable x = true -> wellEncoded t -> wellEncoded (utf8.EncodeRune x ++ t).
Proof.
  unfold decodable. intros Hdec Ht.
  destruct (utf8.DecodeRune (utf8.EncodeRune x)) as [c size] eqn:Hd.
  apply andb_true_iff in Hdec as [Hlen Hsize].
  apply Nat.eqb_eq in Hlen. apply Nat.leb_le in Hsize.
  destruct (DecodeRune_prefix _ _ _ Hd Hsize) as [_ Hpre].
  specialize (Hpre t). rewrite Hlen, firstn_all in Hpre.
  destruct (utf8.EncodeRune x) as [| b r] eqn:He; [simpl in Hlen; lia |].
  assert (Hb : (128 <= b)%N).
  { destruct (N.le_gt_cases 128 b) as [Hb | Hb]; [exact Hb |].
    unfold utf8.DecodeRune in Hd.
    assert (E : (b <? utf8.RuneSelf)%N = true) by (apply N.ltb_lt; exact Hb).
    rewrite E in Hd. simplify_eq. lia. }
  change ((b :: r) ++ t) with (b :: (r ++ t)) in *.
  eapply wellEncoded_rune; [exact Hb | exact Hpre | lia |].
  change (b :: (r ++ t)) with ((b :: r) ++ t).
  by rewrite drop_app_length.
Qed.

(** What the encoder writes for a rune is well encoded, whatever the rune. *)
Lemma EncodeRune_wellEncoded x t :
  wellEncoded t -> wellEncoded (utf8.EncodeRune x ++ t).
Proof.
  intros Ht.
  destruct (N.le_gt_cases x 0x7F) as [Hlo | Hlo].
  { unfold utf8.EncodeRune. apply N.leb_le in Hlo as Hb. rewrite Hb.
    apply wellEncoded_ascii; [lia | exact Ht]. }
  destruct (N.le_gt_cases x 0x10FFFF) as [Hhi | Hhi].
  { apply EncodeRune_decodable; [apply decodable_true; lia | exact Ht]. }
  assert (He : utf8.EncodeRune x = utf8.EncodeRune utf8.RuneError).
  { unfold utf8.EncodeRune at 1.
    assert (E1 : (x <=? 0x7F)%N = false) by (apply N.leb_gt; lia).
    assert (E2 : (x <=? 0x7FF)%N = false) by (apply N.leb_gt; lia).
    assert (E3 : (utf8.MaxRune <? x)%N = true)
      by (apply N.ltb_lt; unfold utf8.MaxRune; lia).
    by rewrite E1, E2, E3. }
  rewrite He. apply EncodeRune_decodable; [reflexivity | exact Ht].
Qed.

Lemma validRunes_wellEncoded fuel s : validRunes fuel s = true -> wellEncoded s.
Proof.
  revert s. induction fuel as [| fuel IH]; intros s Hs.
  { destruct s; [constructor | discriminate]. }
  destruct s as [| b r]; [constructor |].
  cbn [validRunes] in Hs.
  destruct (b <? utf8.RuneSelf)%N eqn:Hself.
  - apply N.ltb_lt in Hself. unfold utf8.RuneSelf in Hself.
    apply wellEncoded_ascii; [exact Hself | by apply IH].
  - apply N.ltb_ge in Hself. unfold utf8.RuneSelf in Hself.
    destruct (utf8.DecodeRune (b :: r)) as [c size] eqn:Hd.
    destruct (size <? 2)%nat eqn:Hsize; [discriminate |].
    apply Nat.ltb_ge in Hsize.
    eapply wellEncoded_rune; [exact Hself | exact Hd | exact Hsize | by apply IH].
Qed.

Lemma wellEncoded_validRunes s :
  wellEncoded s -> forall fuel, (length s <= fuel)%nat -> validRunes fuel s = true.
Proof.
  induction 1 as [| b r Hb _ IH | b r c size Hb Hd Hsize _ IH]; intros fuel Hf.
  - by destruct fuel.
  - destruct fuel as [| fuel]; [simpl in Hf; lia |]. cbn [validRunes].
    assert (E : (b <? utf8.RuneSelf)%N = true) by (by apply N.ltb_lt).
    rewrite E. apply IH. simpl in Hf. lia.
  - destruct fuel as [| fuel]; [simpl in Hf; lia |]. cbn [validRunes].
    assert (E : (b <? utf8.RuneSelf)%N = false)
      by (apply N.ltb_ge; unfold utf8.RuneSelf; lia).
    rewrite E, Hd.
    assert (E2 : (size <? 2)%nat = false) by (by apply Nat.ltb_ge).
    rewrite E2. apply IH. rewrite length_drop. simpl in *. lia.
Qed.

Lemma utf8Valid_wellEncoded s : utf8Valid s = true <-> wellEncoded (bytes s).
Proof.
  split; [apply validRunes_wellEncoded |].
  intros Hs. by apply wellEncoded_validRunes.
Qed.

Lemma validSource_fieldsOk v : validSource v = true <-> fieldsOk v.
Proof.
  unfold validSource, fieldsOk. rewrite !andb_true_iff, !utf8Valid_wellEncoded.
  tauto.
Qed.

Lemma wellEncoded_bytes l : wellEncoded l -> Forall isByte l.
Proof.
  induction 1 as [| b r Hb _ IH | b r c size Hb Hd Hsize _ IH].
  - constructor.
  - constructor; [unfold isByte; lia | exact IH].
  - rewrite <- (take_drop size (b :: r)). apply Forall_app. split; [| exact IH].
    by eapply DecodeRune_bytes.
Qed.

Lemma wellEncoded_str s : wellEncoded s -> wellEncoded (bytes (str s)).
Proof.
  intros Hs. rewrite bytes_str; [exact Hs |].
  by apply wellEncoded_bytes.
Qed.

Lemma ascii_wellEncoded l : Forall (fun b => (b < 128)%N) l -> wellEncoded l.
Proof.
  induction 1 as [| b l Hb _ IH]; [constructor | by apply wellEncoded_ascii].
Qed.

(** *** Strings *)

Lemma small_cases (P : N -> Prop) (n : nat) :
  Forall P (map N.of_nat (seq 0 n)) -> forall b, (b < N.of_nat n)%N -> P b.
Proof.
  intros Hall b Hb. rewrite Forall_forall in Hall. apply Hall.
  apply list_elem_of_fmap. exists (N.to_nat b). split; [lia |].
  apply elem_of_seq. lia.
Qed.

(** The decoder reads back the byte. *)
Lemma unquote_asciiPiece b :
  (b < 128)%N ->
  forall f rest, json.unquote (S f) (asciiPiece b ++ rest) = b :: json.unquote f rest.
Proof.
  intros Hb. pattern b. apply (small_cases _ 128); [| exact Hb].
  cbn [seq map N.of_nat Pos.of_succ_nat Pos.succ].
  repeat (apply Forall_cons; split; [intros f rest; reflexivity |]).
  by apply Forall_nil.
Qed.

Lemma appendString_ascii_step n b r :
  (b < 128)%N ->
  json.appendString (S n) (b :: r) = asciiPiece b ++ json.appendString n r.
Proof.
  intros Hb. cbn [json.appendString]. unfold asciiPiece.
  destruct (b <? utf8.RuneSelf)%N eqn:Hself; [reflexivity |].
  apply N.ltb_ge in Hself. unfold utf8.RuneSelf in Hself. lia.
Qed.

Lemma asciiPiece_length b : (1 <= length (asciiPiece b))%nat.
Proof.
  unfold asciiPiece, json.escapeByte.
  repeat match goal with
  | |- context [if ?c then _ else _] => destruct c
  end; simpl; lia.
Qed.

Lemma str_bytes s : str (bytes s) = s.
Proof.
  unfold str, bytes. rewrite <- (string_of_list_ascii_of_string s) at 2.
  f_equal. induction (list_ascii_of_string s) as [| a l IH]; [reflexivity |].
  simpl. by rewrite ascii_N_embedding, IH.
Qed.

Lemma DecodeRune_take4 s : utf8.DecodeRune (take 4 s) = utf8.DecodeRune s.
Proof. by destruct s as [| ? [| ? [| ? [| ? ?]]]]. Qed.

Lemma unquote_high b t f :
  (128 <= b)%N ->
  json.unquote (S f) (b :: t)
  = utf8.EncodeRune (utf8.DecodeRune (b :: t)).1
    ++ json.unquote f (drop (utf8.DecodeRune (b :: t)).2 (b :: t)).
Proof.
  intros Hb. cbn [json.unquote].
  destruct (b =? 92)%N eqn:E1; [apply N.eqb_eq in E1; lia |].
  destruct (b <? utf8.RuneSelf)%N eqn:E2;
    [apply N.ltb_lt in E2; unfold utf8.RuneSelf in E2; lia |].
  by destruct (utf8.DecodeRune (b :: t)).
Qed.

(** Decoding what the encoder wrote for valid UTF-8 gives the bytes back. *)
Lemma unquote_appendString src :
  wellEncoded src -> forall n f,
  (length src <= n)%nat -> (length (json.appendString n src) < f)%nat ->
  json.unquote f (json.appendString n src) = src.
Proof.
  induction 1 as [| b r Hb _ IH | b r c size Hb Hd Hsize _ IH]; intros n f Hn Hf.
  - by destruct n, f.
  - destruct n as [| n]; [simpl in Hn; lia |].
    rewrite appendString_ascii_step in * by exact Hb.
    rewrite length_app in Hf. pose proof (asciiPiece_length b).
    destruct f as [| f]; [lia |].
    rewrite unquote_asciiPiece by exact Hb. f_equal.
    apply IH; [simpl in Hn; lia | lia].
  - destruct n as [| n]; [simpl in Hn; lia |].
    destruct (DecodeRune_prefix _ _ _ Hd Hsize) as [Hlen Hpre].
    pose proof (EncodeRune_DecodeRune _ _ _ Hd Hsize) as Henc.
    assert (Hstep : exists piece,
      json.appendString (S n) (b :: r)
      = piece ++ json.appendString n (drop size (b :: r))
      /\ (1 <= length piece)%nat
      /\ forall f' rest, json.unquote (S f') (piece ++ rest)
                         = take size (b :: r) ++ json.unquote f' rest).
    { cbn [json.appendString].
      destruct (b <? utf8.RuneSelf)%N eqn:E;
        [apply N.ltb_lt in E; unfold utf8.RuneSelf in E; lia |].
      rewrite DecodeRune_take4, Hd.
      destruct ((c =? utf8.RuneError)%N && (size =? 1)%nat) eqn:Herr.
      { apply andb_true_iff in Herr as [_ Herr]. apply Nat.eqb_eq in Herr. lia. }
      destruct ((c =? 8232)%N || (c =? 8233)%N) eqn:Hsep.
      - eexists. split; [rewrite app_assoc; reflexivity |].
        split; [rewrite length_app; simpl; lia |].
        intros f' rest. rewrite <- Henc.
        apply orb_true_iff in Hsep as [Hsep | Hsep]; apply N.eqb_eq in Hsep;
          subst c; reflexivity.
      - exists (take size (b :: r)). split; [reflexivity |].
        split; [lia |]. intros f' rest.
        assert (Hcons : exists t, take size (b :: r) ++ rest = b :: t).
        { destruct size; [lia |]. eexists. reflexivity. }
        destruct Hcons as [t Ht]. rewrite Ht, unquote_high by exact Hb.
        rewrite <- Ht, Hpre. cbn [fst snd].
        rewrite Henc. f_equal. f_equal.
        by rewrite drop_app_length'. }
    destruct Hstep as (piece & Hap & Hpiece & Hunq).
    rewrite Hap in *. rewrite length_app in Hf. destruct f as [| f]; [lia |].
    rewrite Hunq, IH.
    + apply take_drop.
    + rewrite length_drop. simpl in *. lia.
    + lia.
Qed.

Lemma escape_ascii e b : json.escape e = Some b -> (b < 128)%N.
Proof.
  unfold json.escape.
  repeat match goal with
  | |- context [if ?c then _ else _] => destruct c
  end; intros [= <-]; lia.
Qed.

(** Whatever the literal, the decoder produces valid UTF-8. *)
Lemma unquote_wellEncoded f : forall s, wellEncoded (json.unquote f s).
Proof.
  induction f as [| f IH]; intros s; [constructor |].
  cbn [json.unquote].
  destruct s as [| c r]; [constructor |].
  destruct (c =? 92)%N.
  - destruct r as [| e r1]; [constructor |].
    destruct (e =? 117)%N.
    + destruct (json.getu4 (c :: e :: r1)) as [rr |]; [| constructor].
      cbv zeta. destruct (utf16.IsSurrogate rr).
      * destruct (json.getu4 (drop 4 r1)) as [rr1 |].
        -- destruct (utf16.DecodeRune rr rr1 =? utf8.RuneError)%N;
             apply EncodeRune_wellEncoded, IH.
        -- apply EncodeRune_wellEncoded, IH.
      * apply EncodeRune_wellEncoded, IH.
    + destruct (json.escape e) as [b |] eqn:He; [| constructor].
      apply wellEncoded_ascii; [by eapply escape_ascii | apply IH].
  - destruct (c <? utf8.RuneSelf)%N eqn:E.
    + apply N.ltb_lt in E. unfold utf8.RuneSelf in E.
      apply wellEncoded_ascii; [exact E | apply IH].
    + destruct (utf8.DecodeRune (c :: r)) as [rr size].
      apply EncodeRune_wellEncoded, IH.
Qed.

(** *** Sources *)

Lemma stringValue_wellEncoded s :
  wellEncoded (bytes s) -> stringValue s = json.Str (bytes s).
Proof.
  intros Hs. unfold stringValue, literal. f_equal.
  apply unquote_appendString; [exact Hs | lia | lia].
Qed.

(** Decoding the encoding of a source whose fields are valid UTF-8 gives
    the source back. *)
Lemma Unmarshal_MarshalSource v :
  fieldsOk v -> json.Unmarshal (json.MarshalSource v) zeroSource = (v, None).
Proof.
  intros (Hid & Hname & Hurl).
  unfold json.Unmarshal, json.MarshalSource.
  rewrite bytes_str by apply encodeSource_bytes.
  rewrite parse_encodeSource. unfold sourceValue.
  rewrite !stringValue_wellEncoded by assumption.
  cbn [fold_left]. unfold json.setField.
  change (json.nameIs (bytes "id") "id") with true.
  change (json.nameIs (bytes "name") "id") with false.
  change (json.nameIs (bytes "name") "name") with true.
  change (json.nameIs (bytes "url") "id") with false.
  change (json.nameIs (bytes "url") "name") with false.
  change (json.nameIs (bytes "url") "url") with true.
  cbv iota. cbn [ID Name Url]. rewrite !str_bytes. by destruct v.
Qed.

(** The parser decodes every string it returns at the top of a value. *)
Lemma parse_strings f :
  (forall d s v rest, json.parseValue f d s = Some (v, rest) -> stringsOk v)
  /\ (forall d s ms rest, json.parseMembers f d s = Some (ms, rest) ->
        Forall (fun m => strOk m.2) ms).
Proof.
  induction f as [| f [IHv IHm]]; [split; intros; discriminate |].
  assert (Hstr : forall v, stringsOk v -> strOk v).
  { by intros []. }
  split.
  - intros d s v rest Hp. cbn [json.parseValue] in Hp.
    destruct (json.skipSpace s) as [| c r]; [discriminate |].
    destruct (c =? 123)%N.
    { destruct (json.maxNestingDepth <? d + 1)%N; [discriminate |].
      destruct (json.skipSpace r) as [| c2 r2]; [discriminate |].
      destruct (c2 =? 125)%N; [simplify_eq; constructor |].
      destruct (json.parseMembers f (d + 1) r) as [[ms rest'] |] eqn:Hm;
        [| discriminate].
      simplify_eq. by eapply IHm. }
    destruct (c =? 91)%N.
    { destruct (json.maxNestingDepth <? d + 1)%N; [discriminate |].
      destruct (json.skipSpace r) as [| c2 r2]; [discriminate |].
      destruct (c2 =? 93)%N; [by simplify_eq |].
      destruct (json.parseElems f (d + 1) r) as [[vs rest'] |]; [| discriminate].
      by simplify_eq. }
    destruct (c =? 34)%N.
    { destruct (json.scanString r) as [[lit rest'] |]; [| discriminate].
      simplify_eq. apply unquote_wellEncoded. }
    repeat match goal with
    | H : context [if ?b then _ else _] |- _ => destruct b
    | H : context [match ?x with _ => _ end] |- _ =>
      destruct x as [[]|]; try discriminate
    end; by simplify_eq.
  - intros d s ms rest Hp. cbn [json.parseMembers] in Hp.
    destruct (json.skipSpace s) as [| q r]; [discriminate |].
    destruct (negb (q =? 34)%N); [discriminate |].
    destruct (json.scanString r) as [[lit r1] |]; [| discriminate].
    cbv zeta in Hp.
    destruct (json.skipSpace r1) as [| c1 r2]; [discriminate |].
    destruct (negb (c1 =? 58)%N); [discriminate |].
    destruct (json.parseValue f d r2) as [[v r3] |] eqn:Hv; [| discriminate].
    apply IHv, Hstr in Hv.
    destruct (json.skipSpace r3) as [| c3 r4]; [discriminate |].
    destruct (c3 =? 44)%N.
    + destruct (json.parseMembers f d r4) as [[ms' rest'] |] eqn:Hm; [| discriminate].
      simplify_eq. constructor; [exact Hv | by eapply IHm].
    + destruct (c3 =? 125)%N; [| discriminate].
      simplify_eq. constructor; [exact Hv | constructor].
Qed.

Lemma setField_fieldsOk acc m :
  fieldsOk acc.1 -> strOk m.2 -> fieldsOk (json.setField acc m).1.
Proof.
  destruct acc as [v err], m as [key val]. unfold json.setField. cbn [fst snd].
  intros (Hid & Hname & Hurl) Hval.
  destruct val; try (by repeat split).
  cbn [strOk] in Hval. apply wellEncoded_str in Hval.
  repeat match goal with
  | |- context [if ?c then _ else _] => destruct c
  end; by repeat split.
Qed.

Lemma fold_setField_fieldsOk ms : forall acc,
  Forall (fun m => strOk m.2) ms -> fieldsOk acc.1 ->
  fieldsOk (fold_left json.setField ms acc).1.
Proof.
  induction ms as [| m ms IH]; intros acc Hms Hacc; [exact Hacc |].
  apply Forall_cons in Hms as [Hm Hms]. cbn [fold_left].
  apply IH; [exact Hms | by apply setField_fieldsOk].
Qed.

(** Decoding into a source with valid UTF-8 fields leaves them so. *)
Lemma Unmarshal_fieldsOk data v : fieldsOk v -> fieldsOk (json.Unmarshal data v).1.
Proof.
  intros Hv. unfold json.Unmarshal, json.parse.
  destruct (json.parseValue _ 0 (bytes data)) as [[val rest] |] eqn:Hp;
    [| exact Hv].
  apply (proj1 (parse_strings _)) in Hp.
  destruct (json.skipSpace rest); [| exact Hv].
  destruct val; try exact Hv.
  by apply fold_setField_fieldsOk.
Qed.

Lemma decoded_fieldsOk {R : Type} `{Event R} (req : R) : fieldsOk (decoded req).
Proof.
  apply Unmarshal_fieldsOk. repeat split; constructor.
Qed.

Lemma hexDigit_ascii n : (n < 16)%N -> (json.hexDigit n < 128)%N.
Proof. unfold json.hexDigit. destruct (n <? 10)%N; lia. Qed.

Lemma shiftr4_byte b : (b < 256)%N -> (N.shiftr b 4 < 16)%N.
Proof.
  intros Hb. rewrite N.shiftr_div_pow2. change (2 ^ 4)%N with 16%N.
  apply N.Div0.div_lt_upper_bound. lia.
Qed.

Lemma hexBytes_ascii u from count :
  Forall (fun b => (b < 128)%N) (uuid.hexBytes u from count).
Proof.
  unfold uuid.hexBytes. apply Forall_forall. intros b Hb.
  apply list_elem_of_In, in_flat_map in Hb as (i & _ & Hb).
  unfold uuid.hexByte in Hb.
  assert (Hbyte : (uuid.byteAt u i < 256)%N).
  { unfold uuid.byteAt. apply N.mod_lt. lia. }
  destruct Hb as [<- | [<- | []]].
  - by apply hexDigit_ascii, shiftr4_byte.
  - apply hexDigit_ascii, land15_lt.
Qed.

(** The string form of a UUID is made of hexadecimal digits and dashes. *)
Lemma uuid_String_wellEncoded u : wellEncoded (bytes (uuid.String u)).
Proof.
  unfold uuid.String.
  assert (Hascii : Forall (fun b => (b < 128)%N) (uuid.encodeHex u)).
  { unfold uuid.encodeHex. rewrite !Forall_app.
    repeat split;
      first [ apply hexBytes_ascii
            | apply (hexBytes_ascii u 0 1)
            | by repeat constructor ]. }
  rewrite bytes_str.
  - by apply ascii_wellEncoded.
  - eapply Forall_impl; [exact Hascii |]. intros b Hb. unfold isByte. simpl in *. lia.
Qed.

(** ** Further properties of the handlers *)

Lemma healthy_true e :
  healthy e = true -> configFails e = false /\ serviceFails e = false.
Proof.
  unfold healthy. intros He. apply andb_true_iff in He as [Hc Hs].
  by apply negb_true_iff in Hc, Hs.
Qed.

(** A successful update, and the update the table refuses. *)
Lemma putHandler_stores {R : Type} `{Event R} e (req : R) w :
  healthy e = true -> ID (decoded req) <> "" ->
  putHandler e req w
  = (Returned (ok (ID (decoded req))),
     {| table := <[ID (decoded req) := itemOf (decoded req)]> (table w);
        calls := calls w ++ [PutItemCall (itemOf (decoded req))] |}).
Proof.
  intros He Hne. apply healthy_true in He as [Hc Hs].
  apply String.eqb_neq in Hne.
  rewrite putHandler_unfold, Hc. cbv zeta. by rewrite Hs, Hne.
Qed.

Lemma putHandler_refused {R : Type} `{Event R} e (req : R) w :
  configFails e = false -> ID (decoded req) = "" ->
  putHandler e req w
  = (Returned (serverError "Failed to store source"),
     send (PutItemCall (itemOf (decoded req))) w).
Proof.
  intros Hc Hid. apply String.eqb_eq in Hid.
  rewrite putHandler_unfold, Hc. cbv zeta. by rewrite Hid, orb_true_r.
Qed.

(** *** Store and load *)

(** The item the write handlers build converts back to the source. *)
Lemma getSourceFromRecord_sourceItem id name url :
  getSourceFromRecord (sourceItem id name url)
  = Returned {| ID := id; Name := name; Url := url |}.
Proof.
  unfold getSourceFromRecord, stringAttr, sourceItem.
  rewrite lookup_insert_eq.
  rewrite lookup_insert_ne by discriminate. rewrite lookup_insert_eq.
  rewrite !lookup_insert_ne by discriminate. by rewrite lookup_singleton_eq.
Qed.

(** A get of [id] on a table that holds a handler-built item under it. *)
Lemma getHandler_found {R : Type} `{Event R} e' (get : R) t cs id name url :
  healthy e' = true ->
  index (pathParameters get) "id" = id -> id <> "" ->
  t !! id = Some (sourceItem id name url) ->
  response (getHandler e' get {| table := t; calls := cs |})
  = Some {| StatusCode := 200;
            ResponseBody :=
              json.MarshalSource {| ID := id; Name := name; Url := url |} |}.
Proof.
  intros He' Hid Hne Ht. apply healthy_true in He' as [Hc Hs].
  rewrite getHandler_unfold. cbv zeta. rewrite Hid.
  apply String.eqb_neq in Hne. rewrite Hne, Hc, Hs. cbn [table].
  rewrite Ht, getSourceFromRecord_sourceItem. reflexivity.
Qed.

(** X1: a get of the generated id right after a successful create returns
    200 with the record created: the generated id, and the name and url
    of the create body.  The body of the get is the encoding of that
    record, and decoding it gives the record back, whatever bytes the
    create body held. *)
Theorem create_then_get
  {R1 R2 : Type} `{Event R1} `{Event R2}
  (e e' : Env) (w : World) (post : R1) (get : R2) (u : uuid.UUID) :
  healthy e = true -> healthy e' = true ->
  uuid.New (entropy e) = Returned u ->
  index (pathParameters get) "id" = uuid.String u ->
  let v := {| ID := uuid.String u;
              Name := Name (decoded post);
              Url := Url (decoded post) |} in
  response (postHandler e post w)
  = Some {| StatusCode := 201; ResponseBody := ID (decoded post) |}
  /\ response (getHandler e' get (snd (postHandler e post w)))
     = Some {| StatusCode := 200; ResponseBody := json.MarshalSource v |}
  /\ json.Unmarshal (json.MarshalSource v) zeroSource = (v, None).
Proof.
  intros He He' Hu Hid v. destruct (healthy_true e He) as [Hc Hs].
  rewrite postHandler_unfold, Hc, Hu. cbv zeta. rewrite Hs.
  split; [reflexivity |]. split.
  - cbn [snd].
    apply getHandler_found; [exact He' | exact Hid | apply uuid_String_nonempty |].
    apply lookup_insert_eq.
  - destruct (decoded_fieldsOk post) as (_ & Hname & Hurl).
    apply Unmarshal_MarshalSource.
    split; [apply uuid_String_wellEncoded | by split].
Qed.

(** X2: an update replaces the whole record: a get of the id right after
    a successful update returns exactly the source of the update body,
    whatever was stored under that id before.  The body of the get is the
    encoding of that source, and decoding it gives the source back,
    whatever bytes the update body held. *)
Theorem update_then_get
  {R1 R2 : Type} `{Event R1} `{Event R2}
  (e e' : Env) (w : World) (put : R1) (get : R2) :
  healthy e = true -> healthy e' = true ->
  ID (decoded put) <> "" ->
  index (pathParameters get) "id" = ID (decoded put) ->
  response (putHandler e put w)
  = Some {| StatusCode := 200; ResponseBody := ID (decoded put) |}
  /\ response (getHandler e' get (snd (putHandler e put w)))
     = Some {| StatusCode := 200;
               ResponseBody := json.MarshalSource (decoded put) |}
  /\ json.Unmarshal (json.MarshalSource (decoded put)) zeroSource
     = (decoded put, None).
Proof.
  intros He He' Hne Hid.
  rewrite putHandler_stores by assumption.
  split; [reflexivity |]. split.
  - cbn [snd].
    erewrite getHandler_found;
      [| exact He' | exact Hid | exact Hne | apply lookup_insert_eq].
    by destruct (decoded put).
  - apply Unmarshal_MarshalSource, decoded_fieldsOk.
Qed.

(** X3: a get of the id right after a successful delete returns 404 with
    the not-found body. *)
Theorem delete_then_get
  {R1 R2 : Type} `{Event R1} `{Event R2}
  (e e' : Env) (w : World) (del : R1) (get : R2) :
  healthy e = true -> healthy e' = true ->
  index (pathParameters del) "id" <> "" ->
  index (pathParameters get) "id" = index (pathParameters del) "id" ->
  response (deleteHandler e del w)
  = Some {| StatusCode := 200;
            ResponseBody := index (pathParameters del) "id" |}
  /\ response (getHandler e' get (snd (deleteHandler e del w)))
     = Some {| StatusCode := 404; ResponseBody := errorBody "not found" |}.
Proof.
  intros He He' Hne Hid. destruct (healthy_true e He) as [Hc Hs].
  destruct (healthy_true e' He') as [Hc' Hs'].
  rewrite deleteHandler_unfold. cbv zeta.
  pose proof Hne as Hneb. apply String.eqb_neq in Hneb. rewrite Hneb, Hc, Hs.
  split; [reflexivity |]. cbn [snd].
  rewrite getHandler_unfold. cbv zeta. rewrite Hid, Hneb, Hc', Hs'. cbn [table].
  by rewrite lookup_delete_eq.
Qed.

(** X4: delete is idempotent: deleting an id that is not stored is
    answered 200 with the id and leaves the table as it is, so a second
    delete of the same id changes nothing. *)
Theorem delete_absent
  {R : Type} `{Event R} (e : Env) (w : World) (del : R) :
  healthy e = true ->
  index (pathParameters del) "id" <> "" ->
  table w !! index (pathParameters del) "id" = None ->
  response (deleteHandler e del w)
  = Some {| StatusCode := 200;
            ResponseBody := index (pathParameters del) "id" |}
  /\ table (snd (deleteHandler e del w)) = table w.
Proof.
  intros He Hne Habs. destruct (healthy_true e He) as [Hc Hs].
  rewrite deleteHandler_unfold. cbv zeta.
  apply String.eqb_neq in Hne. rewrite Hne, Hc, Hs.
  split; [reflexivity |]. cbn [snd table]. by apply delete_id.
Qed.

Lemma create_then_get_witness :
  response (getHandler calm getCreated (snd (postHandler calm postWithId emptyWorld)))
  = Some {| StatusCode := 200;
            ResponseBody :=
              json.MarshalSource
                {| ID := "01020304-0506-4708-890a-0b0c0d0e0f10";
                   Name := "rockyou";
                   Url := "https://example.com/rockyou.txt" |} |}.
Proof.
  exact (proj1 (proj2 (create_then_get calm calm emptyWorld postWithId getCreated
                         _ eq_refl eq_refl eq_refl eq_refl))).
Defined.

Lemma update_then_get_witness :
  ID (decoded putAbc) <> ""
  /\ response (getHandler calm getAbc (snd (putHandler calm putAbc oneRecord)))
     = Some {| StatusCode := 200;
               ResponseBody := json.MarshalSource (decoded putAbc) |}.
Proof.
  assert (Hne : ID (decoded putAbc) <> "") by discriminate.
  split; [exact Hne |].
  exact (proj1 (proj2 (update_then_get calm calm oneRecord putAbc getAbc
                         eq_refl eq_refl Hne eq_refl))).
Defined.

Lemma delete_then_get_witness :
  index (pathParameters deleteAbc) "id" <> ""
  /\ response (getHandler calm getAbc (snd (deleteHandler calm deleteAbc oneRecord)))
     = Some {| StatusCode := 404; ResponseBody := errorBody "not found" |}.
Proof.
  assert (Hne : index (pathParameters deleteAbc) "id" <> "") by discriminate.
  split; [exact Hne |].
  exact (proj2 (delete_then_get calm calm oneRecord deleteAbc getAbc
                  eq_refl eq_refl Hne eq_refl)).
Defined.

Lemma delete_absent_witness :
  table emptyWorld !! index (pathParameters deleteAbc) "id" = None
  /\ response (deleteHandler calm deleteAbc emptyWorld)
     = Some {| StatusCode := 200; ResponseBody := "abc" |}.
Proof.
  assert (Hne : index (pathParameters deleteAbc) "id" <> "") by discriminate.
  split; [reflexivity |].
  exact (proj1 (delete_absent calm emptyWorld deleteAbc eq_refl Hne eq_refl)).
Defined.

(** *** What one invocation does to the world *)

Lemma sendsAtMostOne_none m w o :
  sendsAtMostOne m w (snd (o : outcome (Response * error), w)).
Proof. exists []. simpl. rewrite app_nil_r. auto. Qed.

Lemma sendsAtMostOne_one m w c t (o : outcome (Response * error)) :
  callFits m c = true ->
  sendsAtMostOne m w (snd (o, {| table := t; calls := calls w ++ [c] |})).
Proof. intros Hc. exists [c]. simpl. by rewrite Hc. Qed.

Lemma touchesAtMostOne_same w w' : table w' = table w -> touchesAtMostOne w w'.
Proof. intros Ht. exists "". intros k' _. by rewrite Ht. Qed.

Lemma touchesAtMostOne_insert w cs k item :
  touchesAtMostOne w {| table := <[k := item]> (table w); calls := cs |}.
Proof. exists k. intros k' Hk'. simpl. by rewrite lookup_insert_ne. Qed.

Lemma touchesAtMostOne_delete w cs k :
  touchesAtMostOne w {| table := delete k (table w); calls := cs |}.
Proof. exists k. intros k' Hk'. simpl. by rewrite lookup_delete_ne. Qed.

Section Effects.

Context {R : Type} `{Event R}.
Variables (e : Env) (req : R) (w : World).

Lemma getAllHandler_effects m :
  ((m =? http.MethodGet)%string || (m =? http.MethodDelete)%string) = true ->
  sendsAtMostOne m w (snd (getAllHandler e w))
  /\ touchesAtMostOne w (snd (getAllHandler e w))
  /\ (forall err, transportError (getAllHandler e w) = Some err -> err = None).
Proof.
  intros Hm. rewrite getAllHandler_unfold. cbv zeta.
  destruct (configFails e).
  { split; [apply sendsAtMostOne_none |].
    split; [by apply touchesAtMostOne_same | discriminate]. }
  assert (Hall : forall o : outcome (Response * error),
    (forall err, transportError (o, send ScanCall w) = Some err -> err = None) ->
    sendsAtMostOne m w (snd (o, send ScanCall w))
    /\ touchesAtMostOne w (snd (o, send ScanCall w))
    /\ (forall err, transportError (o, send ScanCall w) = Some err -> err = None)).
  { intros o Ho. split; [by apply sendsAtMostOne_one |].
    split; [by apply touchesAtMostOne_same | exact Ho]. }
  destruct (serviceFails e).
  { apply Hall. unfold transportError. simpl. by intros err [= <-]. }
  destruct (convert _ _ _); apply Hall; unfold transportError; simpl;
    first [by intros err [= <-] | discriminate].
Qed.

Lemma getHandler_effects :
  sendsAtMostOne http.MethodGet w (snd (getHandler e req w))
  /\ touchesAtMostOne w (snd (getHandler e req w))
  /\ (forall err, transportError (getHandler e req w) = Some err -> err = None).
Proof.
  rewrite getHandler_unfold. cbv zeta.
  destruct (_ =? "")%string; [by apply getAllHandler_effects |].
  destruct (configFails e).
  { split; [apply sendsAtMostOne_none |].
    split; [by apply touchesAtMostOne_same | discriminate]. }
  set (c := GetItemCall _).
  assert (Hall : forall o : outcome (Response * error),
    (forall err, transportError (o, send c w) = Some err -> err = None) ->
    sendsAtMostOne http.MethodGet w (snd (o, send c w))
    /\ touchesAtMostOne w (snd (o, send c w))
    /\ (forall err, transportError (o, send c w) = Some err -> err = None)).
  { intros o Ho. split; [by apply sendsAtMostOne_one |].
    split; [by apply touchesAtMostOne_same | exact Ho]. }
  destruct (serviceFails e).
  { apply Hall. unfold transportError. simpl. by intros err [= <-]. }
  destruct (table w !! _).
  - destruct (getSourceFromRecord _); apply Hall; unfold transportError; simpl;
      first [by intros err [= <-] | discriminate].
  - apply Hall. unfold transportError. simpl. by intros err [= <-].
Qed.

Lemma postHandler_effects :
  sendsAtMostOne http.MethodPost w (snd (postHandler e req w))
  /\ touchesAtMostOne w (snd (postHandler e req w))
  /\ (forall err, transportError (postHandler e req w) = Some err -> err = None).
Proof.
  rewrite postHandler_unfold.
  destruct (configFails e).
  { split; [apply sendsAtMostOne_none |].
    split; [by apply touchesAtMostOne_same | discriminate]. }
  destruct (uuid.New _);
    try (split; [apply sendsAtMostOne_none |];
         split; [by apply touchesAtMostOne_same | discriminate]).
  cbv zeta. destruct (serviceFails e).
  - split; [by apply sendsAtMostOne_one |].
    split; [by apply touchesAtMostOne_same |].
    unfold transportError. simpl. by intros err [= <-].
  - split; [by apply sendsAtMostOne_one |].
    split; [apply touchesAtMostOne_insert |].
    unfold transportError. simpl. by intros err [= <-].
Qed.

Lemma putHandler_effects :
  sendsAtMostOne http.MethodPut w (snd (putHandler e req w))
  /\ touchesAtMostOne w (snd (putHandler e req w))
  /\ (forall err, transportError (putHandler e req w) = Some err -> err = None).
Proof.
  rewrite putHandler_unfold.
  destruct (configFails e).
  { split; [apply sendsAtMostOne_none |].
    split; [by apply touchesAtMostOne_same | discriminate]. }
  cbv zeta. destruct (serviceFails e || (ID (decoded req) =? "")%string).
  - split; [by apply sendsAtMostOne_one |].
    split; [by apply touchesAtMostOne_same |].
    unfold transportError. simpl. by intros err [= <-].
  - split; [by apply sendsAtMostOne_one |].
    split; [apply touchesAtMostOne_insert |].
    unfold transportError. simpl. by intros err [= <-].
Qed.

Lemma deleteHandler_effects :
  sendsAtMostOne http.MethodDelete w (snd (deleteHandler e req w))
  /\ touchesAtMostOne w (snd (deleteHandler e req w))
  /\ (forall err, transportError (deleteHandler e req w) = Some err -> err = None).
Proof.
  rewrite deleteHandler_unfold. cbv zeta.
  destruct (_ =? "")%string; [by apply getAllHandler_effects |].
  destruct (configFails e).
  { split; [apply sendsAtMostOne_none |].
    split; [by apply touchesAtMostOne_same | discriminate]. }
  destruct (serviceFails e).
  - split; [by apply sendsAtMostOne_one |].
    split; [by apply touchesAtMostOne_same |].
    unfold transportError. simpl. by intros err [= <-].
  - split; [by apply sendsAtMostOne_one |].
    split; [apply touchesAtMostOne_delete |].
    unfold transportError. simpl. by intros err [= <-].
Qed.

End Effects.

Lemma Legacy_handler_effects e (req : Legacy.APIGatewayProxyRequest) w :
  sendsAtMostOne (Legacy.HTTPMethod req) w (snd (Legacy.handler e req w))
  /\ touchesAtMostOne w (snd (Legacy.handler e req w))
  /\ (forall err, transportError (Legacy.handler e req w) = Some err -> err = None).
Proof.
  unfold Legacy.handler.
  destruct (_ =? http.MethodGet)%string eqn:E1.
  { apply String.eqb_eq in E1 as ->. apply getHandler_effects. }
  destruct (_ =? http.MethodPost)%string eqn:E2.
  { apply String.eqb_eq in E2 as ->. apply postHandler_effects. }
  destruct (_ =? http.MethodPut)%string eqn:E3.
  { apply String.eqb_eq in E3 as ->. apply putHandler_effects. }
  destruct (_ =? http.MethodDelete)%string eqn:E4.
  { apply String.eqb_eq in E4 as ->. apply deleteHandler_effects. }
  split; [apply sendsAtMostOne_none |].
  split; [by apply touchesAtMostOne_same |].
  unfold transportError. simpl. by intros err [= <-].
Qed.

Lemma V2_handler_effects e (req : V2.APIGatewayV2HTTPRequest) w :
  sendsAtMostOne (V2.Method req) w (snd (V2.handler e req w))
  /\ touchesAtMostOne w (snd (V2.handler e req w))
  /\ (forall err, transportError (V2.handler e req w) = Some err -> err = None).
Proof.
  unfold V2.handler.
  destruct (_ =? http.MethodGet)%string eqn:E1.
  { apply String.eqb_eq in E1 as ->. apply getHandler_effects. }
  assert (Hpanic : sendsAtMostOne (V2.Method req) w
                     (snd (pure (A := Response * error) Panicked w))
                   /\ touchesAtMostOne w
                        (snd (pure (A := Response * error) Panicked w))
                   /\ (forall err,
                         transportError (pure (A := Response * error) Panicked w)
                         = Some err -> err = None)).
  { split; [apply sendsAtMostOne_none |].
    split; [by apply touchesAtMostOne_same | discriminate]. }
  destruct (V2.Authorizer req) as [authorizer |]; [| exact Hpanic].
  destruct (V2.JWT authorizer) as [jwt |]; [| exact Hpanic].
  clear Hpanic. cbv zeta.
  destruct (negb _).
  { split; [apply sendsAtMostOne_none |].
    split; [by apply touchesAtMostOne_same |].
    unfold transportError. simpl. by intros err [= <-]. }
  destruct (_ =? http.MethodPost)%string eqn:E2.
  { apply String.eqb_eq in E2 as ->. apply postHandler_effects. }
  destruct (_ =? http.MethodPut)%string eqn:E3.
  { apply String.eqb_eq in E3 as ->. apply putHandler_effects. }
  destruct (_ =? http.MethodDelete)%string eqn:E4.
  { apply String.eqb_eq in E4 as ->. apply deleteHandler_effects. }
  split; [apply sendsAtMostOne_none |].
  split; [by apply touchesAtMostOne_same |].
  unfold transportError. simpl. by intros err [= <-].
Qed.

(** X5: one invocation sends at most one request to the service, in both
    variants, and the request fits the method: a GET sends a get or a
    scan, a POST or a PUT a put, a DELETE a delete or (without an id) a
    scan. *)
Theorem at_most_one_call
  (e : Env) (w : World) (legacy : Legacy.APIGatewayProxyRequest)
  (v2 : V2.APIGatewayV2HTTPRequest) :
  sendsAtMostOne (Legacy.HTTPMethod legacy) w (snd (Legacy.handler e legacy w))
  /\ sendsAtMostOne (V2.Method v2) w (snd (V2.handler e v2 w)).
Proof.
  split; [apply Legacy_handler_effects | apply V2_handler_effects].
Qed.

(** X6: one invocation changes at most one key of the table, in both
    variants: every other record is as it was. *)
Theorem at_most_one_key
  (e : Env) (w : World) (legacy : Legacy.APIGatewayProxyRequest)
  (v2 : V2.APIGatewayV2HTTPRequest) :
  touchesAtMostOne w (snd (Legacy.handler e legacy w))
  /\ touchesAtMostOne w (snd (V2.handler e v2 w)).
Proof.
  split; [apply Legacy_handler_effects | apply V2_handler_effects].
Qed.

(** X7: whenever a handler returns, the transport-level error beside the
    response is nil, in both variants: failures are told by the status and
    the body alone. *)
Theorem transport_error_is_nil
  (e : Env) (w : World) (legacy : Legacy.APIGatewayProxyRequest)
  (v2 : V2.APIGatewayV2HTTPRequest) :
  (forall err, transportError (Legacy.handler e legacy w) = Some err -> err = None)
  /\ (forall err, transportError (V2.handler e v2 w) = Some err -> err = None).
Proof.
  split; [apply Legacy_handler_effects | apply V2_handler_effects].
Qed.

(** *** Failures *)

(** X8: when the service call fails, every operation is answered 500 with
    the error body of that operation: the list, the get, the create, the
    update and the delete. *)
Theorem service_failure_is_500
  {R : Type} `{Event R} (e : Env) (req : R) (w : World) :
  configFails e = false -> serviceFails e = true -> entropy e <> None ->
  response (getAllHandler e w)
  = Some {| StatusCode := 500;
            ResponseBody := errorBody "Failed to retrieve sources" |}
  /\ (index (pathParameters req) "id" <> "" ->
      response (getHandler e req w)
      = Some {| StatusCode := 500;
                ResponseBody := errorBody "Failed to retrieve source" |}
      /\ response (deleteHandler e req w)
         = Some {| StatusCode := 500;
                   ResponseBody := errorBody "Failed to delete source" |})
  /\ response (postHandler e req w)
     = Some {| StatusCode := 500;
               ResponseBody := errorBody "Failed to store source" |}
  /\ response (putHandler e req w)
     = Some {| StatusCode := 500;
               ResponseBody := errorBody "Failed to store source" |}.
Proof.
  intros Hc Hs Hrand.
  rewrite getAllHandler_unfold, getHandler_unfold, deleteHandler_unfold,
    postHandler_unfold, putHandler_unfold.
  cbv zeta. rewrite Hc, Hs.
  split; [reflexivity |]. split.
  { intros Hid. apply String.eqb_neq in Hid. rewrite Hid. by split. }
  split; [| reflexivity].
  unfold uuid.New, uuid.NewRandom. by destruct (entropy e).
Qed.

Lemma service_failure_is_500_witness :
  response (postHandler outage postWithId oneRecord)
  = Some {| StatusCode := 500;
            ResponseBody := errorBody "Failed to store source" |}
  /\ response (getHandler outage getAbc oneRecord)
     = Some {| StatusCode := 500;
               ResponseBody := errorBody "Failed to retrieve source" |}.
Proof.
  destruct (service_failure_is_500 outage postWithId oneRecord
              eq_refl eq_refl ltac:(discriminate)) as (_ & _ & Hpost & _).
  destruct (service_failure_is_500 outage getAbc oneRecord
              eq_refl eq_refl ltac:(discriminate)) as (_ & Hget & _).
  split; [exact Hpost |]. apply Hget. discriminate.
Defined.

(** X9: when the AWS configuration cannot be loaded the process ends
    ([log.Fatalf]) before any request is sent: a request that reaches an
    operation gets no response, and the world is as it was. *)
Theorem config_failure_exits
  (e : Env) (w : World) (legacy : Legacy.APIGatewayProxyRequest)
  (v2 : V2.APIGatewayV2HTTPRequest) :
  configFails e = true ->
  supported (Legacy.HTTPMethod legacy) = true ->
  supported (V2.Method v2) = true ->
  V2.Method v2 = http.MethodGet \/ hasWriteScope v2 = true ->
  Legacy.handler e legacy w = (Exited, w)
  /\ V2.handler e v2 w = (Exited, w).
Proof.
  intros Hc Hl Hv Hgate.
  assert (Hall : forall R (H : Event R) (req : R),
    getHandler e req w = (Exited, w) /\ postHandler e req w = (Exited, w)
    /\ putHandler e req w = (Exited, w) /\ deleteHandler e req w = (Exited, w)).
  { intros R H req.
    rewrite getHandler_unfold, postHandler_unfold, putHandler_unfold,
      deleteHandler_unfold, getAllHandler_unfold.
    cbv zeta. rewrite Hc. repeat split; by destruct (_ =? "")%string. }
  destruct (Hall _ _ legacy) as (Hg1 & Hp1 & Hu1 & Hd1).
  destruct (Hall _ _ v2) as (Hg2 & Hp2 & Hu2 & Hd2).
  unfold supported in Hl, Hv. split.
  - clear Hv. unfold Legacy.handler.
    destruct (Legacy.HTTPMethod legacy =? http.MethodGet)%string; [exact Hg1 |].
    destruct (Legacy.HTTPMethod legacy =? http.MethodPost)%string; [exact Hp1 |].
    destruct (Legacy.HTTPMethod legacy =? http.MethodPut)%string; [exact Hu1 |].
    destruct (Legacy.HTTPMethod legacy =? http.MethodDelete)%string;
      [exact Hd1 | discriminate].
  - clear Hl.
    destruct (V2.Method v2 =? http.MethodGet)%string eqn:Hget.
    { unfold V2.handler. by rewrite Hget. }
    destruct Hgate as [Hm | Hs]; [rewrite Hm in Hget; discriminate |].
    apply hasWriteScope_claims in Hs as (claims & Hclaims & Hs).
    rewrite (V2_handler_claims e v2 w claims Hget Hclaims), Hs. cbn [negb].
    destruct (V2.Method v2 =? http.MethodPost)%string; [exact Hp2 |].
    destruct (V2.Method v2 =? http.MethodPut)%string; [exact Hu2 |].
    destruct (V2.Method v2 =? http.MethodDelete)%string;
      [exact Hd2 | discriminate].
Qed.

Lemma config_failure_exits_witness :
  Legacy.handler unconfigured getAbcLegacy oneRecord = (Exited, oneRecord)
  /\ V2.handler unconfigured putAbc oneRecord = (Exited, oneRecord).
Proof.
  apply (config_failure_exits unconfigured oneRecord getAbcLegacy putAbc);
    [reflexivity | reflexivity | reflexivity | by right].
Defined.

(** *** Bodies that are not JSON *)

Lemma decoded_invalid {R : Type} `{Event R} (req : R) :
  json.Valid (body req) = false -> decoded req = zeroSource.
Proof.
  unfold decoded, json.Valid, json.Unmarshal.
  by destruct (json.parse (bytes (body req))).
Qed.

(** X10: a body that is not valid JSON is not refused by the handlers:
    they go on with the zero source.  A create stores a record with empty
    name and url under the generated id and answers 201 with an empty
    body; an update sends the all-empty record, which the table refuses
    for its empty key, and answers 500 with the store error, nothing
    stored. *)
Theorem invalid_body_is_zero_source
  {R : Type} `{Event R} (e : Env) (req : R) (w : World) (u : uuid.UUID) :
  json.Valid (body req) = false ->
  healthy e = true -> uuid.New (entropy e) = Returned u ->
  postHandler e req w
  = (Returned ({| StatusCode := 201; ResponseBody := "" |}, None),
     {| table := <[uuid.String u := sourceItem (uuid.String u) "" ""]> (table w);
        calls := calls w ++ [PutItemCall (sourceItem (uuid.String u) "" "")] |})
  /\ putHandler e req w
     = (Returned ({| StatusCode := 500;
                     ResponseBody := errorBody "Failed to store source" |}, None),
        {| table := table w;
           calls := calls w ++ [PutItemCall (sourceItem "" "" "")] |}).
Proof.
  intros Hbody He Hu. apply healthy_true in He as [Hc Hs].
  rewrite postHandler_unfold, putHandler_unfold. cbv zeta.
  rewrite (decoded_invalid req Hbody), Hc, Hs, Hu. by split.
Qed.

Lemma invalid_body_is_zero_source_witness :
  json.Valid (body notJson) = false
  /\ response (postHandler calm notJson oneRecord)
     = Some {| StatusCode := 201; ResponseBody := "" |}
  /\ response (putHandler calm notJson oneRecord)
     = Some {| StatusCode := 500;
               ResponseBody := errorBody "Failed to store source" |}
  /\ table (snd (putHandler calm notJson oneRecord)) = table oneRecord.
Proof.
  assert (Hbody : json.Valid (body notJson) = false) by reflexivity.
  split; [exact Hbody |].
  destruct (invalid_body_is_zero_source calm notJson oneRecord _
              Hbody eq_refl eq_refl) as [Hpost Hput].
  rewrite Hpost, Hput. by repeat split.
Defined.

(** *** Writes *)

(** X11: a successful create whose generated id is not in the table adds
    exactly one record: the table grows by one, every record stored
    before is still there unchanged, and the new record has the generated
    id, with the id of the request body playing no part. *)
Theorem create_adds_one_record
  {R : Type} `{Event R} (e : Env) (req : R) (w : World) (u : uuid.UUID) :
  healthy e = true -> uuid.New (entropy e) = Returned u ->
  table w !! uuid.String u = None ->
  let t' := table (snd (postHandler e req w)) in
  size t' = S (size (table w))
  /\ (forall k item, table w !! k = Some item -> t' !! k = Some item)
  /\ t' !! uuid.String u
     = Some (sourceItem (uuid.String u) (Name (decoded req)) (Url (decoded req))).
Proof.
  intros He Hu Hfresh. apply healthy_true in He as [Hc Hs].
  rewrite postHandler_unfold, Hc, Hu. cbv zeta. rewrite Hs. cbn [snd table].
  split; [by apply map_size_insert_None |].
  split; [| apply lookup_insert_eq].
  intros k item Hk. rewrite lookup_insert_ne; [exact Hk |].
  intros <-. by rewrite Hfresh in Hk.
Qed.

Lemma create_adds_one_record_witness :
  size (table (snd (postHandler calm postWithId oneRecord))) = 2%nat.
Proof.
  assert (Hfresh : table oneRecord !! "01020304-0506-4708-890a-0b0c0d0e0f10"
                   = None) by reflexivity.
  exact (proj1 (create_adds_one_record calm postWithId oneRecord _
                  eq_refl eq_refl Hfresh)).
Defined.

(** X12: a successful update is an upsert under the id of the body,
    which is not empty then: the table after it is the table before with
    the record of the body put under that id, which replaces a record
    stored there and creates one otherwise; running the same update again
    changes nothing. *)
Theorem update_is_upsert
  {R : Type} `{Event R} (e e' : Env) (req : R) (w : World) :
  healthy e = true -> healthy e' = true -> ID (decoded req) <> "" ->
  let t' := table (snd (putHandler e req w)) in
  t' = <[ID (decoded req) := itemOf (decoded req)]> (table w)
  /\ size t' = match table w !! ID (decoded req) with
                | Some _ => size (table w)
                | None => S (size (table w))
                end
  /\ table (snd (putHandler e' req (snd (putHandler e req w)))) = t'.
Proof.
  intros He He' Hne. rewrite !putHandler_stores by assumption.
  cbn [snd table]. split; [reflexivity |]. split.
  - destruct (table w !! ID (decoded req)) eqn:Hk.
    + by apply map_size_insert_Some.
    + by apply map_size_insert_None.
  - apply insert_insert_eq.
Qed.

Lemma update_is_upsert_witness :
  ID (decoded putAbc) <> ""
  /\ size (table (snd (putHandler calm putAbc oneRecord))) = 1%nat
  /\ size (table (snd (putHandler calm putAbc emptyWorld))) = 1%nat.
Proof.
  assert (Hne : ID (decoded putAbc) <> "") by discriminate.
  split; [exact Hne |]. split.
  - exact (proj1 (proj2 (update_is_upsert calm calm putAbc oneRecord
                           eq_refl eq_refl Hne))).
  - exact (proj1 (proj2 (update_is_upsert calm calm putAbc emptyWorld
                           eq_refl eq_refl Hne))).
Defined.

(** X24: an update whose body carries no id, or an empty one, is never
    stored: the handler sends the record as it is, with no check of its
    own, the table refuses the empty key, and the answer is 500 with the
    store error, the table as it was. *)
Theorem update_without_id_is_refused
  {R : Type} `{Event R} (e : Env) (req : R) (w : World) :
  configFails e = false -> ID (decoded req) = "" ->
  response (putHandler e req w)
  = Some {| StatusCode := 500;
            ResponseBody := errorBody "Failed to store source" |}
  /\ table (snd (putHandler e req w)) = table w
  /\ calls (snd (putHandler e req w))
     = calls w ++ [PutItemCall (sourceItem "" (Name (decoded req))
                                  (Url (decoded req)))].
Proof.
  intros Hc Hid. rewrite putHandler_refused by assumption.
  unfold itemOf. rewrite Hid. by repeat split.
Qed.

Lemma update_without_id_is_refused_witness :
  ID (decoded putNoId) = ""
  /\ response (putHandler calm putNoId oneRecord)
     = Some {| StatusCode := 500;
               ResponseBody := errorBody "Failed to store source" |}
  /\ table (snd (putHandler calm putNoId oneRecord)) = table oneRecord.
Proof.
  assert (Hid : ID (decoded putNoId) = "") by reflexivity.
  destruct (update_without_id_is_refused calm putNoId oneRecord eq_refl Hid)
    as (Hr & Ht & _).
  split; [exact Hid |]. split; [exact Hr | exact Ht].
Defined.

(** *** The list *)

Lemma convert_fills items : forall pre,
  Forall (fun rec => exists v, getSourceFromRecord rec = Returned v) items ->
  convert items (length pre) (Slice (pre ++ replicate (length items) zeroSource))
  = Returned (Slice (pre ++ map recordSource items)).
Proof.
  induction items as [| rec items IH]; intros pre Hall.
  { simpl. reflexivity. }
  apply Forall_cons in Hall as [[v Hv] Hall].
  cbn [convert length replicate map]. rewrite Hv.
  unfold store. rewrite length_app. cbn [length].
  destruct (length pre <? length pre + S (length (replicate (length items) zeroSource)))%nat
    eqn:Hlt; [| apply Nat.ltb_ge in Hlt; lia].
  rewrite insert_app_r_alt by lia. rewrite Nat.sub_diag. cbn [insert list_insert].
  specialize (IH (pre ++ [v]) Hall).
  rewrite length_app, <- !app_assoc in IH. cbn [length app] in IH.
  rewrite Nat.add_1_r in IH. rewrite IH.
  unfold recordSource at 2. by rewrite Hv.
Qed.

Lemma convert_make items :
  Forall (fun rec => exists v, getSourceFromRecord rec = Returned v) items ->
  convert items 0 (make (length items))
  = Returned (Slice (map recordSource items)).
Proof. intros Hall. exact (convert_fills items [] Hall). Qed.

Lemma getSourceFromRecord_not_Exited rec : getSourceFromRecord rec <> Exited.
Proof.
  unfold getSourceFromRecord.
  destruct (stringAttr_cases rec "id") as [-> | [i ->]]; [discriminate |].
  destruct (stringAttr_cases rec "name") as [-> | [n ->]]; [discriminate |].
  destruct (stringAttr_cases rec "url") as [-> | [u ->]]; discriminate.
Qed.

Lemma convert_panics items : forall rec i sources,
  rec ∈ items -> getSourceFromRecord rec = Panicked ->
  convert items i sources = Panicked.
Proof.
  induction items as [| r items IH]; intros rec i sources Hin Hrec.
  { by apply elem_of_nil in Hin. }
  cbn [convert].
  destruct (getSourceFromRecord r) as [v | |] eqn:Hr; [| reflexivity |].
  - apply elem_of_cons in Hin as [-> | Hin]; [congruence |].
    unfold store. destruct sources as [| l]; [reflexivity |].
    destruct (i <? length l)%nat; [| reflexivity]. by eapply IH.
  - by apply getSourceFromRecord_not_Exited in Hr.
Qed.

Lemma wellFormed_converts t rec :
  wellFormed t -> rec ∈ map snd (map_to_list t) ->
  exists v, getSourceFromRecord rec = Returned v.
Proof.
  intros Ht Hin. apply list_elem_of_fmap in Hin as [[k item] [-> Hin]].
  apply elem_of_map_to_list in Hin. destruct (Ht _ _ Hin) as (n & u & ->).
  eexists. apply getSourceFromRecord_sourceItem.
Qed.

Lemma oneRecord_wellFormed : wellFormed (table oneRecord).
Proof.
  intros k item Hk. cbn [table oneRecord] in Hk.
  apply lookup_singleton_Some in Hk as [<- <-]. eauto.
Qed.

(** The list of a table of handler-built records. *)
Lemma getAllHandler_listing e w :
  healthy e = true -> wellFormed (table w) ->
  response (getAllHandler e w)
  = Some {| StatusCode := 200;
            ResponseBody := json.MarshalSources (Slice (storedSources (table w))) |}.
Proof.
  intros He Hw. apply healthy_true in He as [Hc Hs].
  rewrite getAllHandler_unfold, Hc. cbv zeta. rewrite Hs.
  rewrite convert_make; [reflexivity |].
  apply Forall_forall. intros rec Hin. by eapply wellFormed_converts.
Qed.

Lemma storedSources_elem t v :
  wellFormed t -> v ∈ storedSources t <-> t !! ID v = Some (itemOf v).
Proof.
  intros Hw. unfold storedSources. split.
  - intros Hin. apply list_elem_of_fmap in Hin as [rec [-> Hin]].
    apply list_elem_of_fmap in Hin as [[k item] [-> Hin]].
    apply elem_of_map_to_list in Hin. destruct (Hw _ _ Hin) as (n & u & ->).
    cbn [snd]. unfold recordSource. rewrite getSourceFromRecord_sourceItem.
    exact Hin.
  - intros Hv. apply list_elem_of_fmap. exists (itemOf v). split.
    + unfold recordSource, itemOf. rewrite getSourceFromRecord_sourceItem.
      by destruct v.
    + apply list_elem_of_fmap. exists (ID v, itemOf v). split; [reflexivity |].
      by apply elem_of_map_to_list.
Qed.

(** X13: on a table of handler-built records the list is answered 200
    with the encoding of a slice that holds every stored record once:
    it has as many elements as the table has records, and a source is in
    it exactly when its item is stored under its id. *)
Theorem list_returns_every_record (e : Env) (w : World) :
  healthy e = true -> wellFormed (table w) ->
  response (getAllHandler e w)
  = Some {| StatusCode := 200;
            ResponseBody := json.MarshalSources (Slice (storedSources (table w))) |}
  /\ length (storedSources (table w)) = size (table w)
  /\ forall v, v ∈ storedSources (table w) <-> table w !! ID v = Some (itemOf v).
Proof.
  intros He Hw. split; [by apply getAllHandler_listing |]. split.
  - unfold storedSources. by rewrite !length_map, length_map_to_list.
  - intros v. by apply storedSources_elem.
Qed.

Lemma list_returns_every_record_witness :
  wellFormed (table oneRecord)
  /\ length (storedSources (table oneRecord)) = 1%nat.
Proof.
  pose proof oneRecord_wellFormed as Hw.
  split; [exact Hw |].
  destruct (list_returns_every_record calm oneRecord eq_refl Hw) as (_ & Hlen & _).
  rewrite Hlen. reflexivity.
Defined.

(** X14: one stored item that [getSourceFromRecord] cannot convert makes
    the get of its id panic, and the list of all records too, whatever
    else the table holds. *)
Theorem corrupt_record_panics
  {R : Type} `{Event R} (e : Env) (req : R) (w : World) (k : string) (item : Item) :
  healthy e = true ->
  table w !! k = Some item -> getSourceFromRecord item = Panicked ->
  k <> "" -> index (pathParameters req) "id" = k ->
  fst (getAllHandler e w) = Panicked /\ fst (getHandler e req w) = Panicked.
Proof.
  intros He Hk Hitem Hne Hid. apply healthy_true in He as [Hc Hs].
  rewrite getHandler_unfold, getAllHandler_unfold. cbv zeta.
  apply String.eqb_neq in Hne. rewrite Hid, Hne, Hc, Hs, Hk, Hitem.
  split; [| reflexivity].
  rewrite (convert_panics _ item); [reflexivity | | exact Hitem].
  apply list_elem_of_fmap. exists (k, item). split; [reflexivity |].
  by apply elem_of_map_to_list.
Qed.

Lemma corrupt_record_panics_witness :
  getSourceFromRecord corruptItem = Panicked
  /\ fst (getAllHandler calm corrupted) = Panicked
  /\ fst (getHandler calm getCorrupt corrupted) = Panicked.
Proof.
  assert (Hitem : getSourceFromRecord corruptItem = Panicked) by reflexivity.
  split; [exact Hitem |].
  apply (corrupt_record_panics calm getCorrupt corrupted "1" corruptItem);
    [reflexivity | reflexivity | exact Hitem | discriminate | reflexivity].
Defined.

(** *** Tables written by the handlers *)

Lemma wellFormed_insert t id name url :
  wellFormed t -> wellFormed (<[id := sourceItem id name url]> t).
Proof.
  intros Ht k item Hk. destruct (decide (id = k)) as [<- | Hne].
  - rewrite lookup_insert_eq in Hk. injection Hk as <-. eauto.
  - rewrite lookup_insert_ne in Hk by exact Hne. by apply Ht.
Qed.

Lemma wellFormed_delete t id : wellFormed t -> wellFormed (delete id t).
Proof.
  intros Ht k item Hk. apply lookup_delete_Some in Hk as [_ Hk]. by apply Ht.
Qed.

Lemma invoke_wellFormed w s :
  wellFormed (table w) -> wellFormed (table (invoke w s)).
Proof.
  destruct s as [e req]. unfold invoke. cbn [fst snd]. intros Hw.
  destruct (V2.Method req =? http.MethodGet)%string eqn:Hm.
  { unfold V2.handler. rewrite Hm.
    by rewrite (proj1 (getHandler_reads e req w)). }
  destruct (claimsOf req) as [claims |] eqn:Hclaims.
  2: { by rewrite (V2_handler_no_claims e req w Hm Hclaims). }
  rewrite (V2_handler_claims e req w claims Hm Hclaims).
  destruct (negb _); [exact Hw |].
  destruct (V2.Method req =? http.MethodPost)%string.
  { rewrite postHandler_unfold.
    destruct (configFails e); [exact Hw |].
    destruct (uuid.New _); try exact Hw. cbv zeta.
    destruct (serviceFails e); [exact Hw |]. by apply wellFormed_insert. }
  destruct (V2.Method req =? http.MethodPut)%string.
  { rewrite putHandler_unfold.
    destruct (configFails e); [exact Hw |]. cbv zeta.
    destruct (serviceFails e || _); [exact Hw |]. by apply wellFormed_insert. }
  destruct (V2.Method req =? http.MethodDelete)%string; [| exact Hw].
  rewrite deleteHandler_unfold. cbv zeta.
  destruct (_ =? "")%string; [by rewrite getAllHandler_world |].
  destruct (configFails e); [exact Hw |].
  destruct (serviceFails e); [exact Hw |]. by apply wellFormed_delete.
Qed.

Lemma run_wellFormed steps : forall w,
  wellFormed (table w) -> wellFormed (table (run steps w)).
Proof.
  induction steps as [| s steps IH]; intros w Hw; [exact Hw |].
  simpl. apply IH. by apply invoke_wellFormed.
Qed.

(** X15: whatever requests are served, with whatever failures, starting
    from the empty table, every record of the table is an item with the
    string attributes id, name and url, stored under its id: the handlers
    never write an item that [getSourceFromRecord] cannot read back. *)
Theorem written_tables_are_wellFormed
  (steps : list (Env * V2.APIGatewayV2HTTPRequest)) :
  wellFormed (table (run steps emptyWorld))
  /\ forall k item, table (run steps emptyWorld) !! k = Some item ->
                    exists v, getSourceFromRecord item = Returned v /\ ID v = k.
Proof.
  assert (Hw : wellFormed (table (run steps emptyWorld))).
  { apply run_wellFormed. intros k item Hk. simpl in Hk.
    by rewrite lookup_empty in Hk. }
  split; [exact Hw |].
  intros k item Hk. destruct (Hw _ _ Hk) as (n & u & ->).
  eexists. split; [apply getSourceFromRecord_sourceItem | reflexivity].
Qed.

Section NoPanic.

Context {R : Type} `{Event R}.
Variables (e : Env) (req : R) (w : World).
Hypothesis Hw : wellFormed (table w).

Lemma getAllHandler_no_panic : fst (getAllHandler e w) <> Panicked.
Proof.
  rewrite getAllHandler_unfold. cbv zeta.
  destruct (configFails e); [discriminate |].
  destruct (serviceFails e); [discriminate |].
  rewrite convert_make; [discriminate |].
  apply Forall_forall. intros rec Hin. by eapply wellFormed_converts.
Qed.

Lemma getHandler_no_panic : fst (getHandler e req w) <> Panicked.
Proof.
  rewrite getHandler_unfold. cbv zeta.
  destruct (_ =? "")%string; [apply getAllHandler_no_panic |].
  destruct (configFails e); [discriminate |].
  destruct (serviceFails e); [discriminate |].
  destruct (table w !! _) as [item |] eqn:Hk; [| discriminate].
  destruct (Hw _ _ Hk) as (n & u & ->).
  rewrite getSourceFromRecord_sourceItem. discriminate.
Qed.

Lemma postHandler_no_panic :
  entropy e <> None -> fst (postHandler e req w) <> Panicked.
Proof.
  intros Hrand. rewrite postHandler_unfold.
  destruct (configFails e); [discriminate |].
  unfold uuid.New, uuid.NewRandom.
  destruct (entropy e); [| congruence]. cbv zeta.
  destruct (serviceFails e); discriminate.
Qed.

Lemma putHandler_no_panic : fst (putHandler e req w) <> Panicked.
Proof.
  rewrite putHandler_unfold. destruct (configFails e); [discriminate |].
  cbv zeta. destruct (serviceFails e || _); discriminate.
Qed.

Lemma deleteHandler_no_panic : fst (deleteHandler e req w) <> Panicked.
Proof.
  rewrite deleteHandler_unfold. cbv zeta.
  destruct (_ =? "")%string; [apply getAllHandler_no_panic |].
  destruct (configFails e); [discriminate |].
  destruct (serviceFails e); discriminate.
Qed.

End NoPanic.

(** X16: on a table of handler-built records no request makes the
    payload-v1 handler panic as long as the random source yields its
    bytes, and none makes the v2 handler panic when moreover the request
    is a GET or its event carries claims: the unchecked type assertions
    and the indexed stores of the list loop are safe there.  The claims
    are needed: a v2 request that is not a GET and whose event carries
    none does panic, on any table. *)
Theorem no_panic_on_written_table
  (e : Env) (w : World) (legacy : Legacy.APIGatewayProxyRequest)
  (v2 : V2.APIGatewayV2HTTPRequest) :
  wellFormed (table w) -> entropy e <> None ->
  fst (Legacy.handler e legacy w) <> Panicked
  /\ (fst (V2.handler e v2 w) = Panicked
      <-> V2.Method v2 <> http.MethodGet /\ claimsOf v2 = None).
Proof.
  intros Hw Hrand. split.
  - unfold Legacy.handler.
    destruct (_ =? http.MethodGet)%string; [by apply getHandler_no_panic |].
    destruct (_ =? http.MethodPost)%string; [by apply postHandler_no_panic |].
    destruct (_ =? http.MethodPut)%string; [by apply putHandler_no_panic |].
    destruct (_ =? http.MethodDelete)%string;
      [by apply deleteHandler_no_panic | discriminate].
  - destruct (V2.Method v2 =? http.MethodGet)%string eqn:Hm.
    { split.
      - unfold V2.handler. rewrite Hm. intros Hp.
        by apply (getHandler_no_panic e v2 w Hw) in Hp.
      - apply String.eqb_eq in Hm. by intros [Hne _]. }
    pose proof (proj1 (String.eqb_neq _ _) Hm) as Hne.
    destruct (claimsOf v2) as [claims |] eqn:Hc.
    2: { by rewrite (V2_handler_no_claims e v2 w Hm Hc). }
    split; [| by intros [_ ?]].
    rewrite (V2_handler_claims e v2 w claims Hm Hc). intros Hp. exfalso.
    revert Hp. destruct (negb _); [discriminate |].
    destruct (_ =? http.MethodPost)%string; [by apply postHandler_no_panic |].
    destruct (_ =? http.MethodPut)%string; [by apply putHandler_no_panic |].
    destruct (_ =? http.MethodDelete)%string;
      [by apply deleteHandler_no_panic | discriminate].
Qed.

Lemma no_panic_on_written_table_witness :
  wellFormed (table (run session oneRecord))
  /\ fst (Legacy.handler calm getAbcLegacy (run session oneRecord)) <> Panicked
  /\ (fst (V2.handler calm postNoAuthorizer (run session oneRecord)) = Panicked
      <-> V2.Method postNoAuthorizer <> http.MethodGet
          /\ claimsOf postNoAuthorizer = None).
Proof.
  assert (Hw : wellFormed (table (run session oneRecord)))
    by apply run_wellFormed, oneRecord_wellFormed.
  split; [exact Hw |].
  exact (no_panic_on_written_table calm (run session oneRecord)
           getAbcLegacy postNoAuthorizer Hw ltac:(discriminate)).
Defined.

(** *** What is written reads back *)

(** X17: encoding a source whose three fields are valid UTF-8 and decoding
    the result gives the source back, with no error: the escapes the
    encoder writes for quotes, backslashes, control characters, the HTML
    characters and U+2028 and U+2029 are all undone by the decoder. *)
Theorem marshal_then_unmarshal (v : Source) :
  validSource v = true ->
  json.Valid (json.MarshalSource v) = true
  /\ json.Unmarshal (json.MarshalSource v) zeroSource = (v, None).
Proof.
  intros Hv. split; [apply MarshalSource_valid |].
  by apply Unmarshal_MarshalSource, validSource_fieldsOk.
Qed.

Lemma marshal_then_unmarshal_witness :
  validSource cafe = true
  /\ json.Unmarshal (json.MarshalSource cafe) zeroSource = (cafe, None).
Proof.
  assert (Hv : validSource cafe = true) by reflexivity.
  split; [exact Hv |]. exact (proj2 (marshal_then_unmarshal cafe Hv)).
Defined.

(** X18: whatever the request body, the three fields of the source a
    write handler decodes from it are valid UTF-8: the decoder replaces
    every byte that is not part of a well-formed encoding, and every
    escape that names no rune, by U+FFFD. *)
Theorem decoded_is_valid_utf8 {R : Type} `{Event R} (req : R) :
  validSource (decoded req) = true.
Proof. apply validSource_fieldsOk, decoded_fieldsOk. Qed.

(** X19: an update whose body is the encoding of a source with valid
    UTF-8 fields and a non-empty id is echoed: the handler decodes that
    very source, and a get of its id right after it answers with the
    bytes of the update body. *)
Theorem canonical_update_is_echoed
  {R1 R2 : Type} `{Event R1} `{Event R2}
  (e e' : Env) (w : World) (put : R1) (get : R2) (v : Source) :
  healthy e = true -> healthy e' = true ->
  validSource v = true -> ID v <> "" ->
  body put = json.MarshalSource v ->
  index (pathParameters get) "id" = ID v ->
  decoded put = v
  /\ response (getHandler e' get (snd (putHandler e put w)))
     = Some {| StatusCode := 200; ResponseBody := body put |}.
Proof.
  intros He He' Hv Hne Hbody Hid. destruct (healthy_true e He) as [Hc Hs].
  assert (Hdec : decoded put = v).
  { unfold decoded. rewrite Hbody, Unmarshal_MarshalSource; [reflexivity |].
    by apply validSource_fieldsOk. }
  split; [exact Hdec |].
  rewrite putHandler_stores; [| exact He | by rewrite Hdec].
  rewrite Hdec, Hbody. cbn [snd].
  erewrite getHandler_found;
    [| exact He' | exact Hid | exact Hne | apply lookup_insert_eq].
  by destruct v.
Qed.

Lemma canonical_update_is_echoed_witness :
  validSource cafe = true
  /\ response (getHandler calm getCafe (snd (putHandler calm putCafe emptyWorld)))
     = Some {| StatusCode := 200; ResponseBody := body putCafe |}.
Proof.
  assert (Hv : validSource cafe = true) by reflexivity.
  assert (Hne : ID cafe <> "") by discriminate.
  split; [exact Hv |].
  exact (proj2 (canonical_update_is_echoed calm calm emptyWorld putCafe getCafe cafe
                  eq_refl eq_refl Hv Hne eq_refl eq_refl)).
Defined.

(** *** Writes and the list *)

(** X20: after a successful create on a table of handler-built records
    the list holds the record created, under the generated id, and
    agrees with the list before on every source with another id. *)
Theorem list_after_create
  {R : Type} `{Event R} (e e' : Env) (req : R) (w : World) (u : uuid.UUID) :
  healthy e = true -> healthy e' = true -> wellFormed (table w) ->
  uuid.New (entropy e) = Returned u ->
  let w' := snd (postHandler e req w) in
  let v := {| ID := uuid.String u;
              Name := Name (decoded req);
              Url := Url (decoded req) |} in
  response (getAllHandler e' w')
  = Some {| StatusCode := 200;
            ResponseBody := json.MarshalSources (Slice (storedSources (table w'))) |}
  /\ v ∈ storedSources (table w')
  /\ forall v', ID v' <> uuid.String u ->
       (v' ∈ storedSources (table w') <-> v' ∈ storedSources (table w)).
Proof.
  intros He He' Hw Hu. destruct (healthy_true e He) as [Hc Hs].
  rewrite postHandler_unfold, Hc, Hu. cbv zeta. rewrite Hs. cbn [snd].
  set (item := sourceItem _ _ _).
  assert (Hw' : wellFormed (<[uuid.String u := item]> (table w)))
    by (by apply wellFormed_insert).
  split; [by apply getAllHandler_listing |]. split.
  - apply storedSources_elem; [exact Hw' |]. apply lookup_insert_eq.
  - intros v' Hne. rewrite !storedSources_elem by assumption. cbn [table].
    by rewrite lookup_insert_ne.
Qed.

Lemma list_after_create_witness :
  wellFormed (table oneRecord)
  /\ {| ID := "01020304-0506-4708-890a-0b0c0d0e0f10"; Name := "rockyou";
        Url := "https://example.com/rockyou.txt" |}
     ∈ storedSources (table (snd (postHandler calm postWithId oneRecord))).
Proof.
  pose proof oneRecord_wellFormed as Hw.
  split; [exact Hw |].
  exact (proj1 (proj2 (list_after_create calm calm postWithId oneRecord _
                         eq_refl eq_refl Hw eq_refl))).
Defined.

(** X21: after a successful delete of an id on a table of handler-built
    records the list holds exactly the sources it held before whose id is
    not the deleted one. *)
Theorem list_after_delete
  {R : Type} `{Event R} (e e' : Env) (req : R) (w : World) :
  healthy e = true -> healthy e' = true -> wellFormed (table w) ->
  index (pathParameters req) "id" <> "" ->
  let w' := snd (deleteHandler e req w) in
  response (getAllHandler e' w')
  = Some {| StatusCode := 200;
            ResponseBody := json.MarshalSources (Slice (storedSources (table w'))) |}
  /\ forall v, v ∈ storedSources (table w')
               <-> v ∈ storedSources (table w)
                   /\ ID v <> index (pathParameters req) "id".
Proof.
  intros He He' Hw Hne. destruct (healthy_true e He) as [Hc Hs].
  rewrite deleteHandler_unfold. cbv zeta.
  pose proof Hne as Hneb. apply String.eqb_neq in Hneb. rewrite Hneb, Hc, Hs.
  cbn [snd].
  assert (Hw' : wellFormed (delete (index (pathParameters req) "id") (table w)))
    by (by apply wellFormed_delete).
  split; [by apply getAllHandler_listing |].
  intros v. rewrite !storedSources_elem by assumption. cbn [table].
  rewrite lookup_delete_Some. split; [intros [Hk Hv] | intros [Hv Hk]]; by split.
Qed.

Lemma list_after_delete_witness :
  wellFormed (table oneRecord)
  /\ response (getAllHandler calm (snd (deleteHandler calm deleteAbc oneRecord)))
     = Some {| StatusCode := 200; ResponseBody := "[]" |}.
Proof.
  pose proof oneRecord_wellFormed as Hw.
  assert (Hne : index (pathParameters deleteAbc) "id" <> "") by discriminate.
  split; [exact Hw |].
  exact (proj1 (list_after_delete calm calm deleteAbc oneRecord
                  eq_refl eq_refl Hw Hne)).
Defined.

(** X22: a delete of the generated id undoes a create: when the generated
    id was not in the table, the table after the create and the delete is
    the table before them. *)
Theorem create_then_delete_restores
  {R1 R2 : Type} `{Event R1} `{Event R2}
  (e e' : Env) (w : World) (post : R1) (del : R2) (u : uuid.UUID) :
  healthy e = true -> healthy e' = true ->
  uuid.New (entropy e) = Returned u ->
  table w !! uuid.String u = None ->
  index (pathParameters del) "id" = uuid.String u ->
  table (snd (deleteHandler e' del (snd (postHandler e post w)))) = table w.
Proof.
  intros He He' Hu Hfresh Hid. destruct (healthy_true e He) as [Hc Hs].
  destruct (healthy_true e' He') as [Hc' Hs'].
  rewrite postHandler_unfold, Hc, Hu. cbv zeta. rewrite Hs. cbn [snd].
  rewrite deleteHandler_unfold. cbv zeta. rewrite Hid.
  pose proof (uuid_String_nonempty u) as Hne. apply String.eqb_neq in Hne.
  rewrite Hne, Hc', Hs'. cbn [snd table].
  by apply delete_insert_id.
Qed.

Lemma create_then_delete_restores_witness :
  table oneRecord !! "01020304-0506-4708-890a-0b0c0d0e0f10" = None
  /\ table (snd (deleteHandler calm deleteCreated
                   (snd (postHandler calm postWithId oneRecord))))
     = table oneRecord.
Proof.
  assert (Hfresh : table oneRecord !! "01020304-0506-4708-890a-0b0c0d0e0f10"
                   = None) by reflexivity.
  split; [exact Hfresh |].
  exact (create_then_delete_restores calm calm oneRecord postWithId deleteCreated
           _ eq_refl eq_refl eq_refl Hfresh eq_refl).
Defined.

(** *** The generated id *)

Lemma hexDigit_Hex n : (n < 16)%N -> inClass Hex (json.hexDigit n) = true.
Proof.
  intros Hn. pattern n. apply (small_cases _ 16); [| exact Hn].
  cbn [seq map N.of_nat Pos.of_succ_nat Pos.succ].
  repeat (apply Forall_cons; split; [reflexivity |]).
  by apply Forall_nil.
Qed.

Lemma byteAt_lt u i : (uuid.byteAt u i < 256)%N.
Proof. unfold uuid.byteAt. apply N.mod_lt. lia. Qed.

Lemma hexByte_Hex u i rest p :
  matches p rest = true ->
  matches (Hex :: Hex :: p) (uuid.hexByte (uuid.byteAt u i) ++ rest) = true.
Proof.
  intros Hrest. unfold uuid.hexByte. cbn [app matches].
  rewrite hexDigit_Hex by apply shiftr4_byte, byteAt_lt.
  rewrite hexDigit_Hex by apply land15_lt. exact Hrest.
Qed.

(** The high digit of a byte with the version bits set is 4. *)
Lemma version_digit y :
  json.hexDigit (N.shiftr (N.lor (N.land y 0x0F) 0x40 mod 256) 4) = 52%N.
Proof.
  pose proof (land15_lt y) as Hz. revert Hz. generalize (N.land y 0x0F).
  intros z Hz. pattern z. apply (small_cases _ 16); [| exact Hz].
  cbn [seq map N.of_nat Pos.of_succ_nat Pos.succ].
  repeat (apply Forall_cons; split; [reflexivity |]).
  by apply Forall_nil.
Qed.

(** The high digit of a byte with the variant bits set is 8, 9, a or b. *)
Lemma variant_digit y :
  inClass Variant
    (json.hexDigit (N.shiftr (N.lor (N.land y 0x3F) 0x80 mod 256) 4)) = true.
Proof.
  pose proof (low6_lt y) as Hz. unfold utf8.low6 in Hz. revert Hz.
  generalize (N.land y 0x3F).
  intros z Hz. pattern z. apply (small_cases _ 64); [| exact Hz].
  cbn [seq map N.of_nat Pos.of_succ_nat Pos.succ].
  repeat (apply Forall_cons; split; [reflexivity |]).
  by apply Forall_nil.
Qed.

Lemma dash_step p rest :
  matches p rest = true -> matches (Dash :: p) (45%N :: rest) = true.
Proof. intros Hrest. cbn [matches inClass]. by rewrite Hrest. Qed.

Lemma version_step u i y rest p :
  uuid.byteAt u i = (N.lor (N.land y 0x0F) 0x40 mod 256)%N ->
  matches p rest = true ->
  matches (Version :: Hex :: p) (uuid.hexByte (uuid.byteAt u i) ++ rest) = true.
Proof.
  intros Hi Hrest. unfold uuid.hexByte. cbn [app matches].
  rewrite hexDigit_Hex by apply land15_lt.
  rewrite Hi, version_digit. exact Hrest.
Qed.

Lemma variant_step u i y rest p :
  uuid.byteAt u i = (N.lor (N.land y 0x3F) 0x80 mod 256)%N ->
  matches p rest = true ->
  matches (Variant :: Hex :: p) (uuid.hexByte (uuid.byteAt u i) ++ rest) = true.
Proof.
  intros Hi Hrest. unfold uuid.hexByte. cbn [app matches].
  rewrite hexDigit_Hex by apply land15_lt.
  rewrite Hi, variant_digit. exact Hrest.
Qed.

Lemma encodeHex_ascii u : Forall (fun b => (b < 128)%N) (uuid.encodeHex u).
Proof.
  unfold uuid.encodeHex. rewrite !Forall_app.
  repeat split;
    first [ apply hexBytes_ascii
          | apply (hexBytes_ascii u 0 1)
          | by repeat constructor ].
Qed.

(** The string of a UUID that [uuid.NewRandom] built has the form of a
    version-4 UUID. *)
Lemma NewRandom_shaped b u :
  uuid.NewRandom (Some b) = Some u -> uuidShaped (uuid.String u) = true.
Proof.
  intros [= <-]. unfold uuidShaped, uuid.String.
  rewrite bytes_str.
  2: { eapply Forall_impl; [apply encodeHex_ascii |].
       intros x Hx. simpl in Hx. lia. }
  set (u0 := map (fun i => uuid.byteAt b i) (seq 0 16)).
  set (y6 := uuid.byteAt u0 6). set (y8 := uuid.byteAt u0 8).
  match goal with |- context [uuid.encodeHex ?x] => set (u := x) end.
  assert (H6 : uuid.byteAt u 6 = (N.lor (N.land y6 0x0F) 0x40 mod 256)%N)
    by reflexivity.
  assert (H8 : uuid.byteAt u 8 = (N.lor (N.land y8 0x3F) 0x80 mod 256)%N)
    by reflexivity.
  clearbody u. unfold uuid.encodeHex, uuid.hexBytes.
  cbn [flat_map seq]. rewrite <- !app_assoc. cbn [app].
  change uuidPattern with
    ([Hex; Hex; Hex; Hex; Hex; Hex; Hex; Hex; Dash; Hex; Hex; Hex; Hex; Dash;
      Version; Hex; Hex; Hex; Dash; Variant; Hex; Hex; Hex; Dash;
      Hex; Hex; Hex; Hex; Hex; Hex; Hex; Hex; Hex; Hex; Hex; Hex]).
  do 4 apply hexByte_Hex. apply dash_step.
  do 2 apply hexByte_Hex. apply dash_step.
  eapply version_step; [exact H6 |]. apply hexByte_Hex. apply dash_step.
  eapply variant_step; [exact H8 |]. apply hexByte_Hex. apply dash_step.
  do 6 apply hexByte_Hex. reflexivity.
Qed.

(** X23: the key a successful create stores its record under has the form
    of a version-4 UUID: 36 characters, dashes at 8, 13, 18 and 23,
    lower-case hexadecimal digits elsewhere, the digit 4 at 14 and one of
    8, 9, a and b at 19; whatever id the request body carries. *)
Theorem created_key_is_uuid_shaped
  {R : Type} `{Event R} (e : Env) (req : R) (w : World) :
  healthy e = true -> entropy e <> None ->
  exists id,
    uuidShaped id = true
    /\ table (snd (postHandler e req w)) !! id
       = Some (sourceItem id (Name (decoded req)) (Url (decoded req))).
Proof.
  intros He Hrand. apply healthy_true in He as [Hc Hs].
  destruct (entropy e) as [b |] eqn:Hb; [| congruence].
  destruct (uuid.NewRandom (Some b)) as [u |] eqn:Hu; [| discriminate].
  exists (uuid.String u). split; [by eapply NewRandom_shaped |].
  rewrite postHandler_unfold, Hc, Hb. unfold uuid.New. rewrite Hu.
  cbv zeta. rewrite Hs. cbn [snd table]. apply lookup_insert_eq.
Qed.

Lemma created_key_is_uuid_shaped_witness :
  exists id,
    uuidShaped id = true
    /\ table (snd (postHandler calm postWithId emptyWorld)) !! id
       = Some (sourceItem id (Name (decoded postWithId))
                 (Url (decoded postWithId))).
Proof.
  apply (created_key_is_uuid_shaped calm postWithId emptyWorld);
    [reflexivity | discriminate].
Defined.
